(** * Lens expression helpers: [prependDatasourceExpression],
      [prependKibanaContext] and [buildExpression]

    A shallow embedding of the editor-frame expression helpers of the Lens
    plugin, and the properties its specification states about them.

    Conventions of the embedding.
    - A JavaScript exception is a [Throw] in the [result] monad; a function
      that returns [Ast | null] returns [result (option Ast)].
    - [Object.entries(datasourceMap)] is the association list of the map in
      its enumeration order; [datasourceStates] is only indexed, so it is a
      finite map.
    - The capabilities of a data source or a visualization are functions; the
      calls the helpers make to them are recorded in a log.
    - The expression parser [fromExpression] belongs to another package: it
      is a parameter, and it may throw.
    - [JSON.stringify] and [JSON.parse] are embedded on plain data: null,
      booleans, integers, strings, arrays and objects.
    - The helpers are embedded a second time over a store of objects
      ([Store]), where an object is passed by reference and [push] writes
      in place; the two embeddings are proved to agree. *)

From Stdlib Require Import ZArith Ascii String List Lia.
From Stdlib Require Import DecimalString DecimalPos.
From stdpp Require Import base option list strings gmap.

Import ListNotations.
Local Open Scope string_scope.
Set Warnings "-register-all".

(** ** Exceptions *)

Inductive Error : Type :=
| TypeError     (* reading a property of [undefined] *)
| SyntaxError.  (* raised by the expression parser *)

Inductive result (A : Type) : Type :=
| Ok (a : A)
| Throw (e : Error).

Arguments Ok {A} a.
Arguments Throw {A} e.

Definition bind {A B : Type} (m : result A) (k : A -> result B) : result B :=
  match m with
  | Ok a => k a
  | Throw e => Throw e
  end.

Notation "'let*' x ':=' m 'in' k" := (bind m (fun x => k))
  (at level 10, x name, m at level 100, k at level 200).

(** ** Expression trees ([Ast] of the interpreter package)

    [{ type: 'expression', chain: [...] }] with function nodes
    [{ type: 'function', function: name, arguments: { name: [values] } }].
    The argument object is kept as the list of its entries in the order the
    object literal gives them. *)

Inductive Ast : Type :=
| Expression (chain : list ExpressionFunctionAST)
with ExpressionFunctionAST : Type :=
| FunctionAST (function : string) (arguments : list (string * list ExpressionArg))
with ExpressionArg : Type :=
| ArgString (s : string)
| ArgAst (a : Ast).

Definition chain (a : Ast) : list ExpressionFunctionAST :=
  match a with Expression c => c end.

Definition function (f : ExpressionFunctionAST) : string :=
  match f with FunctionAST n _ => n end.

Definition arguments (f : ExpressionFunctionAST)
  : list (string * list ExpressionArg) :=
  match f with FunctionAST _ a => a end.

(** The value of an argument: the first entry under that name. *)
Fixpoint argument (name : string) (args : list (string * list ExpressionArg))
  : option (list ExpressionArg) :=
  match args with
  | [] => None
  | (k, v) :: rest => if String.eqb k name then Some v else argument name rest
  end.

(** [Ast | string]: what [toExpression] returns when it returns something. *)
Inductive AstOrString : Type :=
| IsAst (a : Ast)
| IsString (s : string).

(** JavaScript truthiness of an [Ast | string] value: an object is truthy, a
    string is truthy unless it is empty. *)
Definition truthy (e : AstOrString) : bool :=
  match e with
  | IsAst _ => true
  | IsString s => negb (String.eqb s EmptyString)
  end.

(** Truthiness of an [Ast | string | null] value. *)
Definition truthy_opt (e : option AstOrString) : bool :=
  match e with
  | Some v => truthy v
  | None => false
  end.

(** ** Structured data and [JSON.stringify]

    The context parameters are plain data.  Strings are sequences of code
    units below 256, a number is an integer or [NaN], and an object is the
    list of its own properties in enumeration order. *)

Inductive Json : Type :=
| JNull
| JBool (b : bool)
| JNum (n : Z)
| JStr (s : string)
| JArr (items : list Json)
| JObj (fields : list (string * Json))
| JNaN.

Definition dquote : ascii := "034"%char.
Definition backslash : ascii := "092"%char.

Definition hex_digit (n : N) : ascii :=
  if (n <? 10)%N then ascii_of_N (48 + n) else ascii_of_N (87 + n).

(** QuoteJSONString on one code unit. *)
Definition escape_char (c : ascii) : string :=
  let n := N_of_ascii c in
  if (n =? 34)%N then String backslash (String dquote EmptyString)
  else if (n =? 92)%N then String backslash (String backslash EmptyString)
  else if (n =? 8)%N then String backslash "b"
  else if (n =? 9)%N then String backslash "t"
  else if (n =? 10)%N then String backslash "n"
  else if (n =? 12)%N then String backslash "f"
  else if (n =? 13)%N then String backslash "r"
  else if (n <? 32)%N then
    String backslash
      (String "u" (String "0" (String "0"
        (String (hex_digit (n / 16))
           (String (hex_digit (n mod 16)) EmptyString)))))
  else String c EmptyString.

Fixpoint escape (s : string) : string :=
  match s with
  | EmptyString => EmptyString
  | String c rest => escape_char c ++ escape rest
  end.

Definition quote (s : string) : string :=
  String dquote (escape s ++ String dquote EmptyString).

(** Number::toString on an integer in the safe range, where it writes
    every digit. *)
Definition number_to_string (n : Z) : string :=
  match n with
  | Z0 => "0"
  | Zpos p => NilEmpty.string_of_uint (Pos.to_uint p)
  | Zneg p => String "-" (NilEmpty.string_of_uint (Pos.to_uint p))
  end.

(** Elements joined by commas, as SerializeJSONArray and
    SerializeJSONObject do without a gap. *)
Fixpoint join_comma (parts : list string) : string :=
  match parts with
  | [] => EmptyString
  | [x] => x
  | x :: rest => x ++ String "," (join_comma rest)
  end.

(** [JSON.stringify(v)], without a replacer or a gap. *)
Fixpoint stringify (v : Json) : string :=
  match v with
  | JNull => "null"
  | JBool true => "true"
  | JBool false => "false"
  | JNum n => number_to_string n
  | JStr s => quote s
  | JArr items =>
      String "[" (join_comma (map stringify items) ++ "]")
  | JObj fields =>
      String "{"
        (join_comma
           (map (fun kv => match kv with
                           | (k, x) => quote k ++ String ":" (stringify x)
                           end) fields) ++ "}")
  | JNaN => "null"
  end.

(** JavaScript truthiness of a datum ([ToBoolean]). *)
Definition json_truthy (v : Json) : bool :=
  match v with
  | JNull => false
  | JBool b => b
  | JNum n => negb (n =? 0)%Z
  | JStr s => negb (String.eqb s EmptyString)
  | JArr _ => true
  | JObj _ => true
  | JNaN => false
  end.

(** ** [JSON.parse], on the texts of this model

    A recursive-descent reading of the JSON grammar.  A text whose number
    has a fraction or an exponent, or whose string has an escape above code
    unit 255, denotes a datum outside this model and is not read; [-0] is
    read as [0]. *)

Definition is_whitespace (c : ascii) : bool :=
  let n := N_of_ascii c in
  ((n =? 32) || (n =? 9) || (n =? 10) || (n =? 13))%N.

Fixpoint skip_whitespace (s : string) : string :=
  match s with
  | String c rest => if is_whitespace c then skip_whitespace rest else s
  | EmptyString => EmptyString
  end.

Definition is_digit (c : ascii) : bool :=
  let n := N_of_ascii c in ((48 <=? n) && (n <=? 57))%N.

Definition hex_value (c : ascii) : option N :=
  let n := N_of_ascii c in
  if ((48 <=? n) && (n <=? 57))%N then Some (n - 48)%N
  else if ((97 <=? n) && (n <=? 102))%N then Some (n - 87)%N
  else if ((65 <=? n) && (n <=? 70))%N then Some (n - 55)%N
  else None.

(** The code unit of [\uXXXX], when it is below 256. *)
Definition unicode_escape (h1 h2 h3 h4 : ascii) : option ascii :=
  match hex_value h1, hex_value h2, hex_value h3, hex_value h4 with
  | Some a, Some b, Some c, Some d =>
      let n := (((a * 16 + b) * 16 + c) * 16 + d)%N in
      if (n <? 256)%N then Some (ascii_of_N n) else None
  | _, _, _, _ => None
  end.

(** The character a one-letter escape stands for. *)
Definition simple_escape (c : ascii) : option ascii :=
  let n := N_of_ascii c in
  if (n =? 34)%N then Some dquote
  else if (n =? 92)%N then Some backslash
  else if (n =? 47)%N then Some "/"%char
  else if (n =? 98)%N then Some (ascii_of_N 8)
  else if (n =? 102)%N then Some (ascii_of_N 12)
  else if (n =? 110)%N then Some (ascii_of_N 10)
  else if (n =? 114)%N then Some (ascii_of_N 13)
  else if (n =? 116)%N then Some (ascii_of_N 9)
  else None.

Definition prepend (c : ascii) (r : option (string * string))
  : option (string * string) :=
  match r with
  | Some (s, rest) => Some (String c s, rest)
  | None => None
  end.

(** The characters of a string after its opening quote, up to the closing
    quote, and the text that follows. *)
Fixpoint parse_string (s : string) : option (string * string) :=
  match s with
  | EmptyString => None
  | String c rest =>
      let n := N_of_ascii c in
      if (n =? 34)%N then Some (EmptyString, rest)
      else if (n =? 92)%N then
        match rest with
        | String e rest' =>
            match simple_escape e with
            | Some ch => prepend ch (parse_string rest')
            | None =>
                if (N_of_ascii e =? 117)%N then
                  match rest' with
                  | String h1 (String h2 (String h3 (String h4 rest''))) =>
                      match unicode_escape h1 h2 h3 h4 with
                      | Some ch => prepend ch (parse_string rest'')
                      | None => None
                      end
                  | _ => None
                  end
                else None
            end
        | EmptyString => None
        end
      else if (n <? 32)%N then None
      else prepend c (parse_string rest)
  end.

(** The longest prefix of digits, and the text that follows. *)
Fixpoint take_digits (s : string) : string * string :=
  match s with
  | String c rest =>
      if is_digit c then
        let (ds, rest') := take_digits rest in (String c ds, rest')
      else (EmptyString, s)
  | EmptyString => (EmptyString, EmptyString)
  end.

Definition starts_fraction_or_exponent (s : string) : bool :=
  match s with
  | String c _ =>
      let n := N_of_ascii c in ((n =? 46) || (n =? 101) || (n =? 69))%N
  | EmptyString => false
  end.

Definition has_leading_zero (digits : string) : bool :=
  match digits with
  | String c (String _ _) => (N_of_ascii c =? 48)%N
  | _ => false
  end.

Definition digits_value (digits : string) : option Z :=
  match NilEmpty.uint_of_string digits with
  | Some d => Some (Z.of_N (N.of_uint d))
  | None => None
  end.

Definition parse_unsigned (s : string) : option (Z * string) :=
  let (digits, rest) := take_digits s in
  match digits with
  | EmptyString => None
  | String _ _ =>
      if has_leading_zero digits then None
      else if starts_fraction_or_exponent rest then None
      else
        match digits_value digits with
        | Some n => Some (n, rest)
        | None => None
        end
  end.

Definition parse_number (s : string) : option (Z * string) :=
  match s with
  | String c rest =>
      if (N_of_ascii c =? 45)%N then
        match parse_unsigned rest with
        | Some (n, rest') => Some ((- n)%Z, rest')
        | None => None
        end
      else parse_unsigned s
  | EmptyString => None
  end.

(** [text] read off the front of [s]. *)
Fixpoint expect (text s : string) : option string :=
  match text, s with
  | EmptyString, _ => Some s
  | String c text', String d s' =>
      if Ascii.eqb c d then expect text' s' else None
  | String _ _, EmptyString => None
  end.

(** CreateDataProperty: a repeated key keeps its place and takes the new
    value. *)
Fixpoint set_field (key : string) (value : Json)
    (fields : list (string * Json)) : list (string * Json) :=
  match fields with
  | [] => [(key, value)]
  | (k, x) :: rest =>
      if String.eqb k key then (k, value) :: rest
      else (k, x) :: set_field key value rest
  end.

(** The object of the members read, with keys that are not written with
    digits only: such keys are enumerated in the order they were created. *)
Definition object_of_members (members : list (string * Json))
  : list (string * Json) :=
  fold_left (fun fields m => set_field (fst m) (snd m) fields) members [].

Definition starts_with (code : N) (s : string) : option string :=
  match s with
  | String c rest => if (N_of_ascii c =? code)%N then Some rest else None
  | EmptyString => None
  end.

(** A value, the elements of an array after its first bracket, and the
    members of an object after its first brace; [fuel] bounds the depth of
    the calls, each of which reads at least one character. *)
Fixpoint parse_value (fuel : nat) (s : string) : option (Json * string) :=
  match fuel with
  | O => None
  | S fuel =>
      match skip_whitespace s with
      | EmptyString => None
      | String c rest as s' =>
          let n := N_of_ascii c in
          if (n =? 110)%N then
            match expect "ull" rest with
            | Some rest' => Some (JNull, rest')
            | None => None
            end
          else if (n =? 116)%N then
            match expect "rue" rest with
            | Some rest' => Some (JBool true, rest')
            | None => None
            end
          else if (n =? 102)%N then
            match expect "alse" rest with
            | Some rest' => Some (JBool false, rest')
            | None => None
            end
          else if (n =? 34)%N then
            match parse_string rest with
            | Some (str, rest') => Some (JStr str, rest')
            | None => None
            end
          else if (n =? 91)%N then
            match starts_with 93 (skip_whitespace rest) with
            | Some rest' => Some (JArr [], rest')
            | None =>
                match parse_elements fuel rest with
                | Some (items, rest') => Some (JArr items, rest')
                | None => None
                end
            end
          else if (n =? 123)%N then
            match starts_with 125 (skip_whitespace rest) with
            | Some rest' => Some (JObj [], rest')
            | None =>
                match parse_members fuel rest with
                | Some (members, rest') =>
                    Some (JObj (object_of_members members), rest')
                | None => None
                end
            end
          else
            match parse_number s' with
            | Some (z, rest') => Some (JNum z, rest')
            | None => None
            end
      end
  end
with parse_elements (fuel : nat) (s : string)
  : option (list Json * string) :=
  match fuel with
  | O => None
  | S fuel =>
      match parse_value fuel s with
      | Some (v, rest) =>
          match skip_whitespace rest with
          | String c rest' =>
              if (N_of_ascii c =? 44)%N then
                match parse_elements fuel rest' with
                | Some (vs, rest'') => Some (v :: vs, rest'')
                | None => None
                end
              else if (N_of_ascii c =? 93)%N then Some ([v], rest')
              else None
          | EmptyString => None
          end
      | None => None
      end
  end
with parse_members (fuel : nat) (s : string)
  : option (list (string * Json) * string) :=
  match fuel with
  | O => None
  | S fuel =>
      match starts_with 34 (skip_whitespace s) with
      | Some after_quote =>
          match parse_string after_quote with
          | Some (key, rest) =>
              match starts_with 58 (skip_whitespace rest) with
              | Some rest' =>
                  match parse_value fuel rest' with
                  | Some (v, rest'') =>
                      match skip_whitespace rest'' with
                      | String c rest3 =>
                          if (N_of_ascii c =? 44)%N then
                            match parse_members fuel rest3 with
                            | Some (ms, rest4) => Some ((key, v) :: ms, rest4)
                            | None => None
                            end
                          else if (N_of_ascii c =? 125)%N then
                            Some ([(key, v)], rest3)
                          else None
                      | EmptyString => None
                      end
                  | None => None
                  end
              | None => None
              end
          | None => None
          end
      | None => None
      end
  end.

(** [JSON.parse(text)]: one value, then nothing but white space. *)
Definition JSON_parse (text : string) : option Json :=
  match parse_value (S (String.length text)) text with
  | Some (v, rest) =>
      match skip_whitespace rest with
      | EmptyString => Some v
      | String _ _ => None
      end
  | None => None
  end.

(** ** The data [JSON.stringify] and [JSON.parse] take to itself

    Numbers are safe integers, which rules [NaN] out; the keys of an object
    are distinct, and none is written with digits only, so that the
    properties are enumerated in the order they were created. *)

Definition safe_integer (n : Z) : bool :=
  (Z.abs n <=? 9007199254740991)%Z.

Fixpoint all_digits (s : string) : bool :=
  match s with
  | EmptyString => true
  | String c rest => is_digit c && all_digits rest
  end.

Definition index_like (key : string) : bool :=
  match key with
  | EmptyString => false
  | String _ _ => all_digits key
  end.

Fixpoint distinct (keys : list string) : bool :=
  match keys with
  | [] => true
  | k :: rest => negb (existsb (String.eqb k) rest) && distinct rest
  end.

Fixpoint plain_data (v : Json) : bool :=
  match v with
  | JNull => true
  | JBool _ => true
  | JNum n => safe_integer n
  | JStr _ => true
  | JArr items => forallb plain_data items
  | JObj fields =>
      distinct (map fst fields)
      && forallb (fun kv => match kv with
                            | (k, x) => negb (index_like k) && plain_data x
                            end) fields
  | JNaN => false
  end.

(** The number of values in a datum, itself included, plus one for each
    element or member: enough fuel to read its text back. *)
Fixpoint size (v : Json) : nat :=
  match v with
  | JArr items => S (fold_right (fun x n => S (size x + n)) 0 items)
  | JObj fields =>
      S (fold_right (fun kv n => match kv with
                                 | (_, x) => S (size x + n)
                                 end) 0 fields)
  | _ => 1
  end.

(** Induction on a datum, with the hypothesis on every element and
    member. *)
Definition Json_induction (P : Json -> Prop)
    (Hnull : P JNull)
    (Hbool : forall b, P (JBool b))
    (Hnum : forall n, P (JNum n))
    (Hstr : forall s, P (JStr s))
    (Harr : forall items, Forall P items -> P (JArr items))
    (Hobj : forall fields,
        Forall (fun kv => P (snd kv)) fields -> P (JObj fields))
    (Hnan : P JNaN)
  : forall v, P v :=
  fix go (v : Json) : P v :=
    match v with
    | JNull => Hnull
    | JBool b => Hbool b
    | JNum n => Hnum n
    | JStr s => Hstr s
    | JArr items =>
        Harr items
          ((fix all (l : list Json) : Forall P l :=
              match l with
              | [] => @List.Forall_nil _ P
              | x :: rest => @List.Forall_cons _ P x rest (go x) (all rest)
              end) items)
    | JObj fields =>
        Hobj fields
          ((fix all (l : list (string * Json))
              : Forall (fun kv => P (snd kv)) l :=
              match l with
              | [] => @List.Forall_nil _ _
              | kv :: rest =>
                  @List.Forall_cons _ (fun kv => P (snd kv)) kv rest
                    (match kv as p return P (snd p) with
                     | (_, x) => go x
                     end) (all rest)
              end) fields)
    | JNaN => Hnan
    end.

Definition starts_with_digit (s : string) : bool :=
  match s with
  | String c _ => is_digit c
  | EmptyString => false
  end.

(** What may follow a value: nothing, a comma, or a closing bracket or
    brace. *)
Definition delimited (rest : string) : Prop :=
  match rest with
  | EmptyString => True
  | String c _ =>
      N_of_ascii c = 44%N \/ N_of_ascii c = 93%N \/ N_of_ascii c = 125%N
  end.

Definition value_start (s : string) : Prop :=
  match s with
  | String c _ =>
      is_whitespace c = false
      /\ N_of_ascii c <> 93%N /\ N_of_ascii c <> 125%N
  | EmptyString => False
  end.

(** The fuel that reading back the elements of an array, or the members of
    an object, takes. *)
Definition elements_size (items : list Json) : nat :=
  fold_right (fun x n => S (size x + n)) 0 items.

Definition members_size (fields : list (string * Json)) : nat :=
  fold_right (fun kv n => match kv with
                          | (_, x) => S (size x + n)
                          end) 0 fields.

(** The text of a member, as [stringify] writes it. *)
Definition member_text (kv : string * Json) : string :=
  match kv with
  | (k, x) => quote k ++ String ":" (stringify x)
  end.

(** The parser reads the text of [v] back, whatever delimiter follows. *)
Definition reads_back (v : Json) : Prop :=
  forall fuel rest,
    size v <= fuel ->
    delimited rest ->
    parse_value fuel (stringify v ++ rest) = Some (v, rest).

Definition has_key (key : string) (fields : list (string * Json)) : bool :=
  existsb (String.eqb key) (map fst fields).

(** ** The capability interfaces of [types.ts]

    Only the members the helpers call.  The states are [unknown] in the
    source, so the interfaces are parametric in them. *)

Module Datasource.
Record t (State : Type) : Type := {
  getLayers : State -> list string;
  toExpression : State -> string -> option AstOrString
}.
Arguments getLayers {State} _ _.
Arguments toExpression {State} _ _ _.
End Datasource.

Module Visualization.
Record t (State Frame : Type) : Type := {
  toExpression : State -> Frame -> option AstOrString
}.
Arguments toExpression {State Frame} _ _ _.
End Visualization.

(** An entry of [datasourceStates]. *)
Record DatasourceState (State : Type) : Type := {
  isLoading : bool;
  state : State
}.
Arguments isLoading {State} _.
Arguments state {State} _.

(** Modelled from the spec: the declarations of [TimeRange], [Query] and
    [Filter] are not among the sources.  The spec calls them a time range, a
    query object and a set of filters, each serialized to text: a time range
    and a query are objects, the filters are an array.  A field is [None]
    when the caller left the parameter out. *)
Record Context : Type := {
  timeRange : option (list (string * Json));
  query : option (list (string * Json));
  filters : option (list Json)
}.

(** The argument object [{}] of [buildExpression]'s call. *)
Definition no_context : Context :=
  {| timeRange := None; query := None; filters := None |}.

(** The calls made to the capabilities of the data sources. *)
Inductive Call : Type :=
| GetLayers (datasourceId : string)
| ToExpression (datasourceId layerId : string).

(** The local array [datasourceExpressions] and the calls made so far. *)
Record Collected : Type := {
  datasourceExpressions : list (string * AstOrString);
  calls : list Call
}.

Definition push (entry : string * AstOrString) (acc : Collected) : Collected :=
  {| datasourceExpressions := datasourceExpressions acc ++ [entry];
     calls := calls acc |}.

Definition called (c : Call) (acc : Collected) : Collected :=
  {| datasourceExpressions := datasourceExpressions acc;
     calls := calls acc ++ [c] |}.

Definition nothing_collected : Collected :=
  {| datasourceExpressions := []; calls := [] |}.

(** [forEach] with a callback that may throw. *)
Fixpoint forEach {A S : Type} (l : list A) (callback : S -> A -> result S)
    (acc : S) : result S :=
  match l with
  | [] => Ok acc
  | x :: rest => let* acc' := callback acc x in forEach rest callback acc'
  end.

(** [map] with a callback that may throw. *)
Fixpoint map_result {A B : Type} (f : A -> result B) (l : list A)
  : result (list B) :=
  match l with
  | [] => Ok []
  | x :: rest =>
      let* y := f x in
      let* ys := map_result f rest in
      Ok (y :: ys)
  end.

(** ** The helpers *)

Section Composer.

(** The state of a data source, the state of the visualization and the
    frame API are opaque to the helpers. *)
Variables State VisState Frame : Type.

(** [fromExpression] of the interpreter package. *)
Variable fromExpression : string -> result Ast.

(** [typeof expr === 'string' ? fromExpression(expr) : expr] *)
Definition parsed (expr : AstOrString) : result Ast :=
  match expr with
  | IsString s => fromExpression s
  | IsAst a => Ok a
  end.

(** The callback of [layers.forEach]. *)
Definition layer_callback (datasourceId : string)
    (datasource : Datasource.t State) (st : State)
    (acc : Collected) (layerId : string) : Collected :=
  let result := Datasource.toExpression datasource st layerId in
  let acc := called (ToExpression datasourceId layerId) acc in
  match result with
  | Some r => if truthy r then push (layerId, r) acc else acc
  | None => acc
  end.

(** The callback of [Object.entries(datasourceMap).forEach]: reading
    [.state] of a missing entry is a [TypeError].  The finite map holds
    what a read of [datasourceStates] finds under an identifier; under the
    name of an inherited property that is the inherited value when the
    object has no entry of its own, see [Store.get]. *)
Definition datasource_callback
    (datasourceStates : gmap string (DatasourceState State))
    (acc : Collected) (entry : string * Datasource.t State)
  : result Collected :=
  let '(datasourceId, datasource) := entry in
  match datasourceStates !! datasourceId with
  | None => Throw TypeError
  | Some e =>
      let st := state e in
      let layers := Datasource.getLayers datasource st in
      Ok (fold_left (layer_callback datasourceId datasource st) layers
            (called (GetLayers datasourceId) acc))
  end.

(** Lines 24 to 36: the array [datasourceExpressions] after the loops. *)
Definition collectDatasourceExpressions
    (datasourceMap : list (string * Datasource.t State))
    (datasourceStates : gmap string (DatasourceState State))
  : result Collected :=
  forEach datasourceMap (datasource_callback datasourceStates)
    nothing_collected.

Definition lens_merge_tables (tables : list (string * Ast))
  : ExpressionFunctionAST :=
  FunctionAST "lens_merge_tables"
    [ ("layerIds", map (fun p => ArgString (fst p)) tables);
      ("tables", map (fun p => ArgAst (snd p)) tables) ].

Definition prependDatasourceExpression
    (visualizationExpression : option AstOrString)
    (datasourceMap : list (string * Datasource.t State))
    (datasourceStates : gmap string (DatasourceState State))
  : result (option Ast) :=
  let* collected :=
    collectDatasourceExpressions datasourceMap datasourceStates in
  match datasourceExpressions collected, visualizationExpression with
  | [], _ => Ok None
  | _, None => Ok None
  | exprs, Some vis =>
      let* parsedDatasourceExpressions :=
        map_result
          (fun p => let* e := parsed (snd p) in Ok (fst p, e)) exprs in
      let datafetchExpression :=
        lens_merge_tables parsedDatasourceExpressions in
      let* parsedVisualizationExpression := parsed vis in
      Ok (Some (Expression
                  (datafetchExpression
                     :: chain parsedVisualizationExpression)))
  end.

(** [value ? [JSON.stringify(value)] : []] *)
Definition context_argument (value : option Json) : list ExpressionArg :=
  match value with
  | Some v => if json_truthy v then [ArgString (stringify v)] else []
  | None => []
  end.

Definition kibana : ExpressionFunctionAST := FunctionAST "kibana" [].

Definition kibana_context (context : Context) : ExpressionFunctionAST :=
  FunctionAST "kibana_context"
    [ ("timeRange", context_argument (JObj <$> timeRange context));
      ("query", context_argument (JObj <$> query context));
      ("filters", context_argument (JArr <$> filters context)) ].

Definition prependKibanaContext (expression : option AstOrString)
    (context : Context) : result (option Ast) :=
  if negb (truthy_opt expression) then Ok None
  else
    match expression with
    | None => Ok None
    | Some e =>
        let* parsedExpression := parsed e in
        Ok (Some (Expression
                    (kibana :: kibana_context context
                       :: chain parsedExpression)))
    end.

Definition buildExpression
    (visualization : option (Visualization.t VisState Frame))
    (visualizationState : VisState)
    (datasourceMap : list (string * Datasource.t State))
    (datasourceStates : gmap string (DatasourceState State))
    (framePublicAPI : Frame) : result (option Ast) :=
  match visualization with
  | None => Ok None
  | Some vis =>
      let visualizationExpression :=
        Visualization.toExpression vis visualizationState framePublicAPI in
      let* merged :=
        prependDatasourceExpression visualizationExpression
          datasourceMap datasourceStates in
      prependKibanaContext (IsAst <$> merged) no_context
  end.

End Composer.


(** ** What the specification describes

    These definitions follow the words of the specification; the theorems
    below compare them with the helpers above. *)

Section Described.

Variable State : Type.

(** A layer contributes the expression its data source reports for it. *)
Definition spec_layer_pair (datasource : Datasource.t State) (st : State)
    (layerId : string) : option (string * AstOrString) :=
  match Datasource.toExpression datasource st layerId with
  | Some r => if truthy r then Some (layerId, r) else None
  | None => None
  end.

(** The pairs of one data source, in the order it reports its layers. *)
Definition spec_layer_pairs (datasource : Datasource.t State) (st : State)
  : list (string * AstOrString) :=
  omap (spec_layer_pair datasource st) (Datasource.getLayers datasource st).

(** The pairs of all data sources, in the iteration order of the map. *)
Fixpoint spec_pairs (datasourceMap : list (string * Datasource.t State))
    (datasourceStates : gmap string (DatasourceState State))
  : list (string * AstOrString) :=
  match datasourceMap with
  | [] => []
  | (datasourceId, datasource) :: rest =>
      match datasourceStates !! datasourceId with
      | Some e => spec_layer_pairs datasource (state e)
      | None => []
      end ++ spec_pairs rest datasourceStates
  end.

(** One request for the layers of each data source, then one request for
    the expression of each layer it reports. *)
Fixpoint spec_calls (datasourceMap : list (string * Datasource.t State))
    (datasourceStates : gmap string (DatasourceState State)) : list Call :=
  match datasourceMap with
  | [] => []
  | (datasourceId, datasource) :: rest =>
      match datasourceStates !! datasourceId with
      | Some e =>
          GetLayers datasourceId
            :: map (ToExpression datasourceId)
                 (Datasource.getLayers datasource (state e))
      | None => []
      end ++ spec_calls rest datasourceStates
  end.

(** Every data source of the map has an entry in the state map. *)
Definition states_cover (datasourceMap : list (string * Datasource.t State))
    (datasourceStates : gmap string (DatasourceState State)) : Prop :=
  Forall (fun entry => is_Some (datasourceStates !! fst entry)) datasourceMap.

(** The data source that reports no expression where the given one reports
    the empty text. *)
Definition without_empty_text (datasource : Datasource.t State)
  : Datasource.t State :=
  {| Datasource.getLayers := Datasource.getLayers datasource;
     Datasource.toExpression := fun st layerId =>
       match Datasource.toExpression datasource st layerId with
       | Some (IsString EmptyString) => None
       | r => r
       end |}.

End Described.

Arguments spec_layer_pair {State} _ _ _.
Arguments spec_layer_pairs {State} _ _.
Arguments spec_pairs {State} _ _.
Arguments spec_calls {State} _ _.
Arguments states_cover {State} _ _.
Arguments without_empty_text {State} _.
Arguments parsed _ _ : clear implicits.
Arguments layer_callback {State} _ _ _ _ _.
Arguments datasource_callback {State} _ _ _.
Arguments collectDatasourceExpressions {State} _ _.
Arguments prependDatasourceExpression {State} _ _ _ _.
Arguments buildExpression {State VisState Frame} _ _ _ _ _ _.

(** The second node's argument as the specification words it: one
    serialized text when the parameter is supplied, nothing otherwise. *)
Definition spec_context_argument (value : option Json) : list ExpressionArg :=
  match value with
  | Some v => [ArgString (stringify v)]
  | None => []
  end.

(** What a reported expression adds to the collected array: itself when it
    is truthy, nothing otherwise. *)
Definition contribution (r : option AstOrString) : option AstOrString :=
  match r with
  | Some x => if truthy x then Some x else None
  | None => None
  end.

(** Two data sources whose layers and contributions agree. *)
Definition same_contributions {State : Type} (a b : Datasource.t State)
  : Prop :=
  (forall st, Datasource.getLayers a st = Datasource.getLayers b st) /\
  (forall st layerId,
     contribution (Datasource.toExpression a st layerId)
     = contribution (Datasource.toExpression b st layerId)).


(** The tree an expression stands for, as the specification words it: a
    tree stands for itself, a textual form for the tree the parser turns it
    into. *)
Definition spec_parsed (fromExpression : string -> result Ast)
    (e : AstOrString) (a : Ast) : Prop :=
  match e with
  | IsAst t => a = t
  | IsString text => fromExpression text = Ok a
  end.


(** ** Sample inputs *)

(** A stand-in for the parser: the text is read as one function name. *)
Definition sample_fromExpression (text : string) : result Ast :=
  Ok (Expression [FunctionAST text []]).

Definition chain_B : Ast := Expression [FunctionAST "B" []].

(** Four layers: a tree, nothing, the empty text, a text. *)
Definition sample_datasource : Datasource.t nat :=
  {| Datasource.getLayers := fun _ => ["L1"; "L2"; "L3"; "L4"];
     Datasource.toExpression := fun _ layerId =>
       if String.eqb layerId "L1" then Some (IsAst chain_B)
       else if String.eqb layerId "L2" then None
       else if String.eqb layerId "L3" then Some (IsString EmptyString)
       else Some (IsString "C") |}.

(** A data source none of whose layers has an expression. *)
Definition silent_datasource : Datasource.t nat :=
  {| Datasource.getLayers := fun _ => ["M1"; "M2"];
     Datasource.toExpression := fun _ _ => None |}.

Definition sample_states : gmap string (DatasourceState nat) :=
  <["ds1" := {| isLoading := false; state := 0 |}]>
    (<["ds2" := {| isLoading := true; state := 1 |}]> ∅).

Definition sample_map : list (string * Datasource.t nat) :=
  [("ds1", sample_datasource); ("ds2", silent_datasource)].

Definition sample_visualization : Visualization.t nat nat :=
  {| Visualization.toExpression := fun _ _ => Some (IsString "A") |}.

Definition sample_range : list (string * Json) :=
  [("from", JStr "now-15m"); ("to", JStr "now")].

(** The query text holds a quoted phrase and a backslash. *)
Definition sample_query : list (string * Json) :=
  [ ("query",
     JStr ("host:" ++ String dquote ("a\b" ++ String dquote EmptyString)));
    ("language", JStr "kuery") ].

Definition sample_filters : list Json :=
  [ JObj [ ("meta",
            JObj [ ("negate", JBool false); ("alias", JNull);
                   ("index", JStr "logs-*") ]);
           ("range",
            JObj [ ("bytes",
                    JObj [("gte", JNum 0); ("lt", JNum (-1024))]) ]) ];
    JObj [] ].

(** A range filter whose lower bound is [NaN], and what is read back of
    it. *)
Definition nan_filters : list Json :=
  [JObj [("range", JObj [("bytes", JObj [("gte", JNaN)])])]].

Definition null_filters : list Json :=
  [JObj [("range", JObj [("bytes", JObj [("gte", JNull)])])]].

Definition sample_context : Context :=
  {| timeRange := Some sample_range;
     query := Some sample_query;
     filters := Some sample_filters |}.

(** A stand-in that rejects the empty text. *)
Definition strict_fromExpression (text : string) : result Ast :=
  match text with
  | EmptyString => Throw SyntaxError
  | _ => sample_fromExpression text
  end.

(** A state map without any entry. *)
Definition no_states : gmap string (DatasourceState nat) := ∅.



(** ** Further notions about the helpers *)

(** A data source that reports trees only, never a text. *)
Definition reports_trees {State : Type} (datasource : Datasource.t State)
  : Prop :=
  forall st layerId text,
    Datasource.toExpression datasource st layerId <> Some (IsString text).

(** The collected entries that are trees. *)
Definition tree_pairs (pairs : list (string * AstOrString))
  : list (string * Ast) :=
  omap (fun p => match snd p with
                 | IsAst t => Some (fst p, t)
                 | IsString _ => None
                 end) pairs.

(** The [kibana_context] node of [buildExpression]: no argument has a
    value. *)
Definition empty_kibana_context : ExpressionFunctionAST :=
  FunctionAST "kibana_context"
    [("timeRange", []); ("query", []); ("filters", [])].

(** The sample states with every [isLoading] flag inverted. *)
Definition sample_states_loading : gmap string (DatasourceState nat) :=
  <["ds1" := {| isLoading := true; state := 0 |}]>
    (<["ds2" := {| isLoading := false; state := 1 |}]> ∅).

(** A data source with two layers, each with a tree. *)
Definition tree_datasource : Datasource.t nat :=
  {| Datasource.getLayers := fun _ => ["T1"; "T2"];
     Datasource.toExpression := fun _ layerId =>
       Some (IsAst (Expression [FunctionAST layerId []])) |}.

Definition tree_map : list (string * Datasource.t nat) :=
  [("ds1", tree_datasource)].


(** ** The alerting UI plugin: [setup] and [start]

    What each method registers with the host, in order.  [BASE_PATH] comes
    from a file that is not among the sources and is a parameter; the
    capability flags are read for their truth value. *)

Module AlertingPlugin.

Record Capabilities : Type := {
  actions_show : bool;
  alerting_show : bool
}.

Inductive Registration : Type :=
| GetSection (name : string)
| RegisterSection (name display : string) (order : Z) (url : string)
| DocTitleInit
| BreadcrumbInit
| RoutesWhen (path : string).

Definition route_suffix : string := "/:section?/:subsection?/:view?/:id?".

Section Plugin.

Variable translate : string -> string -> string.
Variable BASE_PATH : string.

Definition setup (capabilities : Capabilities) : list Registration :=
  let canShowActions := actions_show capabilities in
  let canShowAlerts := alerting_show capabilities in
  if canShowActions || canShowAlerts then
    [ GetSection "kibana";
      RegisterSection "alerting"
        (translate "xpack.alertingUI.managementSection.displayName"
           "Alerting")
        7 (String "#" BASE_PATH) ]
  else [].

Definition start (capabilities : Capabilities) : list Registration :=
  let canShowActions := actions_show capabilities in
  let canShowAlerts := alerting_show capabilities in
  if negb canShowActions && negb canShowAlerts then []
  else [DocTitleInit; BreadcrumbInit; RoutesWhen (BASE_PATH ++ route_suffix)].

End Plugin.

(** The url of a registered section, and the pattern of a registered
    route. *)
Definition section_url (r : Registration) : option string :=
  match r with
  | RegisterSection _ _ _ url => Some url
  | _ => None
  end.

Definition route_pattern (r : Registration) : option string :=
  match r with
  | RoutesWhen path => Some path
  | _ => None
  end.

End AlertingPlugin.


(** ** The alerting UI: [lib/api.ts]

    An [async] function of this file is modelled by the requests it hands
    to the HTTP client and by the way it combines their outcomes.  The
    reason of a rejection is left out: no caller in the sources reads it.
    The two base paths come from a file that is not among the sources and
    are parameters. *)

Inductive outcome (A : Type) : Type :=
| Resolved (a : A)
| Rejected.

Arguments Resolved {A} a.
Arguments Rejected {A}.

(** [Promise.all]: resolved with every value when every promise is
    resolved, rejected as soon as one is. *)
Fixpoint promise_all {A : Type} (outcomes : list (outcome A))
  : outcome (list A) :=
  match outcomes with
  | [] => Resolved []
  | Resolved a :: rest =>
      match promise_all rest with
      | Resolved l => Resolved (a :: l)
      | Rejected => Rejected
      end
  | Rejected :: _ => Rejected
  end.

Module AlertType.
Record t : Type := {
  id : string;
  name : string
}.
End AlertType.

Module AlertAction.
Record t : Type := {
  group : string;
  id : string;
  params : list (string * Json)
}.
End AlertAction.

Module Alert.
Record t : Type := {
  id : string;
  enabled : bool;
  alertTypeId : string;
  interval : string;
  actions : list AlertAction.t;
  alertTypeParams : list (string * Json);
  scheduledTaskId : option string;
  createdBy : option string;
  updatedBy : option string;
  apiKeyOwner : option string;
  throttle : option string;
  muteAll : bool;
  mutedInstanceIds : list string
}.
End Alert.

Module Pagination.
Record t : Type := {
  index : Z;
  size : Z
}.
End Pagination.

Module LoadAlertsResponse.
Record t : Type := {
  page : Z;
  perPage : Z;
  total : Z;
  data : list Alert.t
}.
End LoadAlertsResponse.

(** A value of the [query] object given to [http.get]. *)
Inductive QueryValue : Type :=
| QNumber (n : Z)
| QString (s : string)
| QUndefined.

Inductive Request : Type :=
| Get (path : string) (query : option (list (string * QueryValue)))
| Delete (path : string).

Module Api.

Definition MAX_ACTIONS_RETURNED : Z := 10000.

Section Paths.

Variables BASE_ACTION_API_PATH BASE_ALERT_API_PATH : string.

Definition loadActionTypes : Request :=
  Get (BASE_ACTION_API_PATH ++ "/types") None.

Definition loadAllActions : Request :=
  Get (BASE_ACTION_API_PATH ++ "/_find")
    (Some [("per_page", QNumber MAX_ACTIONS_RETURNED)]).

(** The requests of [deleteActions], in the order they are made. *)
Definition deleteActions (ids : list string) : list Request :=
  map (fun id => Delete (BASE_ACTION_API_PATH ++ String "/" id)) ids.

Definition loadAlertTypes : Request :=
  Get (BASE_ALERT_API_PATH ++ "/types") None.

(** The numbers of a page are integers; in the safe range, where the
    theorems take them, the addition of the code is exact. *)
Definition loadAlerts (page : Pagination.t) (searchText : option string)
  : Request :=
  Get (BASE_ALERT_API_PATH ++ "/_find")
    (Some
       [ ("page", QNumber (Pagination.index page + 1));
         ("per_page", QNumber (Pagination.size page));
         ("search_fields",
          match searchText with
          | Some text =>
              if negb (String.eqb text EmptyString) then QString "description"
              else QUndefined
          | None => QUndefined
          end);
         ("search",
          match searchText with
          | Some text => QString text
          | None => QUndefined
          end) ]).

(** The requests of [deleteAlerts], in the order they are made. *)
Definition deleteAlerts (ids : list string) : list Request :=
  map (fun id => Delete (BASE_ACTION_API_PATH ++ String "/" id)) ids.

End Paths.

(** [await Promise.all(...)] of [deleteActions] and [deleteAlerts], given
    the outcome of each request. *)
Definition deleted (outcomes : list (outcome unit)) : outcome unit :=
  match promise_all outcomes with
  | Resolved _ => Resolved tt
  | Rejected => Rejected
  end.

(** The value of a key of a query. *)
Fixpoint query_value (key : string) (query : list (string * QueryValue))
  : QueryValue :=
  match query with
  | [] => QUndefined
  | (k, v) :: rest => if String.eqb k key then v else query_value key rest
  end.

End Api.


(** ** The alerting UI: the [AlertsList] component

    The bodies of its effects and of its [async] functions, each as the
    list of what it does, in order: the state setters it calls, the toasts
    it adds and the requests it makes.  An awaited request is given by its
    outcome.  An object used as an index is the finite map of its own
    properties. *)

(** The names of the properties that a plain object inherits from
    [Object.prototype]: a read under such a name finds the inherited value
    when the object has no property of its own under it, and an assignment
    under [__proto__] sets the prototype.  The finite maps of this model
    stand for objects whose keys are none of these names. *)
Definition inherited_name (key : string) : bool :=
  existsb (String.eqb key)
    [ "constructor"; "__proto__"; "hasOwnProperty"; "isPrototypeOf";
      "propertyIsEnumerable"; "toLocaleString"; "toString"; "valueOf";
      "__defineGetter__"; "__defineSetter__"; "__lookupGetter__";
      "__lookupSetter__" ].

Module AlertsList.

(** [Data]: an alert with the name of its type. *)
Record Data : Type := {
  alert : Alert.t;
  alertType : string
}.

Inductive Effect : Type :=
| SetAlertTypesIndex (index : gmap string AlertType.t)
| SetAlerts (alerts : list Alert.t)
| SetData (rows : list Data)
| SetIsLoadingAlertTypes (b : bool)
| SetIsLoadingAlerts (b : bool)
| SetIsDeletingActions (b : bool)
| SetTotalItemCount (n : Z)
| AddDanger (title : string)
| Http (request : Request).

(** [for (const alertType of alertTypes) index[alertType.id] = alertType].
    The finite map is the index for identifiers that are no
    [inherited_name]: it holds the properties of its own that the object
    has. *)
Definition build_index (alertTypes : list AlertType.t)
  : gmap string AlertType.t :=
  fold_left (fun index alertType => <[AlertType.id alertType := alertType]> index)
    alertTypes ∅.

(** The callback of [alerts.map] in the effect that fills the table, for a
    type identifier that is no [inherited_name]: under such a name the
    read would find the inherited property. *)
Definition data_row (alertTypesIndex : gmap string AlertType.t)
    (a : Alert.t) : Data :=
  {| alert := a;
     alertType :=
       match alertTypesIndex !! Alert.alertTypeId a with
       | Some alertType => AlertType.name alertType
       | None => Alert.alertTypeId a
       end |}.

(** The effect on [alerts] and [alertTypesIndex]. *)
Definition data_effect (alerts : list Alert.t)
    (alertTypesIndex : option (gmap string AlertType.t)) : list Effect :=
  match alertTypesIndex with
  | None => []
  | Some index => [SetData (map (data_row index) alerts)]
  end.

Section Component.

Variable translate : string -> string -> string.
Variables BASE_ACTION_API_PATH BASE_ALERT_API_PATH : string.

Definition unableToLoadAlertTypes : string :=
  translate "xpack.alertingUI.sections.alertsList.unableToLoadAlertTypesMessage"
    "Unable to load alert types".

Definition unableToLoadAlerts : string :=
  translate "xpack.alertingUI.sections.alertsList.unableToLoadAlertsMessage"
    "Unable to load alerts".

Definition failedToDeleteAlerts : string :=
  translate "xpack.alertingUI.sections.alertsList.failedToDeleteAlertsMessage"
    "Failed to delete alert(s)".

(** The effect that loads the alert types. *)
Definition alertTypes_effect (response : outcome (list AlertType.t))
  : list Effect :=
  [ SetIsLoadingAlertTypes true;
    Http (Api.loadAlertTypes BASE_ALERT_API_PATH) ]
  ++ match response with
     | Resolved alertTypes => [SetAlertTypesIndex (build_index alertTypes)]
     | Rejected => [AddDanger unableToLoadAlertTypes]
     end
  ++ [SetIsLoadingAlertTypes false].

Definition loadAlertsData (page : Pagination.t) (searchText : option string)
    (response : outcome LoadAlertsResponse.t) : list Effect :=
  [ SetIsLoadingAlerts true;
    Http (Api.loadAlerts BASE_ALERT_API_PATH page searchText) ]
  ++ match response with
     | Resolved alertsResponse =>
         [ SetAlerts (LoadAlertsResponse.data alertsResponse);
           SetTotalItemCount (LoadAlertsResponse.total alertsResponse) ]
     | Rejected => [AddDanger unableToLoadAlerts]
     end
  ++ [SetIsLoadingAlerts false].

(** [deleteItems]; [deletion i] is the outcome of the request for the
    item at index [i], [reload] that of the request [loadAlertsData]
    makes. *)
Definition deleteItems (items : list Data) (page : Pagination.t)
    (searchText : option string) (deletion : nat -> outcome unit)
    (reload : outcome LoadAlertsResponse.t) : list Effect :=
  let ids := map (fun item => Alert.id (alert item)) items in
  [SetIsDeletingActions true]
  ++ map Http (Api.deleteAlerts BASE_ACTION_API_PATH ids)
  ++ match Api.deleted (map deletion (seq 0 (length ids))) with
     | Resolved _ => loadAlertsData page searchText reload
     | Rejected =>
         AddDanger failedToDeleteAlerts
           :: loadAlertsData page searchText reload
     end
  ++ [SetIsDeletingActions false].

End Component.

(** The state of the component that these functions write, the toasts
    shown and the requests made. *)
Record State : Type := {
  alertTypesIndex : option (gmap string AlertType.t);
  alerts : list Alert.t;
  data : list Data;
  isLoadingAlertTypes : bool;
  isLoadingAlerts : bool;
  isDeletingActions : bool;
  totalItemCount : Z;
  toasts : list string;
  requests : list Request
}.

(** The values [useState] is given. *)
Definition initial : State :=
  {| alertTypesIndex := None; alerts := []; data := [];
     isLoadingAlertTypes := false; isLoadingAlerts := false;
     isDeletingActions := false; totalItemCount := 0;
     toasts := []; requests := [] |}.

Definition apply (st : State) (e : Effect) : State :=
  match e with
  | SetAlertTypesIndex index =>
      {| alertTypesIndex := Some index; alerts := alerts st; data := data st;
         isLoadingAlertTypes := isLoadingAlertTypes st;
         isLoadingAlerts := isLoadingAlerts st;
         isDeletingActions := isDeletingActions st;
         totalItemCount := totalItemCount st;
         toasts := toasts st; requests := requests st |}
  | SetAlerts l =>
      {| alertTypesIndex := alertTypesIndex st; alerts := l; data := data st;
         isLoadingAlertTypes := isLoadingAlertTypes st;
         isLoadingAlerts := isLoadingAlerts st;
         isDeletingActions := isDeletingActions st;
         totalItemCount := totalItemCount st;
         toasts := toasts st; requests := requests st |}
  | SetData rows =>
      {| alertTypesIndex := alertTypesIndex st; alerts := alerts st;
         data := rows;
         isLoadingAlertTypes := isLoadingAlertTypes st;
         isLoadingAlerts := isLoadingAlerts st;
         isDeletingActions := isDeletingActions st;
         totalItemCount := totalItemCount st;
         toasts := toasts st; requests := requests st |}
  | SetIsLoadingAlertTypes b =>
      {| alertTypesIndex := alertTypesIndex st; alerts := alerts st;
         data := data st;
         isLoadingAlertTypes := b;
         isLoadingAlerts := isLoadingAlerts st;
         isDeletingActions := isDeletingActions st;
         totalItemCount := totalItemCount st;
         toasts := toasts st; requests := requests st |}
  | SetIsLoadingAlerts b =>
      {| alertTypesIndex := alertTypesIndex st; alerts := alerts st;
         data := data st;
         isLoadingAlertTypes := isLoadingAlertTypes st;
         isLoadingAlerts := b;
         isDeletingActions := isDeletingActions st;
         totalItemCount := totalItemCount st;
         toasts := toasts st; requests := requests st |}
  | SetIsDeletingActions b =>
      {| alertTypesIndex := alertTypesIndex st; alerts := alerts st;
         data := data st;
         isLoadingAlertTypes := isLoadingAlertTypes st;
         isLoadingAlerts := isLoadingAlerts st;
         isDeletingActions := b;
         totalItemCount := totalItemCount st;
         toasts := toasts st; requests := requests st |}
  | SetTotalItemCount n =>
      {| alertTypesIndex := alertTypesIndex st; alerts := alerts st;
         data := data st;
         isLoadingAlertTypes := isLoadingAlertTypes st;
         isLoadingAlerts := isLoadingAlerts st;
         isDeletingActions := isDeletingActions st;
         totalItemCount := n;
         toasts := toasts st; requests := requests st |}
  | AddDanger title =>
      {| alertTypesIndex := alertTypesIndex st; alerts := alerts st;
         data := data st;
         isLoadingAlertTypes := isLoadingAlertTypes st;
         isLoadingAlerts := isLoadingAlerts st;
         isDeletingActions := isDeletingActions st;
         totalItemCount := totalItemCount st;
         toasts := toasts st ++ [title]; requests := requests st |}
  | Http request =>
      {| alertTypesIndex := alertTypesIndex st; alerts := alerts st;
         data := data st;
         isLoadingAlertTypes := isLoadingAlertTypes st;
         isLoadingAlerts := isLoadingAlerts st;
         isDeletingActions := isDeletingActions st;
         totalItemCount := totalItemCount st;
         toasts := toasts st; requests := requests st ++ [request] |}
  end.

Definition run (effects : list Effect) (st : State) : State :=
  fold_left apply effects st.

(** The last alert type of a response that has a given identifier. *)
Fixpoint last_with_id (id : string) (alertTypes : list AlertType.t)
  : option AlertType.t :=
  match alertTypes with
  | [] => None
  | alertType :: rest =>
      match last_with_id id rest with
      | Some later => Some later
      | None =>
          if String.eqb (AlertType.id alertType) id then Some alertType
          else None
      end
  end.

(** The requests for the page of alerts among the things done. *)
Definition is_Get (e : Effect) : bool :=
  match e with
  | Http (Get _ _) => true
  | _ => false
  end.

Definition is_Delete (e : Effect) : bool :=
  match e with
  | Http (Delete _) => true
  | _ => false
  end.

End AlertsList.


(** ** Sample inputs for the further properties *)

(** What [buildExpression] returns on the sample inputs. *)
Definition sample_built : Ast :=
  Expression
    [ FunctionAST "kibana" [];
      FunctionAST "kibana_context"
        [("timeRange", []); ("query", []); ("filters", [])];
      FunctionAST "lens_merge_tables"
        [ ("layerIds", [ArgString "L1"; ArgString "L4"]);
          ("tables",
           [ ArgAst (Expression [FunctionAST "B" []]);
             ArgAst (Expression [FunctionAST "C" []]) ]) ];
      FunctionAST "A" [] ].

Definition sample_translate (id defaultMessage : string) : string :=
  defaultMessage.

Definition threshold_type : AlertType.t :=
  {| AlertType.id := "threshold"; AlertType.name := "Threshold" |}.

Definition renamed_threshold_type : AlertType.t :=
  {| AlertType.id := "threshold"; AlertType.name := "Index threshold" |}.

Definition uptime_type : AlertType.t :=
  {| AlertType.id := "uptime"; AlertType.name := "Uptime" |}.

Definition sample_alert (id alertTypeId : string) : Alert.t :=
  {| Alert.id := id; Alert.enabled := true;
     Alert.alertTypeId := alertTypeId; Alert.interval := "10s";
     Alert.actions := []; Alert.alertTypeParams := [];
     Alert.scheduledTaskId := None; Alert.createdBy := None;
     Alert.updatedBy := None; Alert.apiKeyOwner := None;
     Alert.throttle := None; Alert.muteAll := false;
     Alert.mutedInstanceIds := [] |}.

Definition sample_alerts : list Alert.t :=
  [sample_alert "a1" "threshold"; sample_alert "a2" "unknown"].

Definition sample_rows : list AlertsList.Data :=
  [ {| AlertsList.alert := sample_alert "a1" "threshold";
       AlertsList.alertType := "Threshold" |};
    {| AlertsList.alert := sample_alert "a2" "unknown";
       AlertsList.alertType := "unknown" |} ].

Definition first_page : Pagination.t :=
  {| Pagination.index := 0; Pagination.size := 10 |}.

(** The second request of deletion is rejected, the others are not. *)
Definition second_fails (i : nat) : outcome unit :=
  if Nat.eqb i 1 then Rejected else Resolved tt.


(** ** Sample inputs in which a data source has no state *)

(** A state map with an entry for [ds1] only. *)
Definition ds1_only_states : gmap string (DatasourceState nat) :=
  <["ds1" := {| isLoading := false; state := 0 |}]> ∅.

(** A map whose first data source, [ds0], has no entry in the sample
    states, and whose second has one. *)
Definition uncovered_map : list (string * Datasource.t nat) :=
  [("ds0", silent_datasource); ("ds1", sample_datasource)].

(** A visualization without an expression. *)
Definition silent_visualization : Visualization.t nat nat :=
  {| Visualization.toExpression := fun _ _ => None |}.


(** ** The helpers over a store of objects

    In the source the maps, the trees and the arrays are objects that are
    passed by reference and that an assignment or a [push] changes in
    place.  This second embedding keeps them in a store, so that a write to
    an object a helper was given can be told from the making of a new one.
    The store has two parts: the objects of the caller and of the
    capabilities, and the objects the helpers make themselves; a capability
    is given the first part only, as it holds no reference to the second.

    The parameters have the shapes their declared types give them: the two
    maps are plain objects, a capability is called on whatever value the
    map holds, and an array is read as an array. *)

Module Store.

Inductive Val : Type :=
| VUndefined
| VNull
| VBool (b : bool)
| VNum (n : Z)
| VStr (s : string)
| VRef (l : nat)              (* an object of the caller or of a capability *)
| VLocal (l : nat)            (* an object the helpers made *)
| VInherited (name : string). (* what a plain object inherits under [name] *)

(** An array, or a plain object as the list of its own properties in
    enumeration order. *)
Inductive Obj : Type :=
| OArray (items : list Val)
| OObject (fields : list (string * Val)).

Record t : Type := {
  shared : list Obj;
  locals : list Obj
}.

(** The object a reference refers to. *)
Definition cell (s : t) (v : Val) : option Obj :=
  match v with
  | VRef l => shared s !! l
  | VLocal l => locals s !! l
  | _ => None
  end.

(** The objects of the first part alone, as a capability sees them. *)
Definition shared_cell (objects : list Obj) (v : Val) : option Obj :=
  match v with
  | VRef l => objects !! l
  | _ => None
  end.

(** The own property of that name. *)
Fixpoint own (name : string) (fields : list (string * Val)) : option Val :=
  match fields with
  | [] => None
  | (k, v) :: rest => if String.eqb k name then Some v else own name rest
  end.

(** JavaScript truthiness. *)
Definition truthy (v : Val) : bool :=
  match v with
  | VUndefined | VNull => false
  | VBool b => b
  | VNum n => negb (n =? 0)%Z
  | VStr s => negb (String.eqb s EmptyString)
  | VRef _ | VLocal _ | VInherited _ => true
  end.

(** [v === null] *)
Definition is_null (v : Val) : bool :=
  match v with
  | VNull => true
  | _ => false
  end.

(** A computation on the store, which may throw; the store it leaves is
    kept in both cases. *)
Definition M (A : Type) : Type := t -> result A * t.

Definition ret {A : Type} (a : A) : M A := fun s => (Ok a, s).

Definition and_then {A B : Type} (m : M A) (k : A -> M B) : M B :=
  fun s =>
    match m s with
    | (Ok a, s') => k a s'
    | (Throw e, s') => (Throw e, s')
    end.

Notation "'let+' x ':=' m 'in' k" := (and_then m (fun x => k))
  (at level 10, x name, m at level 100, k at level 200).

(** An array or object literal: a new object of the helpers. *)
Definition alloc (o : Obj) : M Val :=
  fun s =>
    (Ok (VLocal (length (locals s))),
     {| shared := shared s; locals := locals s ++ [o] |}).

(** The store in which the object [v] refers to is replaced by [o]. *)
Definition write (v : Val) (o : Obj) (s : t) : t :=
  match v with
  | VRef l => {| shared := <[l := o]> (shared s); locals := locals s |}
  | VLocal l => {| shared := shared s; locals := <[l := o]> (locals s) |}
  | _ => s
  end.

(** [arr.push(item)]: the array is changed in place. *)
Definition push (arr item : Val) : M unit :=
  fun s =>
    match cell s arr with
    | Some (OArray items) => (Ok tt, write arr (OArray (items ++ [item])) s)
    | _ => (Throw TypeError, s)
    end.

(** [v[name]] and [v.name]: a [TypeError] on [null] and [undefined]; on a
    plain object the own property, else the inherited one, else
    [undefined].  On the other values the helpers read [state] and [chain]
    only, which none of them has. *)
Definition get (v : Val) (name : string) : M Val :=
  fun s =>
    match v with
    | VUndefined | VNull => (Throw TypeError, s)
    | _ =>
        match cell s v with
        | Some (OObject fields) =>
            match own name fields with
            | Some x => (Ok x, s)
            | None =>
                (Ok (if inherited_name name then VInherited name
                     else VUndefined), s)
            end
        | _ => (Ok VUndefined, s)
        end
    end.

(** [Object.entries(v)]: a [TypeError] on [null] and [undefined], the own
    properties of a plain object in enumeration order; the declared type of
    the map leaves no other shape. *)
Definition entries (v : Val) : M (list (string * Val)) :=
  fun s =>
    match v with
    | VUndefined | VNull => (Throw TypeError, s)
    | _ =>
        match cell s v with
        | Some (OObject fields) => (Ok fields, s)
        | _ => (Ok [], s)
        end
    end.

(** [arr.length], for the array methods. *)
Definition length_of (arr : Val) : M nat :=
  fun s =>
    match cell s arr with
    | Some (OArray items) => (Ok (length items), s)
    | _ => (Throw TypeError, s)
    end.

(** [arr.length === 0] *)
Definition is_empty (arr : Val) : M bool :=
  fun s =>
    match cell s arr with
    | Some (OArray items) => (Ok (Nat.eqb (length items) 0), s)
    | _ => (Ok false, s)
    end.

(** The element of an array at an index, as the array methods and an array
    pattern read it. *)
Definition element (arr : Val) (i : nat) : M Val :=
  fun s =>
    match cell s arr with
    | Some (OArray items) => (Ok (default VUndefined (items !! i)), s)
    | _ => (Throw TypeError, s)
    end.

(** [...v] in an array literal. *)
Definition spread (v : Val) : M (list Val) :=
  fun s =>
    match cell s v with
    | Some (OArray items) => (Ok items, s)
    | _ => (Throw TypeError, s)
    end.

(** [arr.forEach(callback)]: the length is read once, each element when its
    turn comes. *)
Fixpoint forEach_from (arr : Val) (i n : nat) (callback : Val -> M unit)
  : M unit :=
  match n with
  | 0 => ret tt
  | S n' =>
      let+ x := element arr i in
      let+ _ := callback x in
      forEach_from arr (S i) n' callback
  end.

Definition forEach_array (arr : Val) (callback : Val -> M unit) : M unit :=
  let+ n := length_of arr in
  forEach_from arr 0 n callback.

(** [arr.map(callback)]: a new array of the results. *)
Fixpoint map_from (arr : Val) (i n : nat) (callback : Val -> M Val)
  : M (list Val) :=
  match n with
  | 0 => ret []
  | S n' =>
      let+ x := element arr i in
      let+ y := callback x in
      let+ ys := map_from arr (S i) n' callback in
      ret (y :: ys)
  end.

Definition map_array (arr : Val) (callback : Val -> M Val) : M Val :=
  let+ n := length_of arr in
  let+ ys := map_from arr 0 n callback in
  alloc (OArray ys).

(** [Object.entries(v).forEach(callback)] on the entries read. *)
Fixpoint forEach_entries (l : list (string * Val))
    (callback : string * Val -> M unit) : M unit :=
  match l with
  | [] => ret tt
  | entry :: rest =>
      let+ _ := callback entry in
      forEach_entries rest callback
  end.

(** A call to a capability: it is given the objects of the first part, and
    returns a value and the objects it leaves. *)
Definition call (capability : list Obj -> Val * list Obj) : M Val :=
  fun s =>
    let '(v, objects) := capability (shared s) in
    (Ok v, {| shared := objects; locals := locals s |}).

Definition call_parser (parser : list Obj -> result Val * list Obj) : M Val :=
  fun s =>
    let '(r, objects) := parser (shared s) in
    (r, {| shared := objects; locals := locals s |}).

Section Helpers.

(** [datasource.getLayers(state)] and
    [datasource.toExpression(state, layerId)], by the data source. *)
Variable getLayers : Val -> Val -> list Obj -> Val * list Obj.
Variable toExpression : Val -> Val -> Val -> list Obj -> Val * list Obj.

(** [visualization.toExpression(state, frame)], by the visualization. *)
Variable visualization_toExpression :
  Val -> Val -> Val -> list Obj -> Val * list Obj.

(** [fromExpression] of the interpreter package. *)
Variable fromExpression : string -> list Obj -> result Val * list Obj.

(** [JSON.stringify] *)
Variable JSON_stringify : Val -> M Val.

(** [typeof expr === 'string' ? fromExpression(expr) : expr] *)
Definition parsed (expr : Val) : M Val :=
  match expr with
  | VStr text => call_parser (fromExpression text)
  | _ => ret expr
  end.

(** The callback of [layers.forEach]. *)
Definition layer_callback (datasourceExpressions datasource state : Val)
    (layerId : Val) : M unit :=
  let+ result := call (toExpression datasource state layerId) in
  if truthy result then
    let+ pair := alloc (OArray [layerId; result]) in
    push datasourceExpressions pair
  else ret tt.

(** The callback of [Object.entries(datasourceMap).forEach]: lines 27 and
    28 each read [datasourceStates[datasourceId].state]. *)
Definition datasource_callback (datasourceExpressions datasourceStates : Val)
    (entry : string * Val) : M unit :=
  let '(datasourceId, datasource) := entry in
  let+ e := get datasourceStates datasourceId in
  let+ state := get e "state" in
  let+ e' := get datasourceStates datasourceId in
  let+ state' := get e' "state" in
  let+ layers := call (getLayers datasource state') in
  forEach_array layers
    (layer_callback datasourceExpressions datasource state).

Definition prependDatasourceExpression
    (visualizationExpression datasourceMap datasourceStates : Val) : M Val :=
  let+ datasourceExpressions := alloc (OArray []) in
  let+ es := entries datasourceMap in
  let+ _ :=
    forEach_entries es
      (datasource_callback datasourceExpressions datasourceStates) in
  let+ none := is_empty datasourceExpressions in
  if none || is_null visualizationExpression then ret VNull
  else
    let+ parsedDatasourceExpressions :=
      map_array datasourceExpressions
        (fun pair =>
           let+ layerId := element pair 0 in
           let+ expr := element pair 1 in
           let+ e := parsed expr in
           alloc (OArray [layerId; e])) in
    let+ layerIds :=
      map_array parsedDatasourceExpressions (fun pair => element pair 0) in
    let+ tables :=
      map_array parsedDatasourceExpressions (fun pair => element pair 1) in
    let+ args :=
      alloc (OObject [("layerIds", layerIds); ("tables", tables)]) in
    let+ datafetchExpression :=
      alloc (OObject [ ("type", VStr "function");
                       ("function", VStr "lens_merge_tables");
                       ("arguments", args) ]) in
    let+ parsedVisualizationExpression := parsed visualizationExpression in
    let+ c := get parsedVisualizationExpression "chain" in
    let+ rest := spread c in
    let+ chain := alloc (OArray (datafetchExpression :: rest)) in
    alloc (OObject [("type", VStr "expression"); ("chain", chain)]).

(** [value ? [JSON.stringify(value)] : []] *)
Definition context_argument (value : Val) : M Val :=
  if truthy value then
    let+ text := JSON_stringify value in
    alloc (OArray [text])
  else alloc (OArray []).

Definition prependKibanaContext (expression context : Val) : M Val :=
  let+ timeRange := get context "timeRange" in
  let+ query := get context "query" in
  let+ filters := get context "filters" in
  if negb (truthy expression) then ret VNull
  else
    let+ parsedExpression := parsed expression in
    let+ none := alloc (OObject []) in
    let+ kibana :=
      alloc (OObject [ ("type", VStr "function");
                       ("function", VStr "kibana");
                       ("arguments", none) ]) in
    let+ timeRangeArgument := context_argument timeRange in
    let+ queryArgument := context_argument query in
    let+ filtersArgument := context_argument filters in
    let+ args :=
      alloc (OObject [ ("timeRange", timeRangeArgument);
                       ("query", queryArgument);
                       ("filters", filtersArgument) ]) in
    let+ kibana_context :=
      alloc (OObject [ ("type", VStr "function");
                       ("function", VStr "kibana_context");
                       ("arguments", args) ]) in
    let+ c := get parsedExpression "chain" in
    let+ rest := spread c in
    let+ chain := alloc (OArray (kibana :: kibana_context :: rest)) in
    alloc (OObject [("type", VStr "expression"); ("chain", chain)]).

(** The one argument object is given by its five properties. *)
Definition buildExpression
    (visualization visualizationState datasourceMap datasourceStates
       framePublicAPI : Val) : M Val :=
  if is_null visualization then ret VNull
  else
    let+ visualizationExpression :=
      call (visualization_toExpression visualization visualizationState
              framePublicAPI) in
    let+ merged :=
      prependDatasourceExpression visualizationExpression datasourceMap
        datasourceStates in
    let+ context := alloc (OObject []) in
    prependKibanaContext merged context.

End Helpers.

(** *** What the store holds

    A tree of the store, read as an [Ast]: [cells] gives the object of a
    reference. *)
Section Representation.

Variable cells : Val -> option Obj.

Inductive repr_ast : Val -> Ast -> Prop :=
| repr_Expression (v c : Val) (items : list Val)
    (fs : list ExpressionFunctionAST) :
    cells v = Some (OObject [("type", VStr "expression"); ("chain", c)]) ->
    cells c = Some (OArray items) ->
    repr_chain items fs ->
    repr_ast v (Expression fs)
with repr_chain : list Val -> list ExpressionFunctionAST -> Prop :=
| repr_chain_nil : repr_chain [] []
| repr_chain_cons (v : Val) (f : ExpressionFunctionAST) (vs : list Val)
    (fs : list ExpressionFunctionAST) :
    repr_function v f -> repr_chain vs fs -> repr_chain (v :: vs) (f :: fs)
with repr_function : Val -> ExpressionFunctionAST -> Prop :=
| repr_FunctionAST (v a : Val) (name : string) (fields : list (string * Val))
    (args : list (string * list ExpressionArg)) :
    cells v = Some (OObject [ ("type", VStr "function");
                              ("function", VStr name);
                              ("arguments", a) ]) ->
    cells a = Some (OObject fields) ->
    repr_arguments fields args ->
    repr_function v (FunctionAST name args)
with repr_arguments
  : list (string * Val) -> list (string * list ExpressionArg) -> Prop :=
| repr_arguments_nil : repr_arguments [] []
| repr_arguments_cons (k : string) (v : Val) (items : list Val)
    (values : list ExpressionArg) (fields : list (string * Val))
    (args : list (string * list ExpressionArg)) :
    cells v = Some (OArray items) ->
    repr_values items values ->
    repr_arguments fields args ->
    repr_arguments ((k, v) :: fields) ((k, values) :: args)
with repr_values : list Val -> list ExpressionArg -> Prop :=
| repr_values_nil : repr_values [] []
| repr_values_string (s : string) (vs : list Val)
    (values : list ExpressionArg) :
    repr_values vs values ->
    repr_values (VStr s :: vs) (ArgString s :: values)
| repr_values_ast (v : Val) (a : Ast) (vs : list Val)
    (values : list ExpressionArg) :
    repr_ast v a ->
    repr_values vs values ->
    repr_values (v :: vs) (ArgAst a :: values).

(** An [Ast | string | null] value. *)
Definition repr_answer (v : Val) (e : option AstOrString) : Prop :=
  match e with
  | None => v = VNull
  | Some (IsString text) => v = VStr text
  | Some (IsAst a) => repr_ast v a
  end.

(** What a helper returned or threw. *)
Definition represents (r : result Val) (x : result (option Ast)) : Prop :=
  match r, x with
  | Throw e, Throw e' => e = e'
  | Ok v, Ok None => v = VNull
  | Ok v, Ok (Some a) => repr_ast v a
  | _, _ => False
  end.

End Representation.

(** *** The inputs, read from the store *)

(** [datasourceStates[datasourceId].state], and nothing where the read is a
    [TypeError]. *)
Definition state_of (s : t) (datasourceStates : Val) (datasourceId : string)
  : option Val :=
  match fst ((let+ e := get datasourceStates datasourceId in
              get e "state") s) with
  | Ok v => Some v
  | Throw _ => None
  end.

(** A reference of the store refers to one of its objects. *)
Definition readable (s : t) (v : Val) : Prop :=
  match v with
  | VRef l => l < length (shared s)
  | VLocal l => l < length (locals s)
  | _ => True
  end.

End Store.

(** *** The helpers over the store and the helpers on values

    The capabilities answer as pure functions when what they return is
    given by functions of their arguments alone, and they leave the objects
    they were given as they are. *)

Section PureCapabilities.

Variable layers_of : Store.Val -> Store.Val -> list string.
Variable expression_of :
  Store.Val -> Store.Val -> string -> option AstOrString.
Variable visualization_expression_of :
  Store.Val -> Store.Val -> Store.Val -> option AstOrString.
Variable parse : string -> result Ast.

Definition pure_getLayers
    (getLayers :
       Store.Val -> Store.Val -> list Store.Obj -> Store.Val * list Store.Obj)
  : Prop :=
  forall datasource st objects,
  exists l made,
    getLayers datasource st objects = (Store.VRef l, (objects ++ made)%list)
    /\ (objects ++ made)%list !! l
       = Some (Store.OArray (map Store.VStr (layers_of datasource st))).

Definition pure_toExpression
    (toExpression :
       Store.Val -> Store.Val -> Store.Val -> list Store.Obj
       -> Store.Val * list Store.Obj)
  : Prop :=
  forall datasource st layerId objects,
  exists v made,
    toExpression datasource st (Store.VStr layerId) objects
    = (v, (objects ++ made)%list)
    /\ Store.repr_answer (Store.shared_cell (objects ++ made)%list) v
         (expression_of datasource st layerId).

Definition pure_visualization
    (visualization_toExpression :
       Store.Val -> Store.Val -> Store.Val -> list Store.Obj
       -> Store.Val * list Store.Obj)
  : Prop :=
  forall visualization st frame objects,
  exists v made,
    visualization_toExpression visualization st frame objects
    = (v, (objects ++ made)%list)
    /\ Store.repr_answer (Store.shared_cell (objects ++ made)%list) v
         (visualization_expression_of visualization st frame).

Definition pure_parser
    (fromExpression : string -> list Store.Obj
                      -> result Store.Val * list Store.Obj)
  : Prop :=
  forall text objects,
  exists r made,
    fromExpression text objects = (r, (objects ++ made)%list)
    /\ Store.represents (Store.shared_cell (objects ++ made)%list) r
         (let* a := parse text in Ok (Some a)).

(** The data source and the visualization a value of the store stands
    for. *)
Definition datasource_of (v : Store.Val) : Datasource.t Store.Val :=
  {| Datasource.getLayers := layers_of v;
     Datasource.toExpression := expression_of v |}.

Definition visualization_of (v : Store.Val)
  : option (Visualization.t Store.Val Store.Val) :=
  if Store.is_null v then None
  else Some {| Visualization.toExpression := visualization_expression_of v |}.

(** The states the helpers read under the identifiers [ids]; [isLoading]
    is not read. *)
Fixpoint states_read (s : Store.t) (datasourceStates : Store.Val)
    (ids : list string) : gmap string (DatasourceState Store.Val) :=
  match ids with
  | [] => ∅
  | id :: rest =>
      match Store.state_of s datasourceStates id with
      | Some st =>
          <[id := {| isLoading := false; state := st |}]>
            (states_read s datasourceStates rest)
      | None => states_read s datasourceStates rest
      end
  end.

(** What [buildExpression] on values gives for the inputs as the store
    holds them. *)
Definition outcome_on_values (s : Store.t)
    (visualization visualizationState datasourceMap datasourceStates
       framePublicAPI : Store.Val) : result (option Ast) :=
  match fst (Store.entries datasourceMap s) with
  | Ok es =>
      buildExpression parse (visualization_of visualization)
        visualizationState
        (map (fun kv => (fst kv, datasource_of (snd kv))) es)
        (states_read s datasourceStates (map fst es))
        framePublicAPI
  | Throw e => if Store.is_null visualization then Ok None else Throw e
  end.

End PureCapabilities.

(** The maps are plain objects of the store, as their declared type says,
    and a reference among the entries of the map of states refers to an
    object of the store. *)
Definition inputs_in (s : Store.t) (datasourceMap datasourceStates : Store.Val)
  : Prop :=
  (exists es, Store.cell s datasourceMap = Some (Store.OObject es))
  /\ exists fields,
       Store.cell s datasourceStates = Some (Store.OObject fields)
       /\ Forall (fun kv => Store.readable s (snd kv)) fields.

(** What the proofs use of it. *)
Definition inputs_readable (s : Store.t) (datasourceMap datasourceStates : Store.Val)
  : Prop :=
  Store.readable s datasourceMap
  /\ Store.readable s datasourceStates
  /\ forall fields,
       Store.cell s datasourceStates = Some (Store.OObject fields) ->
       Forall (fun kv => Store.readable s (snd kv)) fields.

(** The inputs hold the same in two stores. *)
Definition same_inputs (s s' : Store.t)
    (datasourceMap datasourceStates datasourceMap' datasourceStates'
       : Store.Val) : Prop :=
  fst (Store.entries datasourceMap s) = fst (Store.entries datasourceMap' s')
  /\ forall id,
       Store.state_of s datasourceStates id
       = Store.state_of s' datasourceStates' id.

(** Every object of [s], but the helpers' own one at [l], is in [s'] as it
    is in [s]. *)
Definition keeps (l : nat) (s s' : Store.t) : Prop :=
  Store.shared s `prefix_of` Store.shared s'
  /\ forall p o, p <> l ->
       Store.locals s !! p = Some o -> Store.locals s' !! p = Some o.

(** Every object of [s] is in [s'] as it is in [s]. *)
Definition grows (s s' : Store.t) : Prop :=
  Store.shared s `prefix_of` Store.shared s'
  /\ Store.locals s `prefix_of` Store.locals s'.

(** An entry [[layerId, result]] of [datasourceExpressions]. *)
Definition pair_repr (l : nat) (s : Store.t) (item : Store.Val)
    (entry : string * AstOrString) : Prop :=
  exists p rv,
    item = Store.VLocal p /\ p <> l
    /\ Store.locals s !! p
       = Some (Store.OArray [Store.VStr (fst entry); rv])
    /\ Store.repr_answer (Store.shared_cell (Store.shared s)) rv
         (Some (snd entry)).

(** An entry [[layerId, tree]] of [parsedDatasourceExpressions]. *)
Definition parsed_pair_repr (s : Store.t) (item : Store.Val)
    (entry : string * Ast) : Prop :=
  exists tv,
    Store.cell s item = Some (Store.OArray [Store.VStr (fst entry); tv])
    /\ Store.repr_ast (Store.cell s) tv (snd entry).

(** ** Sample inputs over the store *)

(** A data source with the one layer [L1], whose expression is the text
    [A]; a visualization whose expression is the text [V]; a parser that
    reads a text as the call of the function of that name. *)
Definition store_layers_of (datasource st : Store.Val) : list string :=
  ["L1"].

Definition store_expression_of (datasource st : Store.Val) (layerId : string)
  : option AstOrString :=
  Some (IsString "A").

Definition store_visualization_expression_of
    (visualization st frame : Store.Val) : option AstOrString :=
  Some (IsString "V").

Definition store_parse (text : string) : result Ast :=
  Ok (Expression [FunctionAST text []]).

Definition store_getLayers (datasource st : Store.Val)
    (objects : list Store.Obj) : Store.Val * list Store.Obj :=
  (Store.VRef (length objects),
   (objects ++ [Store.OArray [Store.VStr "L1"]])%list).

Definition store_toExpression (datasource st layerId : Store.Val)
    (objects : list Store.Obj) : Store.Val * list Store.Obj :=
  (Store.VStr "A", (objects ++ [])%list).

Definition store_visualization_toExpression
    (visualization st frame : Store.Val) (objects : list Store.Obj)
  : Store.Val * list Store.Obj :=
  (Store.VStr "V", (objects ++ [])%list).

Definition store_fromExpression (text : string) (objects : list Store.Obj)
  : result Store.Val * list Store.Obj :=
  let n := length objects in
  (Ok (Store.VRef n),
   (objects
      ++ [ Store.OObject [ ("type", Store.VStr "expression");
                           ("chain", Store.VRef (n + 1)) ];
           Store.OArray [Store.VRef (n + 2)];
           Store.OObject [ ("type", Store.VStr "function");
                           ("function", Store.VStr text);
                           ("arguments", Store.VRef (n + 3)) ];
           Store.OObject [] ])%list).

Definition store_JSON_stringify (v : Store.Val) : Store.M Store.Val :=
  Store.ret (Store.VStr "null").

(** The store of the caller: the map of data sources, the map of their
    states, the data source, its state entry and the visualization. *)
Definition sample_store : Store.t :=
  {| Store.shared :=
       [ Store.OObject [("ds1", Store.VRef 2)];
         Store.OObject [("ds1", Store.VRef 3)];
         Store.OObject [];
         Store.OObject [ ("isLoading", Store.VBool false);
                         ("state", Store.VNum 7) ];
         Store.OObject [] ];
     Store.locals := [] |}.

Definition sample_outcome : Ast :=
  Expression
    [ kibana;
      kibana_context no_context;
      lens_merge_tables [("L1", Expression [FunctionAST "A" []])];
      FunctionAST "V" [] ].


(** * Properties *)

Section ComposerProperties.

Variables State VisState Frame : Type.
Variable fromExpression : string -> result Ast.

Lemma prependKibanaContext_truthy (x : AstOrString) (ctx : Context) :
  truthy x = true ->
  prependKibanaContext fromExpression (Some x) ctx
  = let* pe := parsed fromExpression x in
    Ok (Some (Expression (kibana :: kibana_context ctx :: chain pe))).
Proof.
  intros H. unfold prependKibanaContext. simpl. rewrite H. reflexivity.
Qed.

Lemma context_argument_object (fields : option (list (string * Json))) :
  context_argument (JObj <$> fields) = spec_context_argument (JObj <$> fields).
Proof using Type. destruct fields; reflexivity. Qed.

Lemma context_argument_array (items : option (list Json)) :
  context_argument (JArr <$> items) = spec_context_argument (JArr <$> items).
Proof using Type. destruct items; reflexivity. Qed.

(** C9: given the empty text, [prependKibanaContext] returns null, exactly
    as it does for an absent expression; the parser is not consulted. *)
Theorem prependKibanaContext_empty_text (ctx : Context) :
  prependKibanaContext fromExpression (Some (IsString EmptyString)) ctx
  = Ok None
  /\ prependKibanaContext fromExpression (Some (IsString EmptyString)) ctx
     = prependKibanaContext fromExpression None ctx.
Proof. split; reflexivity. Qed.

(** *** The collecting loops *)

Lemma fold_layer_callback (datasourceId : string)
    (datasource : Datasource.t State) (st : State) (layers : list string) :
  forall acc,
    fold_left (layer_callback datasourceId datasource st) layers acc
    = {| datasourceExpressions :=
           datasourceExpressions acc
             ++ omap (spec_layer_pair datasource st) layers;
         calls := calls acc ++ map (ToExpression datasourceId) layers |}.
Proof using Type.
  induction layers as [|layerId layers IH]; intros acc; simpl.
  - rewrite !app_nil_r. destruct acc; reflexivity.
  - rewrite IH. unfold layer_callback, spec_layer_pair.
    destruct (Datasource.toExpression datasource st layerId) as [r|]; simpl.
    + destruct (truthy r); simpl; rewrite <- ?app_assoc; reflexivity.
    + rewrite <- app_assoc. reflexivity.
Qed.

Lemma forEach_datasources_cover
    (datasourceStates : gmap string (DatasourceState State))
    (datasourceMap : list (string * Datasource.t State)) :
  states_cover datasourceMap datasourceStates ->
  forall acc,
    forEach datasourceMap (datasource_callback datasourceStates) acc
    = Ok {| datasourceExpressions :=
              datasourceExpressions acc
                ++ spec_pairs datasourceMap datasourceStates;
            calls := calls acc ++ spec_calls datasourceMap datasourceStates |}.
Proof using Type.
  induction 1 as [|[datasourceId datasource] rest [e He] _ IH]; intros acc.
  - simpl. rewrite !app_nil_r. destruct acc; reflexivity.
  - simpl in *. rewrite He. simpl. rewrite fold_layer_callback, IH. simpl.
    unfold spec_layer_pairs. rewrite <- !app_assoc. reflexivity.
Qed.

Lemma forEach_datasources_Ok
    (datasourceStates : gmap string (DatasourceState State))
    (datasourceMap : list (string * Datasource.t State)) :
  forall acc c,
    forEach datasourceMap (datasource_callback datasourceStates) acc = Ok c ->
    states_cover datasourceMap datasourceStates.
Proof using Type.
  induction datasourceMap as [|[datasourceId datasource] rest IH];
    intros acc c H.
  - constructor.
  - simpl in H.
    destruct (datasourceStates !! datasourceId) as [e|] eqn:He;
      [|discriminate].
    simpl in H. constructor; [simpl; rewrite He; eauto | eapply IH, H].
Qed.

Lemma forEach_datasources_Throw
    (datasourceStates : gmap string (DatasourceState State))
    (datasourceMap : list (string * Datasource.t State)) :
  forall acc err,
    forEach datasourceMap (datasource_callback datasourceStates) acc
    = Throw err ->
    err = TypeError /\ ~ states_cover datasourceMap datasourceStates.
Proof using Type.
  intros acc err H.
  split.
  - revert acc H.
    induction datasourceMap as [|[datasourceId datasource] rest IH];
      intros acc H; simpl in H; [discriminate|].
    destruct (datasourceStates !! datasourceId); simpl in H.
    + eapply IH, H.
    + congruence.
  - intros Hc. rewrite (forEach_datasources_cover _ _ Hc) in H. discriminate.
Qed.

Lemma collect_cover
    (datasourceMap : list (string * Datasource.t State))
    (datasourceStates : gmap string (DatasourceState State)) :
  states_cover datasourceMap datasourceStates ->
  collectDatasourceExpressions datasourceMap datasourceStates
  = Ok {| datasourceExpressions := spec_pairs datasourceMap datasourceStates;
          calls := spec_calls datasourceMap datasourceStates |}.
Proof using Type.
  intros H. unfold collectDatasourceExpressions.
  rewrite (forEach_datasources_cover _ _ H). reflexivity.
Qed.

Lemma collect_Ok
    (datasourceMap : list (string * Datasource.t State))
    (datasourceStates : gmap string (DatasourceState State)) (c : Collected) :
  collectDatasourceExpressions datasourceMap datasourceStates = Ok c ->
  states_cover datasourceMap datasourceStates
  /\ datasourceExpressions c = spec_pairs datasourceMap datasourceStates
  /\ calls c = spec_calls datasourceMap datasourceStates.
Proof using Type.
  intros H.
  assert (Hc := forEach_datasources_Ok _ _ _ _ H).
  rewrite (collect_cover _ _ Hc) in H. inversion H; subst. auto.
Qed.

(** *** Parsing the collected expressions *)

Lemma map_result_parsed (exprs : list (string * AstOrString))
    (trees : list Ast) :
  Forall2 (fun p a => parsed fromExpression (snd p) = Ok a) exprs trees ->
  map_result (fun p => let* e := parsed fromExpression (snd p) in Ok (fst p, e))
    exprs
  = Ok (combine (map fst exprs) trees).
Proof.
  induction 1 as [|p a exprs trees Hp _ IH]; simpl; [reflexivity|].
  rewrite Hp. simpl. rewrite IH. reflexivity.
Qed.

Lemma map_result_Throw {A B : Type} (f : A -> result B) (l : list A)
    (err : Error) :
  map_result f l = Throw err -> exists x, In x l /\ f x = Throw err.
Proof using Type.
  induction l as [|x l IH]; simpl; [discriminate|].
  destruct (f x) as [y|e] eqn:Hx; simpl.
  - destruct (map_result f l) as [ys|e] eqn:Hl; simpl; [discriminate|].
    intros H. destruct (IH H) as (z & Hz & Hf). eauto.
  - intros H. exists x. split; [auto | congruence].
Qed.

Lemma combine_fst_snd (ids : list string) (trees : list Ast) :
  length ids = length trees ->
  map (fun p => ArgString (fst p)) (combine ids trees) = map ArgString ids
  /\ map (fun p => ArgAst (snd p)) (combine ids trees) = map ArgAst trees.
Proof using Type.
  revert trees. induction ids as [|i ids IH]; intros [|t trees] H;
    simpl in *; try discriminate; [auto|].
  destruct (IH trees) as [H1 H2]; [congruence|].
  rewrite H1, H2. auto.
Qed.

(** The body of [prependDatasourceExpression] once the loops are done. *)
Lemma prependDatasourceExpression_collected
    (vis : option AstOrString)
    (datasourceMap : list (string * Datasource.t State))
    (datasourceStates : gmap string (DatasourceState State))
    (c : Collected) :
  collectDatasourceExpressions datasourceMap datasourceStates = Ok c ->
  prependDatasourceExpression fromExpression vis datasourceMap datasourceStates
  = match datasourceExpressions c, vis with
    | [], _ => Ok None
    | _, None => Ok None
    | exprs, Some v =>
        let* tables :=
          map_result
            (fun p => let* e := parsed fromExpression (snd p) in Ok (fst p, e))
            exprs in
        let* pv := parsed fromExpression v in
        Ok (Some (Expression (lens_merge_tables tables :: chain pv)))
    end.
Proof.
  intros H. unfold prependDatasourceExpression. rewrite H. reflexivity.
Qed.

Lemma spec_parsed_parsed (e : AstOrString) (a : Ast) :
  spec_parsed fromExpression e a <-> parsed fromExpression e = Ok a.
Proof.
  destruct e as [t|text]; simpl; [|reflexivity].
  split; [intros -> | intros H; inversion H]; reflexivity.
Qed.

(** C1, amended: when every data source of the map has an entry in the
    state map, the visualization expression is present, at least one layer
    has an expression, and the parser turns every textual form among them
    into a tree, the result is the node [lens_merge_tables] followed by
    the visualization's chain; the node carries exactly the layer
    identifiers and the layer trees, equal in number and paired index for
    index, in the order of the data-source map and then of each data
    source's layers. *)
Theorem prependDatasourceExpression_merges
    (vis : AstOrString) (pv : Ast)
    (datasourceMap : list (string * Datasource.t State))
    (datasourceStates : gmap string (DatasourceState State))
    (trees : list Ast) :
  states_cover datasourceMap datasourceStates ->
  spec_pairs datasourceMap datasourceStates <> [] ->
  Forall2 (fun p a => spec_parsed fromExpression (snd p) a)
    (spec_pairs datasourceMap datasourceStates) trees ->
  spec_parsed fromExpression vis pv ->
  prependDatasourceExpression fromExpression (Some vis)
    datasourceMap datasourceStates
  = Ok (Some (Expression
                (FunctionAST "lens_merge_tables"
                   [ ("layerIds",
                      map ArgString
                        (map fst
                           (spec_pairs datasourceMap datasourceStates)));
                     ("tables", map ArgAst trees) ]
                   :: chain pv)))
  /\ length (map fst (spec_pairs datasourceMap datasourceStates))
     = length trees
  /\ (forall (i : nat) (layerId : string) (e : AstOrString),
        spec_pairs datasourceMap datasourceStates !! i = Some (layerId, e) ->
        exists a,
          map fst (spec_pairs datasourceMap datasourceStates) !! i
          = Some layerId
          /\ trees !! i = Some a
          /\ spec_parsed fromExpression e a).
Proof.
  intros Hcover Hne Hp Hv.
  assert (Hc := collect_cover _ _ Hcover).
  assert (Hp' : Forall2 (fun p a => parsed fromExpression (snd p) = Ok a)
                  (spec_pairs datasourceMap datasourceStates) trees).
  { eapply Forall2_impl; [exact Hp|].
    intros p a. apply spec_parsed_parsed. }
  apply spec_parsed_parsed in Hv.
  assert (Hlen : length (map fst (spec_pairs datasourceMap datasourceStates))
                 = length trees).
  { rewrite length_map. eapply Forall2_length, Hp. }
  split.
  { rewrite (prependDatasourceExpression_collected _ _ _ _ Hc).
    cbn [datasourceExpressions].
    destruct (spec_pairs datasourceMap datasourceStates) as [|p ps] eqn:Hps;
      [congruence|].
    rewrite (map_result_parsed _ _ Hp'). cbn [bind]. rewrite Hv. cbn [bind].
    destruct (combine_fst_snd _ _ Hlen) as [H1 H2].
    unfold lens_merge_tables. rewrite H1, H2. reflexivity. }
  split; [exact Hlen|].
  intros i layerId e Hi.
  destruct (Forall2_lookup_l _ _ _ _ _ Hp Hi) as (a & Ha & Hpa).
  exists a. split; [|auto].
  rewrite list_lookup_fmap, Hi. reflexivity.
Qed.

Lemma map_result_parsed_inv (exprs : list (string * AstOrString))
    (tables : list (string * Ast)) :
  map_result (fun p => let* e := parsed fromExpression (snd p) in Ok (fst p, e))
    exprs
  = Ok tables ->
  Forall2 (fun p a => parsed fromExpression (snd p) = Ok a)
    exprs (map snd tables)
  /\ tables = combine (map fst exprs) (map snd tables).
Proof.
  revert tables. induction exprs as [|p exprs IH]; intros tables H.
  - simpl in H. inversion H; subst. split; [constructor | reflexivity].
  - simpl in H.
    destruct (parsed fromExpression (snd p)) as [a|] eqn:Hp; [|discriminate].
    simpl in H.
    destruct (map_result _ exprs) as [ts|] eqn:Hts; [|discriminate].
    simpl in H. inversion H; subst. simpl.
    destruct (IH ts eq_refl) as [H1 H2].
    split; [constructor; assumption | congruence].
Qed.

Lemma parsed_Throw (x : AstOrString) (err : Error) :
  parsed fromExpression x = Throw err ->
  exists text, fromExpression text = Throw err.
Proof.
  destruct x as [a|s]; simpl; [discriminate | eauto].
Qed.

Lemma prependDatasourceExpression_covered_None
    (vis : option AstOrString)
    (datasourceMap : list (string * Datasource.t State))
    (datasourceStates : gmap string (DatasourceState State)) :
  states_cover datasourceMap datasourceStates ->
  vis = None \/ spec_pairs datasourceMap datasourceStates = [] ->
  prependDatasourceExpression fromExpression vis datasourceMap datasourceStates
  = Ok None.
Proof.
  intros Hc H.
  rewrite (prependDatasourceExpression_collected _ _ _ _ (collect_cover _ _ Hc)).
  simpl. destruct H as [-> | ->]; [|reflexivity].
  destruct (spec_pairs datasourceMap datasourceStates); reflexivity.
Qed.

Lemma prependDatasourceExpression_Some
    (vis : option AstOrString)
    (datasourceMap : list (string * Datasource.t State))
    (datasourceStates : gmap string (DatasourceState State)) (t : Ast) :
  prependDatasourceExpression fromExpression vis datasourceMap datasourceStates
  = Ok (Some t) ->
  exists (v : AstOrString) (pv : Ast) (trees : list Ast),
    vis = Some v
    /\ parsed fromExpression v = Ok pv
    /\ spec_pairs datasourceMap datasourceStates <> []
    /\ Forall2 (fun p a => parsed fromExpression (snd p) = Ok a)
         (spec_pairs datasourceMap datasourceStates) trees
    /\ t = Expression
             (lens_merge_tables
                (combine (map fst (spec_pairs datasourceMap datasourceStates))
                   trees)
                :: chain pv).
Proof.
  intros H.
  destruct (collectDatasourceExpressions datasourceMap datasourceStates)
    as [c|err] eqn:Hc;
    [|unfold prependDatasourceExpression in H; rewrite Hc in H; discriminate].
  rewrite (prependDatasourceExpression_collected _ _ _ _ Hc) in H.
  destruct (collect_Ok _ _ _ Hc) as (_ & Hexprs & _). rewrite Hexprs in H.
  destruct (spec_pairs datasourceMap datasourceStates) as [|p ps] eqn:Hps;
    [discriminate|].
  destruct vis as [v|]; [|discriminate].
  destruct (map_result _ (p :: ps)) as [tables|] eqn:Ht; [|discriminate].
  simpl in H.
  destruct (parsed fromExpression v) as [pv|] eqn:Hv; [|discriminate].
  simpl in H. inversion H; subst.
  destruct (map_result_parsed_inv _ _ Ht) as [H1 H2].
  exists v, pv, (map snd tables).
  repeat split; auto; try congruence.
Qed.

(** C2, amended: when every data source of the map has an entry in the
    state map, the result is null if the visualization expression is absent
    or no layer expression was collected; and a tree that is returned is
    always the whole tree, the merge node over every collected layer
    followed by the whole visualization chain. *)
Theorem prependDatasourceExpression_all_or_nothing
    (vis : option AstOrString)
    (datasourceMap : list (string * Datasource.t State))
    (datasourceStates : gmap string (DatasourceState State)) :
  (states_cover datasourceMap datasourceStates ->
   vis = None \/ spec_pairs datasourceMap datasourceStates = [] ->
   prependDatasourceExpression fromExpression vis
     datasourceMap datasourceStates
   = Ok None)
  /\ (forall t : Ast,
        prependDatasourceExpression fromExpression vis
          datasourceMap datasourceStates
        = Ok (Some t) ->
        exists (v : AstOrString) (pv : Ast) (trees : list Ast),
          vis = Some v
          /\ parsed fromExpression v = Ok pv
          /\ spec_pairs datasourceMap datasourceStates <> []
          /\ Forall2 (fun p a => parsed fromExpression (snd p) = Ok a)
               (spec_pairs datasourceMap datasourceStates) trees
          /\ t = Expression
                   (lens_merge_tables
                      (combine
                         (map fst
                            (spec_pairs datasourceMap datasourceStates))
                         trees)
                      :: chain pv)).
Proof.
  split.
  - apply prependDatasourceExpression_covered_None.
  - apply prependDatasourceExpression_Some.
Qed.

(** *** Errors *)

Lemma prependDatasourceExpression_Throw
    (vis : option AstOrString)
    (datasourceMap : list (string * Datasource.t State))
    (datasourceStates : gmap string (DatasourceState State)) (err : Error) :
  states_cover datasourceMap datasourceStates ->
  prependDatasourceExpression fromExpression vis datasourceMap datasourceStates
  = Throw err ->
  exists text, fromExpression text = Throw err.
Proof.
  intros Hc H.
  rewrite (prependDatasourceExpression_collected _ _ _ _ (collect_cover _ _ Hc))
    in H.
  cbn [datasourceExpressions] in H.
  destruct (spec_pairs datasourceMap datasourceStates) as [|p ps];
    [discriminate|].
  destruct vis as [v|]; [|discriminate].
  destruct (map_result _ (p :: ps)) as [tables|e] eqn:Ht.
  - simpl in H.
    destruct (parsed fromExpression v) as [pv|e] eqn:Hv; [discriminate|].
    simpl in H. inversion H; subst. eapply parsed_Throw, Hv.
  - simpl in H. inversion H; subst.
    apply map_result_Throw in Ht. destruct Ht as (x & _ & Hx).
    destruct (parsed fromExpression (snd x)) as [a|e] eqn:Hp;
      [discriminate|].
    simpl in Hx. inversion Hx; subst. eapply parsed_Throw, Hp.
Qed.

Lemma prependKibanaContext_Throw (e : option AstOrString) (ctx : Context)
    (err : Error) :
  prependKibanaContext fromExpression e ctx = Throw err ->
  exists text, fromExpression text = Throw err.
Proof.
  unfold prependKibanaContext.
  destruct (negb (truthy_opt e)); [discriminate|].
  destruct e as [x|]; [|discriminate].
  destruct (parsed fromExpression x) as [a|e'] eqn:Hp; [discriminate|].
  simpl. intros H. inversion H; subst. eapply parsed_Throw, Hp.
Qed.

Lemma buildExpression_Throw
    (visualization : option (Visualization.t VisState Frame))
    (visualizationState : VisState)
    (datasourceMap : list (string * Datasource.t State))
    (datasourceStates : gmap string (DatasourceState State))
    (framePublicAPI : Frame) (err : Error) :
  states_cover datasourceMap datasourceStates ->
  buildExpression fromExpression visualization visualizationState
    datasourceMap datasourceStates framePublicAPI
  = Throw err ->
  exists text, fromExpression text = Throw err.
Proof.
  intros Hc. unfold buildExpression.
  destruct visualization as [v|]; [|discriminate].
  destruct (prependDatasourceExpression _ _ _ _) as [merged|e] eqn:Hm; simpl.
  - apply prependKibanaContext_Throw.
  - intros H. inversion H; subst.
    eapply prependDatasourceExpression_Throw; eauto.
Qed.

(** C6, amended: when every data source of the map has an entry in the
    state map, an error that leaves one of the three helpers is an error
    the parser raised on some text, never one of their own;
    [prependKibanaContext] needs no condition on the maps.  A context of
    this model holds plain data only, which [JSON.stringify] accepts. *)
Theorem composer_raises_only_parser_errors
    (datasourceMap : list (string * Datasource.t State))
    (datasourceStates : gmap string (DatasourceState State)) :
  (states_cover datasourceMap datasourceStates ->
   forall (vis : option AstOrString) (err : Error),
     prependDatasourceExpression fromExpression vis
       datasourceMap datasourceStates
     = Throw err ->
     exists text, fromExpression text = Throw err)
  /\ (forall (e : option AstOrString) (ctx : Context) (err : Error),
        prependKibanaContext fromExpression e ctx = Throw err ->
        exists text, fromExpression text = Throw err)
  /\ (states_cover datasourceMap datasourceStates ->
      forall (visualization : option (Visualization.t VisState Frame))
             (visualizationState : VisState) (framePublicAPI : Frame)
             (err : Error),
        buildExpression fromExpression visualization visualizationState
          datasourceMap datasourceStates framePublicAPI
        = Throw err ->
        exists text, fromExpression text = Throw err).
Proof.
  split; [|split].
  - intros Hc vis err. apply prependDatasourceExpression_Throw, Hc.
  - apply prependKibanaContext_Throw.
  - intros Hc v vs f err. apply buildExpression_Throw, Hc.
Qed.

(** *** The result depends on the contributions only *)

Lemma layer_callback_contribution (datasourceId : string)
    (a b : Datasource.t State) (st : State) (acc : Collected)
    (layerId : string) :
  contribution (Datasource.toExpression a st layerId)
  = contribution (Datasource.toExpression b st layerId) ->
  layer_callback datasourceId a st acc layerId
  = layer_callback datasourceId b st acc layerId.
Proof using Type.
  unfold layer_callback, contribution.
  destruct (Datasource.toExpression a st layerId) as [x|];
    destruct (Datasource.toExpression b st layerId) as [y|];
    try destruct (truthy x); try destruct (truthy y);
    intros H; inversion H; subst; reflexivity.
Qed.

Lemma fold_layer_callback_contribution (datasourceId : string)
    (a b : Datasource.t State) (st : State) (layers : list string) :
  (forall layerId,
     contribution (Datasource.toExpression a st layerId)
     = contribution (Datasource.toExpression b st layerId)) ->
  forall acc,
    fold_left (layer_callback datasourceId a st) layers acc
    = fold_left (layer_callback datasourceId b st) layers acc.
Proof using Type.
  intros H. induction layers as [|layerId layers IH]; intros acc; simpl;
    [reflexivity|].
  rewrite (layer_callback_contribution _ a b); auto.
Qed.

Lemma forEach_datasources_contribution
    (datasourceStates : gmap string (DatasourceState State))
    (m1 m2 : list (string * Datasource.t State)) :
  Forall2 (fun e1 e2 => fst e1 = fst e2
                        /\ same_contributions (snd e1) (snd e2)) m1 m2 ->
  forall acc,
    forEach m1 (datasource_callback datasourceStates) acc
    = forEach m2 (datasource_callback datasourceStates) acc.
Proof using Type.
  induction 1 as [|[i1 d1] [i2 d2] m1 m2 [Hi [Hl He]] _ IH]; intros acc;
    [reflexivity|].
  simpl in *. subst i2.
  destruct (datasourceStates !! i1) as [e|]; simpl; [|reflexivity].
  rewrite Hl, (fold_layer_callback_contribution _ d1 d2); auto.
Qed.

Lemma map_result_ext {A B : Type} (f g : A -> result B) (l : list A) :
  Forall (fun x => f x = g x) l -> map_result f l = map_result g l.
Proof using Type.
  induction 1 as [|x l Hx _ IH]; simpl; [reflexivity|].
  rewrite Hx, IH. reflexivity.
Qed.

Lemma without_empty_text_contributions (datasource : Datasource.t State) :
  same_contributions (without_empty_text datasource) datasource.
Proof using Type.
  split; [reflexivity|].
  intros st layerId. unfold without_empty_text. simpl.
  destruct (Datasource.toExpression datasource st layerId) as [[a|[|c s]]|];
    reflexivity.
Qed.

Lemma spec_layer_pair_truthy (datasource : Datasource.t State) (st : State)
    (layerId id : string) (r : AstOrString) :
  spec_layer_pair datasource st layerId = Some (id, r) ->
  id = layerId
  /\ Datasource.toExpression datasource st layerId = Some r
  /\ truthy r = true.
Proof using Type.
  unfold spec_layer_pair.
  destruct (Datasource.toExpression datasource st layerId) as [x|];
    [|discriminate].
  destruct (truthy x) eqn:Hx; [|discriminate].
  intros H. inversion H; subst. auto.
Qed.

Lemma in_spec_pairs
    (datasourceMap : list (string * Datasource.t State))
    (datasourceStates : gmap string (DatasourceState State))
    (layerId : string) (r : AstOrString) :
  In (layerId, r) (spec_pairs datasourceMap datasourceStates) ->
  exists datasourceId datasource e,
    In (datasourceId, datasource) datasourceMap
    /\ datasourceStates !! datasourceId = Some e
    /\ In layerId (Datasource.getLayers datasource (state e))
    /\ Datasource.toExpression datasource (state e) layerId = Some r
    /\ truthy r = true.
Proof using Type.
  induction datasourceMap as [|[i d] rest IH]; simpl; [intros []|].
  intros H. apply in_app_or in H. destruct H as [H|H].
  - destruct (datasourceStates !! i) as [e|] eqn:He; [|destruct H].
    unfold spec_layer_pairs in H.
    apply list_elem_of_In, list_elem_of_omap in H.
    destruct H as (l & Hl & Hp).
    apply spec_layer_pair_truthy in Hp. destruct Hp as (-> & Hr & Ht).
    apply list_elem_of_In in Hl.
    exists i, d, e. repeat split; auto.
  - destruct (IH H) as (i' & d' & e & Hin & rest').
    exists i', d', e. auto.
Qed.

Lemma in_spec_calls
    (datasourceMap : list (string * Datasource.t State))
    (datasourceStates : gmap string (DatasourceState State))
    (datasourceId : string) (datasource : Datasource.t State)
    (e : DatasourceState State) (layerId : string) :
  In (datasourceId, datasource) datasourceMap ->
  datasourceStates !! datasourceId = Some e ->
  In layerId (Datasource.getLayers datasource (state e)) ->
  In (ToExpression datasourceId layerId)
    (spec_calls datasourceMap datasourceStates).
Proof using Type.
  intros Hin He Hl.
  induction datasourceMap as [|[i d] rest IH]; simpl in *; [destruct Hin|].
  apply in_or_app. destruct Hin as [Heq|Hin].
  - inversion Heq; subst. rewrite He. left. right. apply in_map, Hl.
  - right. auto.
Qed.

Lemma fold_layer_callback_skip (datasourceId : string)
    (datasource : Datasource.t State) (st : State)
    (before after : list string) (layerId : string) (acc : Collected) :
  Datasource.toExpression datasource st layerId = None ->
  datasourceExpressions
    (fold_left (layer_callback datasourceId datasource st)
       (before ++ layerId :: after) acc)
  = datasourceExpressions
      (fold_left (layer_callback datasourceId datasource st)
         (before ++ after) acc).
Proof using Type.
  intros H. rewrite !fold_layer_callback. simpl.
  rewrite !omap_app. simpl. unfold spec_layer_pair at 2. rewrite H.
  reflexivity.
Qed.

(** C7, amended: when every data source of the map has an entry in the
    state map, [prependDatasourceExpression] computes its result from what
    its loops collect, and the loops end without an error whatever the data
    sources report; they ask each data source for its layers and then for
    the expression of every layer it reports, in order; every collected
    entry is an expression some data source reported for that layer, so a
    layer without an expression adds no entry; leaving such a layer out of
    the reported layers changes none of the entries collected for the
    others; and the sequences of the merge node are exactly the collected
    entries. *)
Theorem collect_requests_every_layer
    (datasourceMap : list (string * Datasource.t State))
    (datasourceStates : gmap string (DatasourceState State)) :
  states_cover datasourceMap datasourceStates ->
  exists c : Collected,
    collectDatasourceExpressions datasourceMap datasourceStates = Ok c
    /\ calls c = spec_calls datasourceMap datasourceStates
    /\ (forall datasourceId datasource e layerId,
          In (datasourceId, datasource) datasourceMap ->
          datasourceStates !! datasourceId = Some e ->
          In layerId (Datasource.getLayers datasource (state e)) ->
          In (ToExpression datasourceId layerId) (calls c))
    /\ datasourceExpressions c = spec_pairs datasourceMap datasourceStates
    /\ (forall layerId r,
          In (layerId, r) (datasourceExpressions c) ->
          exists datasourceId datasource e,
            In (datasourceId, datasource) datasourceMap
            /\ datasourceStates !! datasourceId = Some e
            /\ In layerId (Datasource.getLayers datasource (state e))
            /\ Datasource.toExpression datasource (state e) layerId = Some r
            /\ truthy r = true)
    /\ (forall (datasourceId : string) (datasource : Datasource.t State)
               (st : State) (before : list string) (layerId : string)
               (after : list string) (acc : Collected),
          Datasource.toExpression datasource st layerId = None ->
          datasourceExpressions
            (fold_left (layer_callback datasourceId datasource st)
               (before ++ layerId :: after) acc)
          = datasourceExpressions
              (fold_left (layer_callback datasourceId datasource st)
                 (before ++ after) acc))
    /\ (forall vis : option AstOrString,
          prependDatasourceExpression fromExpression vis
            datasourceMap datasourceStates
          = match datasourceExpressions c, vis with
            | [], _ => Ok None
            | _, None => Ok None
            | exprs, Some v =>
                let* tables :=
                  map_result
                    (fun p => let* e := match snd p with
                                        | IsString text => fromExpression text
                                        | IsAst a => Ok a
                                        end in
                              Ok (fst p, e))
                    exprs in
                let* pv := match v with
                           | IsString text => fromExpression text
                           | IsAst a => Ok a
                           end in
                Ok (Some (Expression (lens_merge_tables tables :: chain pv)))
            end)
    /\ (forall (vis : option AstOrString) (t : Ast),
          prependDatasourceExpression fromExpression vis
            datasourceMap datasourceStates
          = Ok (Some t) ->
          exists (merge : ExpressionFunctionAST)
                 (rest : list ExpressionFunctionAST) (trees : list Ast),
            t = Expression (merge :: rest)
            /\ argument "layerIds" (arguments merge)
               = Some (map ArgString (map fst (datasourceExpressions c)))
            /\ argument "tables" (arguments merge)
               = Some (map ArgAst trees)
            /\ Forall2 (fun p a => parsed fromExpression (snd p) = Ok a)
                 (datasourceExpressions c) trees).
Proof.
  intros Hc. eexists. split; [apply collect_cover, Hc|]. simpl.
  split; [reflexivity|].
  split; [intros; eapply in_spec_calls; eauto|].
  split; [reflexivity|].
  split; [apply in_spec_pairs|].
  split; [intros; apply fold_layer_callback_skip; assumption|].
  split.
  { intros vis.
    apply (prependDatasourceExpression_collected vis _ _ _
             (collect_cover _ _ Hc)). }
  intros vis t Ht.
  destruct (prependDatasourceExpression_Some _ _ _ _ Ht)
    as (v & pv & trees & _ & _ & _ & Hp & ->).
  assert (Hlen : length (map fst (spec_pairs datasourceMap datasourceStates))
                 = length trees).
  { rewrite length_map. eapply Forall2_length, Hp. }
  destruct (combine_fst_snd _ _ Hlen) as [H1 H2].
  eexists _, _, trees. split; [reflexivity|].
  simpl. rewrite H1, H2. auto.
Qed.

(** C10: a layer whose expression is the empty text is skipped exactly as
    a layer without an expression: reporting nothing in its place changes
    neither the collected entries nor the result; no collected entry is the
    empty text; and the result does not depend on what the parser does with
    the empty text, unless the visualization expression itself is one. *)
Theorem empty_text_layer_is_skipped
    (vis : option AstOrString)
    (datasourceMap : list (string * Datasource.t State))
    (datasourceStates : gmap string (DatasourceState State)) :
  collectDatasourceExpressions
    (map (fun entry => (fst entry, without_empty_text (snd entry)))
       datasourceMap)
    datasourceStates
  = collectDatasourceExpressions datasourceMap datasourceStates
  /\ prependDatasourceExpression fromExpression vis
       (map (fun entry => (fst entry, without_empty_text (snd entry)))
          datasourceMap)
       datasourceStates
     = prependDatasourceExpression fromExpression vis
         datasourceMap datasourceStates
  /\ (forall c layerId,
        collectDatasourceExpressions datasourceMap datasourceStates = Ok c ->
        ~ In (layerId, IsString EmptyString) (datasourceExpressions c))
  /\ (forall otherParser : string -> result Ast,
        (forall text, text <> EmptyString ->
                      otherParser text = fromExpression text) ->
        vis <> Some (IsString EmptyString) ->
        prependDatasourceExpression otherParser vis
          datasourceMap datasourceStates
        = prependDatasourceExpression fromExpression vis
            datasourceMap datasourceStates).
Proof.
  assert (Hsame :
    collectDatasourceExpressions
      (map (fun entry => (fst entry, without_empty_text (snd entry)))
         datasourceMap)
      datasourceStates
    = collectDatasourceExpressions datasourceMap datasourceStates).
  { unfold collectDatasourceExpressions.
    apply forEach_datasources_contribution.
    induction datasourceMap as [|[i d] rest IH]; simpl; constructor; auto.
    simpl. split; [reflexivity | apply without_empty_text_contributions]. }
  split; [exact Hsame|].
  split; [unfold prependDatasourceExpression; rewrite Hsame; reflexivity|].
  split.
  - intros c layerId Hc Hin.
    destruct (collect_Ok _ _ _ Hc) as (_ & He & _). rewrite He in Hin.
    apply in_spec_pairs in Hin.
    destruct Hin as (_ & _ & _ & _ & _ & _ & _ & Ht). discriminate.
  - intros otherParser Hp Hvis.
    assert (Hparsed : forall x, truthy x = true ->
              parsed otherParser x = parsed fromExpression x).
    { intros [a|s] Hx; simpl; [reflexivity|].
      apply Hp. intros ->. discriminate. }
    unfold prependDatasourceExpression.
    destruct (collectDatasourceExpressions datasourceMap datasourceStates)
      as [c|err] eqn:Hc; cbn [bind]; [|reflexivity].
    destruct (collect_Ok _ _ _ Hc) as (_ & He & _). rewrite He.
    destruct (spec_pairs datasourceMap datasourceStates) as [|p ps] eqn:Hps;
      [reflexivity|].
    destruct vis as [v|]; [|reflexivity].
    rewrite (map_result_ext
               (fun p => let* e := parsed otherParser (snd p) in Ok (fst p, e))
               (fun p => let* e := parsed fromExpression (snd p)
                         in Ok (fst p, e))).
    + destruct (map_result _ (p :: ps)) as [tables|]; simpl; [|reflexivity].
      destruct v as [a|s]; simpl; [reflexivity|].
      rewrite Hp; [reflexivity|]. intros ->. contradiction.
    + rewrite <- Hps. apply Forall_forall. intros [l r] Hin.
      apply list_elem_of_In, in_spec_pairs in Hin.
      destruct Hin as (_ & _ & _ & _ & _ & _ & _ & Ht).
      simpl. rewrite (Hparsed _ Ht). reflexivity.
Qed.

(** *** The context nodes and the orchestration *)

Lemma truthy_not_empty_text (x : AstOrString) :
  x <> IsString EmptyString -> truthy x = true.
Proof using Type.
  destruct x as [a|[|c s]]; simpl; [reflexivity | congruence | reflexivity].
Qed.

(** C3, amended: [prependKibanaContext] returns null for an absent
    expression and for the empty text.  For a tree, or a text that is not
    empty and that the parser turns into a tree, it returns the chain
    [kibana], [kibana_context], then every node of the input chain;
    [kibana] has no argument, and [kibana_context] has exactly the arguments
    [timeRange], [query] and [filters], each one serialized text when the
    parameter is supplied and an empty sequence when it is not. *)
Theorem prependKibanaContext_spec (e : option AstOrString) (ctx : Context) :
  (e = None \/ e = Some (IsString EmptyString) ->
   prependKibanaContext fromExpression e ctx = Ok None)
  /\ (forall (x : AstOrString) (pe : Ast),
        e = Some x ->
        x <> IsString EmptyString ->
        parsed fromExpression x = Ok pe ->
        exists second : ExpressionFunctionAST,
          prependKibanaContext fromExpression e ctx
          = Ok (Some (Expression
                        (FunctionAST "kibana" [] :: second :: chain pe)))
          /\ function second = "kibana_context"
          /\ arguments second
             = [ ("timeRange",
                  spec_context_argument (JObj <$> timeRange ctx));
                 ("query", spec_context_argument (JObj <$> query ctx));
                 ("filters",
                  spec_context_argument (JArr <$> filters ctx)) ]).
Proof.
  split.
  - intros [-> | ->]; reflexivity.
  - intros x pe -> Hx Hp. exists (kibana_context ctx).
    rewrite (prependKibanaContext_truthy _ _ (truthy_not_empty_text _ Hx)), Hp.
    split; [reflexivity|]. split; [reflexivity|].
    unfold kibana_context. simpl.
    rewrite !context_argument_object, context_argument_array. reflexivity.
Qed.

(** C4, amended: [buildExpression] returns null without a visualization.
    With one, its result is [prependKibanaContext], with no context
    parameter, of the result of [prependDatasourceExpression] on the
    expression the visualization gives for its state and the frame; so the
    result is null as soon as the merge returns null, as it does, when
    every data source of the map has an entry in the state map, if the
    visualization has no expression or no layer has one. *)
Theorem buildExpression_spec
    (visualization : option (Visualization.t VisState Frame))
    (visualizationState : VisState)
    (datasourceMap : list (string * Datasource.t State))
    (datasourceStates : gmap string (DatasourceState State))
    (framePublicAPI : Frame) :
  (visualization = None ->
   buildExpression fromExpression visualization visualizationState
     datasourceMap datasourceStates framePublicAPI
   = Ok None)
  /\ (forall v : Visualization.t VisState Frame,
        visualization = Some v ->
        buildExpression fromExpression visualization visualizationState
          datasourceMap datasourceStates framePublicAPI
        = let* merged :=
            prependDatasourceExpression fromExpression
              (Visualization.toExpression v visualizationState framePublicAPI)
              datasourceMap datasourceStates in
          prependKibanaContext fromExpression (IsAst <$> merged) no_context)
  /\ (forall v : Visualization.t VisState Frame,
        visualization = Some v ->
        prependDatasourceExpression fromExpression
          (Visualization.toExpression v visualizationState framePublicAPI)
          datasourceMap datasourceStates
        = Ok None ->
        buildExpression fromExpression visualization visualizationState
          datasourceMap datasourceStates framePublicAPI
        = Ok None)
  /\ (forall v : Visualization.t VisState Frame,
        visualization = Some v ->
        states_cover datasourceMap datasourceStates ->
        Visualization.toExpression v visualizationState framePublicAPI = None
        \/ spec_pairs datasourceMap datasourceStates = [] ->
        buildExpression fromExpression visualization visualizationState
          datasourceMap datasourceStates framePublicAPI
        = Ok None).
Proof.
  split; [intros ->; reflexivity|].
  split; [intros v ->; reflexivity|].
  split.
  - intros v -> H. unfold buildExpression. rewrite H. reflexivity.
  - intros v -> Hc H. unfold buildExpression.
    rewrite (prependDatasourceExpression_covered_None _ _ _ Hc H).
    reflexivity.
Qed.

End ComposerProperties.

(** * Reading back what [JSON.stringify] writes *)

Lemma append_cons (c : ascii) (s r : string) :
  String c s ++ r = String c (s ++ r).
Proof. reflexivity. Qed.

Lemma append_assoc (a b c : string) : (a ++ b) ++ c = a ++ (b ++ c).
Proof.
  induction a as [|ch a IH]; [reflexivity|].
  rewrite !append_cons, IH. reflexivity.
Qed.

Lemma parse_string_escape_char (c : ascii) (x : string) :
  parse_string (escape_char c ++ x) = prepend c (parse_string x).
Proof.
  destruct c as [[] [] [] [] [] [] [] []]; reflexivity.
Qed.

Lemma parse_string_escape (s rest : string) :
  parse_string (escape s ++ String dquote rest) = Some (s, rest).
Proof.
  induction s as [|c s IH].
  - reflexivity.
  - change (escape (String c s)) with (escape_char c ++ escape s).
    rewrite append_assoc, parse_string_escape_char, IH. reflexivity.
Qed.

Lemma quote_append (s rest : string) :
  quote s ++ rest = String dquote (escape s ++ String dquote rest).
Proof.
  unfold quote. rewrite append_cons, append_assoc. reflexivity.
Qed.

(** *** Numbers *)

Lemma all_digits_string_of_uint (d : Decimal.uint) :
  all_digits (NilEmpty.string_of_uint d) = true.
Proof. induction d; simpl; auto. Qed.

Lemma take_digits_append (digits rest : string) :
  all_digits digits = true ->
  starts_with_digit rest = false ->
  take_digits (digits ++ rest) = (digits, rest).
Proof.
  intros Hd Hr. induction digits as [|c digits IH].
  - destruct rest as [|c rest]; [reflexivity|].
    simpl in *. rewrite Hr. reflexivity.
  - simpl in Hd. apply andb_prop in Hd. destruct Hd as [Hc Hd].
    rewrite append_cons. simpl. rewrite Hc, (IH Hd). reflexivity.
Qed.

Lemma nzhead_not_zero_led (d u : Decimal.uint) :
  Decimal.nzhead d <> Decimal.D0 u.
Proof. induction d; simpl; congruence. Qed.

Lemma unorm_zero_led (d u : Decimal.uint) :
  Decimal.unorm d = Decimal.D0 u -> u = Decimal.Nil.
Proof.
  unfold Decimal.unorm.
  destruct (Decimal.nzhead d) eqn:H; try congruence.
  apply nzhead_not_zero_led in H. destruct H.
Qed.

Lemma to_uint_normal (p : positive) :
  Decimal.unorm (Pos.to_uint p) = Pos.to_uint p.
Proof.
  rewrite <- (DecimalPos.Unsigned.to_of (Pos.to_uint p)).
  rewrite DecimalPos.Unsigned.of_to. reflexivity.
Qed.

Lemma no_leading_zero (p : positive) :
  has_leading_zero (NilEmpty.string_of_uint (Pos.to_uint p)) = false.
Proof.
  assert (Hn := to_uint_normal p).
  destruct (Pos.to_uint p) as [|u|u|u|u|u|u|u|u|u|u] eqn:Hp;
    try reflexivity;
    try (simpl; destruct (NilEmpty.string_of_uint u); reflexivity).
  apply unorm_zero_led in Hn. subst u. reflexivity.
Qed.

Lemma digits_value_to_uint (p : positive) :
  digits_value (NilEmpty.string_of_uint (Pos.to_uint p)) = Some (Zpos p).
Proof.
  unfold digits_value. rewrite NilEmpty.usu.
  unfold N.of_uint. rewrite DecimalPos.Unsigned.of_to. reflexivity.
Qed.

Lemma string_of_uint_head (p : positive) :
  exists c s,
    NilEmpty.string_of_uint (Pos.to_uint p) = String c s
    /\ is_digit c = true.
Proof.
  assert (Hn := DecimalPos.Unsigned.to_uint_nonnil p).
  destruct (Pos.to_uint p); try congruence; simpl; eauto.
Qed.

Lemma delimited_no_digit (rest : string) :
  delimited rest ->
  starts_with_digit rest = false
  /\ starts_fraction_or_exponent rest = false
  /\ skip_whitespace rest = rest.
Proof.
  destruct rest as [|c rest]; simpl; [auto|].
  unfold is_digit, is_whitespace.
  intros [H | [H | H]]; rewrite H; auto.
Qed.

Lemma parse_unsigned_to_uint (p : positive) (rest : string) :
  delimited rest ->
  parse_unsigned (NilEmpty.string_of_uint (Pos.to_uint p) ++ rest)
  = Some (Zpos p, rest).
Proof.
  intros Hr. destruct (delimited_no_digit _ Hr) as (Hd & Hf & _).
  unfold parse_unsigned.
  rewrite (take_digits_append _ _ (all_digits_string_of_uint _) Hd).
  rewrite no_leading_zero, Hf, digits_value_to_uint.
  destruct (string_of_uint_head p) as (c & s & -> & _). reflexivity.
Qed.

Lemma digit_not_minus (c : ascii) :
  is_digit c = true -> (N_of_ascii c =? 45)%N = false.
Proof.
  unfold is_digit. intros Hc. apply andb_prop in Hc. destruct Hc as [Hc _].
  apply N.leb_le in Hc. apply N.eqb_neq. lia.
Qed.

Lemma parse_number_to_string (n : Z) (rest : string) :
  delimited rest ->
  parse_number (number_to_string n ++ rest) = Some (n, rest).
Proof.
  intros Hr. destruct n as [|p|p]; simpl number_to_string.
  - destruct (delimited_no_digit _ Hr) as (Hd & Hf & _).
    rewrite append_cons. unfold parse_number, parse_unsigned.
    change (N_of_ascii "0" =? 45)%N with false. cbv iota.
    change (String "0" (EmptyString ++ rest)) with ("0" ++ rest).
    rewrite (take_digits_append "0" rest eq_refl Hd).
    simpl. rewrite Hf. reflexivity.
  - assert (H := parse_unsigned_to_uint p rest Hr).
    destruct (string_of_uint_head p) as (c & s & Hs & Hc).
    unfold parse_number. rewrite Hs in *. rewrite append_cons in *.
    rewrite (digit_not_minus _ Hc). exact H.
  - rewrite append_cons. unfold parse_number.
    change (N_of_ascii "-" =? 45)%N with true. cbv iota.
    rewrite (parse_unsigned_to_uint p rest Hr). reflexivity.
Qed.

(** *** The first character of a value *)

Lemma digit_value_start (c : ascii) (s : string) :
  is_digit c = true -> value_start (String c s).
Proof.
  unfold is_digit, value_start, is_whitespace. intros H.
  apply andb_prop in H. destruct H as [H1 H2].
  apply N.leb_le in H1. apply N.leb_le in H2.
  repeat split; try lia.
  repeat (apply orb_false_intro); apply N.eqb_neq; lia.
Qed.

Lemma stringify_value_start (v : Json) (rest : string) :
  value_start (stringify v ++ rest).
Proof.
  destruct v as [|[]|[|p|p]|s|items|fields|]; simpl stringify;
    rewrite ?quote_append, ?append_cons;
    try (simpl; repeat split; (reflexivity || discriminate)).
  destruct (string_of_uint_head p) as (c & s & -> & Hc).
  rewrite append_cons. apply digit_value_start, Hc.
Qed.

Lemma value_start_skip (s : string) :
  value_start s ->
  skip_whitespace s = s
  /\ starts_with 93 s = None /\ starts_with 125 s = None.
Proof.
  destruct s as [|c s]; simpl; [intros []|].
  intros (Hw & H1 & H2). rewrite Hw.
  apply N.eqb_neq in H1. apply N.eqb_neq in H2. rewrite H1, H2. auto.
Qed.

(** *** The equations of the parser *)

Lemma parse_value_null (fuel : nat) (rest : string) :
  parse_value (S fuel) ("null" ++ rest) = Some (JNull, rest).
Proof. reflexivity. Qed.

Lemma parse_value_true (fuel : nat) (rest : string) :
  parse_value (S fuel) ("true" ++ rest) = Some (JBool true, rest).
Proof. reflexivity. Qed.

Lemma parse_value_false (fuel : nat) (rest : string) :
  parse_value (S fuel) ("false" ++ rest) = Some (JBool false, rest).
Proof. reflexivity. Qed.

Lemma parse_value_string (fuel : nat) (x : string) :
  parse_value (S fuel) (String dquote x)
  = match parse_string x with
    | Some (str, rest) => Some (JStr str, rest)
    | None => None
    end.
Proof. reflexivity. Qed.

Lemma parse_value_array (fuel : nat) (x : string) :
  parse_value (S fuel) (String "[" x)
  = match starts_with 93 (skip_whitespace x) with
    | Some rest => Some (JArr [], rest)
    | None =>
        match parse_elements fuel x with
        | Some (items, rest) => Some (JArr items, rest)
        | None => None
        end
    end.
Proof. reflexivity. Qed.

Lemma parse_value_object (fuel : nat) (x : string) :
  parse_value (S fuel) (String "{" x)
  = match starts_with 125 (skip_whitespace x) with
    | Some rest => Some (JObj [], rest)
    | None =>
        match parse_members fuel x with
        | Some (members, rest) =>
            Some (JObj (object_of_members members), rest)
        | None => None
        end
    end.
Proof. reflexivity. Qed.

Lemma parse_value_number (fuel : nat) (c : ascii) (x : string) :
  is_digit c = true \/ N_of_ascii c = 45%N ->
  parse_value (S fuel) (String c x)
  = match parse_number (String c x) with
    | Some (z, rest) => Some (JNum z, rest)
    | None => None
    end.
Proof.
  intros H.
  destruct c as [[] [] [] [] [] [] [] []];
    first [ reflexivity
          | exfalso; destruct H as [H | H]; vm_compute in H; discriminate ].
Qed.

Lemma parse_elements_equation (fuel : nat) (s : string) :
  parse_elements (S fuel) s
  = match parse_value fuel s with
    | Some (v, rest) =>
        match skip_whitespace rest with
        | String c rest' =>
            if (N_of_ascii c =? 44)%N then
              match parse_elements fuel rest' with
              | Some (vs, rest'') => Some (v :: vs, rest'')
              | None => None
              end
            else if (N_of_ascii c =? 93)%N then Some ([v], rest')
            else None
        | EmptyString => None
        end
    | None => None
    end.
Proof. reflexivity. Qed.

Lemma parse_members_equation (fuel : nat) (key x : string) :
  parse_members (S fuel) (quote key ++ String ":" x)
  = match parse_value fuel x with
    | Some (v, rest) =>
        match skip_whitespace rest with
        | String c rest' =>
            if (N_of_ascii c =? 44)%N then
              match parse_members fuel rest' with
              | Some (ms, rest'') => Some ((key, v) :: ms, rest'')
              | None => None
              end
            else if (N_of_ascii c =? 125)%N then Some ([(key, v)], rest')
            else None
        | EmptyString => None
        end
    | None => None
    end.
Proof.
  rewrite quote_append.
  change (parse_members (S fuel) (String dquote ?y))
    with (match parse_string y with
          | Some (k, rest) =>
              match starts_with 58 (skip_whitespace rest) with
              | Some rest' =>
                  match parse_value fuel rest' with
                  | Some (v, rest'') =>
                      match skip_whitespace rest'' with
                      | String c rest3 =>
                          if (N_of_ascii c =? 44)%N then
                            match parse_members fuel rest3 with
                            | Some (ms, rest4) => Some ((k, v) :: ms, rest4)
                            | None => None
                            end
                          else if (N_of_ascii c =? 125)%N then
                            Some ([(k, v)], rest3)
                          else None
                      | EmptyString => None
                      end
                  | None => None
                  end
              | None => None
              end
          | None => None
          end).
  rewrite parse_string_escape. reflexivity.
Qed.

(** *** Arrays and objects *)

Lemma elements_read_back (items : list Json) :
  Forall reads_back items ->
  forall (x : Json) (fuel : nat) (rest : string),
    reads_back x ->
    elements_size (x :: items) <= fuel ->
    parse_elements fuel
      (join_comma (map stringify (x :: items)) ++ String "]" rest)
    = Some (x :: items, rest).
Proof.
  induction 1 as [|y more Hy _ IH]; intros x fuel rest Hx Hfuel;
    (destruct fuel as [|fuel]; [simpl in Hfuel; lia|]);
    rewrite parse_elements_equation.
  - simpl in *. rewrite Hx; [reflexivity | lia | simpl; auto].
  - change (join_comma (map stringify (x :: y :: more)))
      with (stringify x
              ++ String "," (join_comma (map stringify (y :: more)))).
    rewrite append_assoc, append_cons.
    change (elements_size (x :: y :: more))
      with (S (size x + elements_size (y :: more))) in Hfuel.
    rewrite Hx; [|lia | simpl; auto].
    change (skip_whitespace (String "," ?s)) with (String "," s).
    change (N_of_ascii "," =? 44)%N with true. cbv iota.
    rewrite (IH y fuel rest Hy); [reflexivity | lia].
Qed.

Lemma members_read_back (fields : list (string * Json)) :
  Forall (fun kv => reads_back (snd kv)) fields ->
  forall (kv : string * Json) (fuel : nat) (rest : string),
    reads_back (snd kv) ->
    members_size (kv :: fields) <= fuel ->
    parse_members fuel
      (join_comma (map member_text (kv :: fields)) ++ String "}" rest)
    = Some (kv :: fields, rest).
Proof.
  induction 1 as [|kv' more Hy _ IH]; intros [k x] fuel rest Hx Hfuel;
    (destruct fuel as [|fuel]; [simpl in Hfuel; lia|]); simpl in Hx.
  - change (join_comma (map member_text [(k, x)]))
      with (quote k ++ String ":" (stringify x)).
    rewrite append_assoc, append_cons, parse_members_equation.
    simpl in Hfuel. rewrite Hx; [reflexivity | lia | simpl; auto].
  - change (join_comma (map member_text ((k, x) :: kv' :: more)))
      with ((quote k ++ String ":" (stringify x))
              ++ String "," (join_comma (map member_text (kv' :: more)))).
    rewrite !append_assoc, !append_cons.
    rewrite parse_members_equation.
    change (members_size ((k, x) :: kv' :: more))
      with (S (size x + members_size (kv' :: more))) in Hfuel.
    rewrite Hx; [|lia | simpl; auto].
    change (skip_whitespace (String "," ?s)) with (String "," s).
    change (N_of_ascii "," =? 44)%N with true. cbv iota.
    rewrite (IH kv' fuel rest Hy); [reflexivity | lia].
Qed.

Lemma set_field_fresh (key : string) (value : Json)
    (fields : list (string * Json)) :
  has_key key fields = false ->
  set_field key value fields = (fields ++ [(key, value)])%list.
Proof.
  unfold has_key. induction fields as [|[k x] fields IH]; simpl;
    [reflexivity|].
  intros H. apply orb_false_elim in H. destruct H as [Hk H].
  rewrite String.eqb_sym, Hk, (IH H). reflexivity.
Qed.

Lemma has_key_app (key : string) (a b : list (string * Json)) :
  has_key key (a ++ b)%list = has_key key a || has_key key b.
Proof.
  unfold has_key. rewrite map_app, existsb_app. reflexivity.
Qed.

Lemma fold_set_field_distinct (members : list (string * Json)) :
  forall acc : list (string * Json),
    distinct (map fst members) = true ->
    Forall (fun m => has_key (fst m) acc = false) members ->
    fold_left (fun fields m => set_field (fst m) (snd m) fields) members acc
    = (acc ++ members)%list.
Proof.
  induction members as [|[k x] members IH]; intros acc Hd Hacc; simpl.
  - rewrite app_nil_r. reflexivity.
  - simpl in Hd. apply andb_prop in Hd. destruct Hd as [Hk Hd].
    apply negb_true_iff in Hk.
    inversion Hacc as [|? ? Hkacc Hrest]; subst. simpl in Hkacc.
    rewrite (set_field_fresh _ _ _ Hkacc), IH; [|exact Hd|].
    + rewrite <- app_assoc. reflexivity.
    + rewrite Forall_forall in *. intros m Hm.
      rewrite has_key_app, (Hrest m Hm). unfold has_key. simpl.
      rewrite orb_false_r.
      destruct (String.eqb (fst m) k) eqn:E; [exfalso | reflexivity].
      apply String.eqb_eq in E.
      assert (Hex : existsb (String.eqb k) (map fst members) = true);
        [|congruence].
      apply existsb_exists. exists k. split; [|apply String.eqb_refl].
      rewrite <- E. apply in_map, list_elem_of_In, Hm.
Qed.

Lemma object_of_members_distinct (members : list (string * Json)) :
  distinct (map fst members) = true ->
  object_of_members members = members.
Proof.
  intros Hd. unfold object_of_members.
  rewrite fold_set_field_distinct; [reflexivity | exact Hd|].
  apply Forall_forall. reflexivity.
Qed.

(** *** Values *)

Lemma forallb_plain_data (items : list Json) :
  forallb plain_data items = true ->
  Forall (fun v => plain_data v = true -> reads_back v) items ->
  Forall reads_back items.
Proof.
  intros Hp H. induction H as [|x items Hx _ IH]; [constructor|].
  simpl in Hp. apply andb_prop in Hp. destruct Hp as [Hpx Hp].
  constructor; auto.
Qed.

Lemma forallb_plain_members (fields : list (string * Json)) :
  forallb (fun kv => match kv with
                     | (k, x) => negb (index_like k) && plain_data x
                     end) fields = true ->
  Forall (fun kv => plain_data (snd kv) = true -> reads_back (snd kv))
    fields ->
  Forall (fun kv => reads_back (snd kv)) fields.
Proof.
  intros Hp H. induction H as [|[k x] fields Hx _ IH]; [constructor|].
  simpl in Hp. apply andb_prop in Hp. destruct Hp as [Hpx Hp].
  apply andb_prop in Hpx. destruct Hpx as [_ Hpx].
  constructor; auto.
Qed.

Lemma join_members_head (kv : string * Json)
    (fields : list (string * Json)) (rest : string) :
  exists s,
    join_comma (map member_text (kv :: fields)) ++ rest = String dquote s.
Proof.
  destruct kv as [k x], fields as [|kv' fields].
  - change (join_comma (map member_text [(k, x)]))
      with (quote k ++ String ":" (stringify x)).
    rewrite append_assoc, quote_append. eauto.
  - change (join_comma (map member_text ((k, x) :: kv' :: fields)))
      with ((quote k ++ String ":" (stringify x))
              ++ String "," (join_comma (map member_text (kv' :: fields)))).
    rewrite !append_assoc, quote_append. eauto.
Qed.

Lemma stringify_reads_back (v : Json) :
  plain_data v = true -> reads_back v.
Proof.
  induction v as [|b|n|s|items IH|fields IH|] using Json_induction;
    intros Hp fuel rest Hfuel Hrest;
    (destruct fuel as [|fuel]; [simpl in Hfuel; lia|]).
  - apply parse_value_null.
  - destruct b; [apply parse_value_true | apply parse_value_false].
  - simpl stringify.
    assert (Hhead : exists c s,
               number_to_string n = String c s
               /\ (is_digit c = true \/ N_of_ascii c = 45%N)).
    { destruct n as [|p|p]; simpl.
      - exists "0"%char, EmptyString. auto.
      - destruct (string_of_uint_head p) as (c & s & Hs & Hc). eauto.
      - eexists _, _. split; [reflexivity | right; reflexivity]. }
    destruct Hhead as (c & s & Hs & Hc).
    assert (H := parse_number_to_string n rest Hrest).
    rewrite Hs in *. rewrite append_cons in *.
    rewrite (parse_value_number _ _ _ Hc), H. reflexivity.
  - simpl stringify. rewrite quote_append, parse_value_string.
    rewrite parse_string_escape. reflexivity.
  - simpl stringify. rewrite append_cons, append_assoc, parse_value_array.
    change ("]" ++ rest) with (String "]" rest).
    simpl in Hp. apply (forallb_plain_data _ Hp) in IH.
    destruct IH as [|x items Hx Hitems].
    + reflexivity.
    + destruct (value_start_skip
                  (join_comma (map stringify (x :: items)) ++ String "]" rest))
        as (-> & -> & _).
      { destruct items; simpl join_comma;
          rewrite ?append_assoc; apply stringify_value_start. }
      rewrite (elements_read_back items Hitems x fuel rest Hx);
        [reflexivity|].
      change (size (JArr (x :: items)))
        with (S (elements_size (x :: items))) in Hfuel.
      lia.
  - simpl stringify. rewrite append_cons, append_assoc, parse_value_object.
    change ("}" ++ rest) with (String "}" rest).
    simpl in Hp. apply andb_prop in Hp. destruct Hp as [Hd Hp].
    apply (forallb_plain_members _ Hp) in IH.
    destruct IH as [|kv fields Hx Hfields].
    + reflexivity.
    + change (map (fun kv => match kv with
                             | (k, x) => quote k ++ String ":" (stringify x)
                             end) (kv :: fields))
        with (map member_text (kv :: fields)).
      destruct (value_start_skip
                  (join_comma (map member_text (kv :: fields))
                     ++ String "}" rest))
        as (-> & _ & ->).
      { destruct (join_members_head kv fields (String "}" rest))
          as (s & ->).
        simpl. repeat split; (reflexivity || discriminate). }
      rewrite (members_read_back fields Hfields kv fuel rest Hx).
      * rewrite (object_of_members_distinct _ Hd). reflexivity.
      * change (size (JObj (kv :: fields)))
          with (S (members_size (kv :: fields))) in Hfuel.
        lia.
  - discriminate Hp.
Qed.

(** *** The whole text *)

Lemma length_append (a b : string) :
  String.length (a ++ b) = String.length a + String.length b.
Proof.
  induction a as [|c a IH]; [reflexivity|].
  rewrite append_cons. simpl. rewrite IH. reflexivity.
Qed.

Lemma append_empty (a : string) : a ++ EmptyString = a.
Proof.
  induction a as [|c a IH]; [reflexivity|].
  rewrite append_cons, IH. reflexivity.
Qed.

Lemma elements_size_length (items : list Json) :
  Forall (fun v => size v <= String.length (stringify v)) items ->
  elements_size items
  <= S (String.length (join_comma (map stringify items))).
Proof.
  induction 1 as [|x items Hx H IH]; [simpl; lia|].
  destruct items as [|y items].
  - simpl. lia.
  - change (join_comma (map stringify (x :: y :: items)))
      with (stringify x
              ++ String "," (join_comma (map stringify (y :: items)))).
    change (elements_size (x :: y :: items))
      with (S (size x + elements_size (y :: items))).
    rewrite length_append.
    change (String.length (String "," ?s)) with (S (String.length s)).
    lia.
Qed.

Lemma members_size_length (fields : list (string * Json)) :
  Forall (fun kv => size (snd kv) <= String.length (stringify (snd kv)))
    fields ->
  members_size fields
  <= S (String.length (join_comma (map member_text fields))).
Proof.
  induction 1 as [|[k x] fields Hx H IH]; [simpl; lia|].
  assert (Hm : size x < String.length (member_text (k, x))).
  { unfold member_text. rewrite length_append. simpl in *. lia. }
  destruct fields as [|kv fields].
  - simpl members_size.
    change (join_comma (map member_text [(k, x)])) with (member_text (k, x)).
    lia.
  - change (join_comma (map member_text ((k, x) :: kv :: fields)))
      with (member_text (k, x)
              ++ String "," (join_comma (map member_text (kv :: fields)))).
    change (members_size ((k, x) :: kv :: fields))
      with (S (size x + members_size (kv :: fields))).
    rewrite length_append.
    change (String.length (String "," ?s)) with (S (String.length s)).
    lia.
Qed.

Lemma size_length (v : Json) : size v <= String.length (stringify v).
Proof.
  induction v as [|b|n|s|items IH|fields IH|] using Json_induction.
  - simpl. lia.
  - destruct b; simpl; lia.
  - destruct n as [|p|p]; simpl; try lia.
    destruct (string_of_uint_head p) as (c & s & -> & _). simpl. lia.
  - simpl. lia.
  - apply elements_size_length in IH.
    simpl stringify. simpl size. fold (elements_size items).
    simpl String.length. rewrite length_append. simpl. lia.
  - apply members_size_length in IH.
    simpl stringify. simpl size. fold (members_size fields).
    change (map (fun kv => match kv with
                           | (k, x) => quote k ++ String ":" (stringify x)
                           end) fields)
      with (map member_text fields).
    simpl String.length. rewrite length_append. simpl. lia.
  - simpl. lia.
Qed.

Lemma JSON_parse_stringify (v : Json) :
  plain_data v = true -> JSON_parse (stringify v) = Some v.
Proof.
  intros Hp. unfold JSON_parse.
  assert (H := stringify_reads_back v Hp
                 (S (String.length (stringify v))) EmptyString).
  rewrite append_empty in H. rewrite H; [reflexivity| |exact I].
  assert (Hs := size_length v). lia.
Qed.



(** * The helpers over the store *)

Scheme repr_ast_ind' := Induction for Store.repr_ast Sort Prop
  with repr_chain_ind' := Induction for Store.repr_chain Sort Prop
  with repr_function_ind' := Induction for Store.repr_function Sort Prop
  with repr_arguments_ind' := Induction for Store.repr_arguments Sort Prop
  with repr_values_ind' := Induction for Store.repr_values Sort Prop.

Lemma repr_ast_grows (c c' : Store.Val -> option Store.Obj) :
  (forall v o, c v = Some o -> c' v = Some o) ->
  forall v a, Store.repr_ast c v a -> Store.repr_ast c' v a.
Proof.
  intros Hc v a H.
  induction H using repr_ast_ind' with
    (P0 := fun vs fs _ => Store.repr_chain c' vs fs)
    (P1 := fun v f _ => Store.repr_function c' v f)
    (P2 := fun fields args _ => Store.repr_arguments c' fields args)
    (P3 := fun vs values _ => Store.repr_values c' vs values);
    econstructor; eauto.
Qed.

Lemma repr_chain_grows (c c' : Store.Val -> option Store.Obj) :
  (forall v o, c v = Some o -> c' v = Some o) ->
  forall vs fs, Store.repr_chain c vs fs -> Store.repr_chain c' vs fs.
Proof.
  intros Hc vs fs H.
  induction H using repr_chain_ind' with
    (P := fun v a _ => Store.repr_ast c' v a)
    (P1 := fun v f _ => Store.repr_function c' v f)
    (P2 := fun fields args _ => Store.repr_arguments c' fields args)
    (P3 := fun vs values _ => Store.repr_values c' vs values);
    econstructor; eauto.
Qed.

Lemma repr_answer_grows (c c' : Store.Val -> option Store.Obj) :
  (forall v o, c v = Some o -> c' v = Some o) ->
  forall v e, Store.repr_answer c v e -> Store.repr_answer c' v e.
Proof.
  intros Hc v [[a|text]|]; simpl; auto. apply repr_ast_grows, Hc.
Qed.

Lemma represents_grows (c c' : Store.Val -> option Store.Obj) :
  (forall v o, c v = Some o -> c' v = Some o) ->
  forall r x, Store.represents c r x -> Store.represents c' r x.
Proof.
  intros Hc [v|e] [[a|]|e']; simpl; auto. apply repr_ast_grows, Hc.
Qed.

Lemma shared_cell_prefix (objects objects' : list Store.Obj) :
  objects `prefix_of` objects' ->
  forall v o, Store.shared_cell objects v = Some o ->
              Store.shared_cell objects' v = Some o.
Proof.
  intros Hp [] o; simpl; try discriminate.
  intros H. eapply prefix_lookup_Some; eauto.
Qed.

Lemma shared_cell_cell (s : Store.t) (v : Store.Val) (o : Store.Obj) :
  Store.shared_cell (Store.shared s) v = Some o -> Store.cell s v = Some o.
Proof. destruct v; simpl; auto; discriminate. Qed.

Lemma cell_grows (s s' : Store.t) :
  grows s s' ->
  forall v o, Store.cell s v = Some o -> Store.cell s' v = Some o.
Proof.
  intros [Hs Hl] [] o; simpl; try discriminate; intros H;
    eapply prefix_lookup_Some; eauto.
Qed.

Lemma grows_refl (s : Store.t) : grows s s.
Proof. split; reflexivity. Qed.

Lemma grows_trans (s1 s2 s3 : Store.t) :
  grows s1 s2 -> grows s2 s3 -> grows s1 s3.
Proof. intros [A B] [C D]. split; etransitivity; eauto. Qed.

Lemma keeps_refl (l : nat) (s : Store.t) : keeps l s s.
Proof. split; [reflexivity | auto]. Qed.

Lemma keeps_trans (l : nat) (s1 s2 s3 : Store.t) :
  keeps l s1 s2 -> keeps l s2 s3 -> keeps l s1 s3.
Proof.
  intros [A B] [C D]. split; [etransitivity; eauto | eauto].
Qed.

Lemma grows_keeps (l : nat) (s s' : Store.t) : grows s s' -> keeps l s s'.
Proof.
  intros [A B]. split; [exact A|].
  intros p o _ H. eapply prefix_lookup_Some; eauto.
Qed.

Lemma lookup_prefix {A : Type} (l1 : list A) :
  forall l2, (forall i x, l1 !! i = Some x -> l2 !! i = Some x) ->
             l1 `prefix_of` l2.
Proof.
  induction l1 as [|a l1 IH]; intros l2 H.
  - apply prefix_nil.
  - destruct l2 as [|b l2]; [specialize (H 0 a eq_refl); discriminate|].
    assert (b = a) as -> by (specialize (H 0 a eq_refl); simpl in H; congruence).
    apply prefix_cons, IH. intros i x Hi. exact (H (S i) x Hi).
Qed.

Lemma keeps_grows (l : nat) (s s' : Store.t) :
  length (Store.locals s) <= l -> keeps l s s' -> grows s s'.
Proof.
  intros Hl [A B]. split; [exact A|].
  apply lookup_prefix. intros i x Hi. apply B; [|exact Hi].
  apply lookup_lt_Some in Hi. lia.
Qed.

Lemma and_then_Ok {A B : Type} (m : Store.M A) (k : A -> Store.M B)
    (s s' : Store.t) (a : A) :
  m s = (Ok a, s') -> Store.and_then m k s = k a s'.
Proof. intros H. unfold Store.and_then. rewrite H. reflexivity. Qed.

Lemma and_then_Throw {A B : Type} (m : Store.M A) (k : A -> Store.M B)
    (s s' : Store.t) (e : Error) :
  m s = (Throw e, s') -> Store.and_then m k s = (Throw e, s').
Proof. intros H. unfold Store.and_then. rewrite H. reflexivity. Qed.

Lemma pair_repr_keeps (l : nat) (s s' : Store.t) (item : Store.Val)
    (entry : string * AstOrString) :
  keeps l s s' -> pair_repr l s item entry -> pair_repr l s' item entry.
Proof.
  intros [A B] (p & rv & -> & Hp & Hc & Hr).
  exists p, rv. split; [reflexivity|]. split; [exact Hp|].
  split; [apply B; assumption|].
  eapply repr_answer_grows; [|exact Hr]. apply shared_cell_prefix, A.
Qed.

Lemma parsed_pair_repr_grows (s s' : Store.t) (item : Store.Val)
    (entry : string * Ast) :
  grows s s' -> parsed_pair_repr s item entry ->
  parsed_pair_repr s' item entry.
Proof.
  intros G (tv & Hc & Hr). exists tv.
  split; [eapply cell_grows; eauto|].
  eapply repr_ast_grows; [|exact Hr]. apply cell_grows, G.
Qed.

Lemma repr_answer_truthy (objects : list Store.Obj) (v : Store.Val)
    (e : AstOrString) :
  Store.repr_answer (Store.shared_cell objects) v (Some e) ->
  Store.truthy v = truthy e.
Proof.
  destruct e as [a|text]; simpl.
  - intros H. inversion H; subst. destruct v; simpl in *; try discriminate.
    reflexivity.
  - intros ->. reflexivity.
Qed.

Section StoreRefinement.

Local Open Scope list_scope.

Variable layers_of : Store.Val -> Store.Val -> list string.
Variable expression_of :
  Store.Val -> Store.Val -> string -> option AstOrString.
Variable visualization_expression_of :
  Store.Val -> Store.Val -> Store.Val -> option AstOrString.
Variable parse : string -> result Ast.

Variable getLayers :
  Store.Val -> Store.Val -> list Store.Obj -> Store.Val * list Store.Obj.
Variable toExpression :
  Store.Val -> Store.Val -> Store.Val -> list Store.Obj
  -> Store.Val * list Store.Obj.
Variable visualization_toExpression :
  Store.Val -> Store.Val -> Store.Val -> list Store.Obj
  -> Store.Val * list Store.Obj.
Variable fromExpression :
  string -> list Store.Obj -> result Store.Val * list Store.Obj.
Variable JSON_stringify : Store.Val -> Store.M Store.Val.

Hypothesis getLayers_pure : pure_getLayers layers_of getLayers.
Hypothesis toExpression_pure : pure_toExpression expression_of toExpression.
Hypothesis visualization_pure :
  pure_visualization visualization_expression_of visualization_toExpression.
Hypothesis parser_pure : pure_parser parse fromExpression.

(** *** The collecting loops *)

Lemma layer_callback_run (l : nat) (datasource st : Store.Val)
    (layerId : string) (s : Store.t) (items : list Store.Val) :
  Store.locals s !! l = Some (Store.OArray items) ->
  exists s' new,
    Store.layer_callback toExpression (Store.VLocal l) datasource st
      (Store.VStr layerId) s
    = (Ok tt, s')
    /\ keeps l s s'
    /\ Store.locals s' !! l = Some (Store.OArray (items ++ new))
    /\ Forall2 (pair_repr l s') new
         (option_list
            (spec_layer_pair (datasource_of layers_of expression_of
                                datasource) st layerId)).
Proof using toExpression_pure.
  intros Hl.
  destruct (toExpression_pure datasource st layerId (Store.shared s))
    as (v & made & Hcall & Hv).
  set (s1 := {| Store.shared := (Store.shared s ++ made)%list;
                Store.locals := Store.locals s |}).
  assert (K1 : keeps l s s1).
  { split; [apply prefix_app_r; reflexivity | auto]. }
  assert (Hc : Store.call (toExpression datasource st (Store.VStr layerId)) s
               = (Ok v, s1)).
  { unfold Store.call. rewrite Hcall. reflexivity. }
  unfold Store.layer_callback. rewrite (and_then_Ok _ _ s s1 v Hc).
  unfold spec_layer_pair.
  change (Datasource.toExpression
            (datasource_of layers_of expression_of datasource) st layerId)
    with (expression_of datasource st layerId).
  destruct (expression_of datasource st layerId) as [e|] eqn:He.
  - rewrite (repr_answer_truthy _ _ _ Hv).
    destruct (truthy e) eqn:Htr.
    + set (p := length (Store.locals s)).
      assert (Hlt : l < p) by (apply lookup_lt_Some in Hl; exact Hl).
      exists {| Store.shared := Store.shared s1;
                Store.locals :=
                  <[l := Store.OArray (items ++ [Store.VLocal p])]>
                    (Store.locals s ++ [Store.OArray [Store.VStr layerId; v]])
                    %list |},
        [Store.VLocal p].
      split.
      { unfold Store.and_then, Store.alloc, Store.push. simpl.
        rewrite lookup_app_l by exact Hlt. rewrite Hl. reflexivity. }
      split.
      { split; [apply prefix_app_r; reflexivity|].
        intros q o Hq Hqo. simpl.
        rewrite list_lookup_insert_ne by congruence.
        apply lookup_app_l_Some, Hqo. }
      split.
      { simpl. apply list_lookup_insert_eq. rewrite length_app. simpl. lia. }
      constructor; [|constructor].
      exists p, v. split; [reflexivity|]. split; [lia|].
      split; [|exact Hv].
      simpl. rewrite list_lookup_insert_ne by lia.
      rewrite lookup_app_r by (unfold p; lia).
      replace (p - length (Store.locals s)) with 0 by (unfold p; lia).
      reflexivity.
    + exists s1, []. rewrite app_nil_r.
      split; [reflexivity|]. split; [exact K1|].
      split; [exact Hl | constructor].
  - simpl in Hv. subst v. exists s1, []. rewrite app_nil_r.
    split; [reflexivity|]. split; [exact K1|].
    split; [exact Hl | constructor].
Qed.

Lemma omap_cons_option_list {A B : Type} (f : A -> option B) (x : A)
    (l : list A) :
  omap f (x :: l) = (option_list (f x) ++ omap f l)%list.
Proof. simpl. destruct (f x); reflexivity. Qed.

Lemma layers_loop (l la : nat) (datasource st : Store.Val)
    (all : list string) (rest : list string) :
  forall (i : nat) (s : Store.t) (items : list Store.Val),
    Store.shared s !! la = Some (Store.OArray (map Store.VStr all)) ->
    drop i all = rest ->
    Store.locals s !! l = Some (Store.OArray items) ->
    exists s' new,
      Store.forEach_from (Store.VRef la) i (length rest)
        (Store.layer_callback toExpression (Store.VLocal l) datasource st) s
      = (Ok tt, s')
      /\ keeps l s s'
      /\ Store.locals s' !! l = Some (Store.OArray (items ++ new))
      /\ Forall2 (pair_repr l s') new
           (omap (spec_layer_pair (datasource_of layers_of expression_of
                                     datasource) st) rest).
Proof using toExpression_pure.
  induction rest as [|layerId rest IH]; intros i s items Hla Hdrop Hl.
  - exists s, []. simpl. rewrite app_nil_r.
    split; [reflexivity|]. split; [apply keeps_refl|].
    split; [exact Hl | constructor].
  - assert (Hi : all !! i = Some layerId).
    { assert (H0 : drop i all !! 0 = Some layerId)
        by (rewrite Hdrop; reflexivity).
      rewrite lookup_drop, Nat.add_0_r in H0. exact H0. }
    assert (Hrest : drop (S i) all = rest).
    { rewrite (drop_S _ _ _ Hi) in Hdrop. congruence. }
    cbn [length Store.forEach_from].
    rewrite (and_then_Ok _ _ s s (Store.VStr layerId)).
    2:{ unfold Store.element. simpl. rewrite Hla, list_lookup_fmap, Hi.
        reflexivity. }
    destruct (layer_callback_run l datasource st layerId s items Hl)
      as (s1 & new1 & Hrun1 & K1 & Hl1 & Hnew1).
    rewrite (and_then_Ok _ _ s s1 tt Hrun1).
    destruct (IH (S i) s1 (items ++ new1)) as
      (s' & new & Hrun & K2 & Hl' & Hnew).
    { eapply prefix_lookup_Some; [exact Hla | apply K1]. }
    { exact Hrest. }
    { exact Hl1. }
    exists s', (new1 ++ new)%list. split; [exact Hrun|].
    split; [eapply keeps_trans; eauto|].
    split; [rewrite app_assoc; exact Hl'|].
    rewrite omap_cons_option_list. apply Forall2_app; [|exact Hnew].
    eapply Forall2_impl; [exact Hnew1|].
    intros x y. apply pair_repr_keeps, K2.
Qed.

Lemma get_state_run {A : Type} (datasourceStates : Store.Val)
    (datasourceId : string) (k : Store.Val -> Store.M A) (s : Store.t) :
  Store.and_then (Store.get datasourceStates datasourceId)
    (fun e => Store.and_then (Store.get e "state") k) s
  = match Store.state_of s datasourceStates datasourceId with
    | Some v => k v s
    | None => (Throw TypeError, s)
    end.
Proof using Type.
  unfold Store.state_of, Store.and_then.
  destruct (Store.get datasourceStates datasourceId s) as [[e|err] s1] eqn:E1.
  - assert (s1 = s) as ->.
    { unfold Store.get in E1.
      destruct datasourceStates; try (inversion E1; reflexivity);
        destruct (Store.cell s _) as [[|fields]|];
        try (inversion E1; reflexivity);
        destruct (Store.own datasourceId fields); inversion E1; reflexivity. }
    destruct (Store.get e "state" s) as [[v|err] s2] eqn:E2.
    + assert (s2 = s) as ->.
      { unfold Store.get in E2.
        destruct e; try (inversion E2; reflexivity);
          destruct (Store.cell s _) as [[|fields]|];
          try (inversion E2; reflexivity);
          destruct (Store.own "state" fields); inversion E2; reflexivity. }
      reflexivity.
    + simpl. unfold Store.get in E2.
      destruct e; try (inversion E2; reflexivity);
        destruct (Store.cell s _) as [[|fields]|];
        try (inversion E2; reflexivity);
        destruct (Store.own "state" fields); inversion E2; reflexivity.
  - simpl. unfold Store.get in E1.
    destruct datasourceStates; try (inversion E1; reflexivity);
      destruct (Store.cell s _) as [[|fields]|];
      try (inversion E1; reflexivity);
      destruct (Store.own datasourceId fields); inversion E1; reflexivity.
Qed.

Lemma cell_keeps_readable (l : nat) (s0 s : Store.t) (v : Store.Val) :
  keeps l s0 s -> length (Store.locals s0) <= l -> Store.readable s0 v ->
  Store.cell s v = Store.cell s0 v.
Proof using Type.
  intros [A B] Hl Hv. destruct v; simpl in *; try reflexivity.
  - symmetry. apply prefix_lookup_lt; assumption.
  - destruct (lookup_lt_is_Some_2 _ _ Hv) as [o Ho].
    rewrite Ho. apply B; [lia | exact Ho].
Qed.

Lemma own_readable (s : Store.t) (name : string)
    (fields : list (string * Store.Val)) (x : Store.Val) :
  Forall (fun kv => Store.readable s (snd kv)) fields ->
  Store.own name fields = Some x -> Store.readable s x.
Proof using Type.
  induction 1 as [|[k v] rest Hv _ IH]; simpl; [discriminate|].
  destruct (String.eqb k name); [|exact IH].
  intros [= <-]. exact Hv.
Qed.

Lemma get_store (v : Store.Val) (name : string) (s : Store.t) :
  snd (Store.get v name s) = s.
Proof using Type.
  unfold Store.get.
  destruct v; try reflexivity;
    destruct (Store.cell s _) as [[|fields]|]; try reflexivity;
    destruct (Store.own name fields); reflexivity.
Qed.

Lemma get_same_cell (v : Store.Val) (name : string) (s s0 : Store.t) :
  Store.cell s v = Store.cell s0 v ->
  fst (Store.get v name s) = fst (Store.get v name s0).
Proof using Type.
  intros H. unfold Store.get.
  destruct v; try reflexivity; rewrite H;
    destruct (Store.cell s0 _) as [[|fields]|]; try reflexivity;
    destruct (Store.own name fields); reflexivity.
Qed.

Lemma get_readable (s : Store.t) (v x : Store.Val) (name : string) :
  (forall fields, Store.cell s v = Some (Store.OObject fields) ->
                  Forall (fun kv => Store.readable s (snd kv)) fields) ->
  fst (Store.get v name s) = Ok x -> Store.readable s x.
Proof using Type.
  intros Hf.
  assert (Hobj : forall fields,
             Store.cell s v = Some (Store.OObject fields) ->
             fst (match Store.own name fields with
                  | Some y => (Ok y, s)
                  | None => (Ok (if inherited_name name
                                 then Store.VInherited name
                                 else Store.VUndefined), s)
                  end) = Ok x ->
             Store.readable s x).
  { intros fields E. destruct (Store.own name fields) as [y|] eqn:Ey; simpl.
    - intros [= <-]. eapply own_readable; [apply Hf; exact E | exact Ey].
    - intros [= <-]. destruct (inherited_name name); exact I. }
  unfold Store.get.
  destruct v; try discriminate;
    destruct (Store.cell s _) as [[items|fields]|] eqn:E;
    try (intros [= <-]; exact I); apply (Hobj fields); reflexivity.
Qed.

Lemma state_of_keeps (l : nat) (s0 s : Store.t)
    (datasourceMap datasourceStates : Store.Val) (id : string) :
  keeps l s0 s -> length (Store.locals s0) <= l ->
  inputs_readable s0 datasourceMap datasourceStates ->
  Store.state_of s datasourceStates id
  = Store.state_of s0 datasourceStates id.
Proof using Type.
  intros K Hl (_ & Hst & Hfields).
  assert (Hc := cell_keeps_readable l s0 s datasourceStates K Hl Hst).
  assert (H1 := get_same_cell datasourceStates id s s0 Hc).
  assert (S1 := get_store datasourceStates id s).
  assert (S0 := get_store datasourceStates id s0).
  assert (R := fun x => get_readable s0 datasourceStates x id Hfields).
  unfold Store.state_of, Store.and_then.
  destruct (Store.get datasourceStates id s) as [r1 s1].
  destruct (Store.get datasourceStates id s0) as [r0 s0'].
  simpl in *. subst s1 s0' r1.
  destruct r0 as [e|err]; [|reflexivity].
  assert (He : Store.readable s0 e) by (apply R; reflexivity).
  rewrite (get_same_cell e "state" s s0); [reflexivity|].
  apply (cell_keeps_readable l); assumption.
Qed.

Lemma states_read_None (s : Store.t) (datasourceStates : Store.Val)
    (ids : list string) (id : string) :
  Store.state_of s datasourceStates id = None ->
  states_read s datasourceStates ids !! id = None.
Proof using Type.
  intros H. induction ids as [|a ids IH]; simpl.
  - apply lookup_empty.
  - destruct (Store.state_of s datasourceStates a) eqn:E; [|exact IH].
    rewrite lookup_insert_ne by congruence. exact IH.
Qed.

Lemma states_read_lookup (s : Store.t) (datasourceStates : Store.Val)
    (ids : list string) (id : string) :
  In id ids ->
  states_read s datasourceStates ids !! id
  = (fun st => {| isLoading := false; state := st |})
      <$> Store.state_of s datasourceStates id.
Proof using Type.
  induction ids as [|a ids IH]; simpl; [intros []|].
  intros Hin. destruct (string_dec a id) as [->|Hne].
  - destruct (Store.state_of s datasourceStates id) eqn:E.
    + rewrite lookup_insert_eq. reflexivity.
    + rewrite states_read_None by exact E. reflexivity.
  - assert (Hin' : In id ids) by (destruct Hin; [contradiction | assumption]).
    destruct (Store.state_of s datasourceStates a) eqn:E.
    + rewrite lookup_insert_ne by exact Hne. apply IH, Hin'.
    + apply IH, Hin'.
Qed.

Lemma datasources_loop (l : nat) (s0 : Store.t)
    (datasourceMap datasourceStates : Store.Val)
    (states : gmap string (DatasourceState Store.Val))
    (es : list (string * Store.Val)) :
  length (Store.locals s0) <= l ->
  inputs_readable s0 datasourceMap datasourceStates ->
  forall (s : Store.t) (acc : Collected) (items : list Store.Val),
    (forall id, In id (map fst es) ->
       states !! id
       = (fun st => {| isLoading := false; state := st |})
           <$> Store.state_of s0 datasourceStates id) ->
    keeps l s0 s ->
    Store.locals s !! l = Some (Store.OArray items) ->
    Forall2 (pair_repr l s) items (datasourceExpressions acc) ->
    exists r s',
      Store.forEach_entries es
        (Store.datasource_callback getLayers toExpression (Store.VLocal l)
           datasourceStates) s
      = (r, s')
      /\ keeps l s s'
      /\ match forEach
                 (map (fun kv =>
                         (fst kv,
                          datasource_of layers_of expression_of (snd kv))) es)
                 (datasource_callback states) acc with
         | Ok acc' =>
             r = Ok tt
             /\ exists items',
                  Store.locals s' !! l = Some (Store.OArray items')
                  /\ Forall2 (pair_repr l s') items'
                       (datasourceExpressions acc')
         | Throw e => r = Throw e
         end.
Proof using getLayers_pure toExpression_pure.
  intros Hl Hin.
  induction es as [|[id dsv] es IH]; intros s acc items Hstates K Hloc Hitems.
  - exists (Ok tt), s. split; [reflexivity|]. split; [apply keeps_refl|].
    simpl. split; [reflexivity|]. exists items. split; assumption.
  - cbn [Store.forEach_entries map forEach fst snd].
    unfold Store.datasource_callback at 1, datasource_callback at 1.
    rewrite (Hstates id) by (left; reflexivity).
    assert (Hs := state_of_keeps l s0 s datasourceMap datasourceStates id
                    K Hl Hin).
    unfold Store.and_then at 1.
    rewrite get_state_run, Hs.
    destruct (Store.state_of s0 datasourceStates id) as [st|] eqn:Est.
    2:{ exists (Throw TypeError), s. split; [reflexivity|].
        split; [apply keeps_refl | reflexivity]. }
    rewrite get_state_run, Hs.
    destruct (getLayers_pure dsv st (Store.shared s))
      as (la & made & Hcall & Hla).
    set (s1 := {| Store.shared := Store.shared s ++ made;
                  Store.locals := Store.locals s |}).
    assert (K1 : keeps l s s1).
    { split; [apply prefix_app_r; reflexivity | auto]. }
    assert (Hc : Store.call (getLayers dsv st) s = (Ok (Store.VRef la), s1)).
    { unfold Store.call. rewrite Hcall. reflexivity. }
    rewrite (and_then_Ok _ _ s s1 _ Hc).
    unfold Store.forEach_array.
    rewrite (and_then_Ok _ _ s1 s1 (length (layers_of dsv st))).
    2:{ unfold Store.length_of. simpl. rewrite Hla, length_map.
        reflexivity. }
    destruct (layers_loop l la dsv st (layers_of dsv st) (layers_of dsv st)
                0 s1 items Hla eq_refl Hloc)
      as (s2 & new & Hrun & K2 & Hloc2 & Hnew).
    rewrite Hrun. cbn [fmap option_fmap option_map state bind].
    set (acc' := fold_left _ _ _).
    destruct (IH s2 acc' (items ++ new)) as (r & s' & Hrun' & K3 & Hres).
    { intros id' Hid'. apply Hstates. right. exact Hid'. }
    { eapply keeps_trans; [exact K|].
      eapply keeps_trans; [exact K1 | exact K2]. }
    { exact Hloc2. }
    { unfold acc'. rewrite fold_layer_callback.
      cbn [datasourceExpressions called].
      apply Forall2_app; [|exact Hnew].
      eapply Forall2_impl; [exact Hitems|].
      intros x y. apply pair_repr_keeps.
      eapply keeps_trans; [exact K1 | exact K2]. }
    exists r, s'. split; [exact Hrun'|].
    split; [|exact Hres].
    eapply keeps_trans; [exact K1|]. eapply keeps_trans; [exact K2 | exact K3].
Qed.

(** *** Parsing the collected expressions *)

Lemma lookup_of_drop {A : Type} (l : list A) (i : nat) (x : A)
    (rest : list A) :
  drop i l = x :: rest -> l !! i = Some x /\ drop (S i) l = rest.
Proof using Type.
  intros H.
  assert (H0 : drop i l !! 0 = Some x) by (rewrite H; reflexivity).
  rewrite lookup_drop, Nat.add_0_r in H0. split; [exact H0|].
  rewrite (drop_S _ _ _ H0) in H. congruence.
Qed.

Lemma parsed_run (s : Store.t) (rv : Store.Val) (e : AstOrString) :
  Store.repr_answer (Store.shared_cell (Store.shared s)) rv (Some e) ->
  exists r s',
    Store.parsed fromExpression rv s = (r, s')
    /\ grows s s'
    /\ match parsed parse e with
       | Ok a => exists v, r = Ok v /\ Store.repr_ast (Store.cell s') v a
       | Throw err => r = Throw err
       end.
Proof using parser_pure.
  destruct e as [a|text]; simpl; intros H.
  - exists (Ok rv), s.
    assert (Hp : Store.parsed fromExpression rv s = (Ok rv, s)).
    { inversion H; subst. destruct rv; simpl in *; try discriminate.
      reflexivity. }
    split; [exact Hp|]. split; [apply grows_refl|].
    exists rv. split; [reflexivity|].
    eapply repr_ast_grows; [|exact H]. apply shared_cell_cell.
  - subst rv. simpl.
    destruct (parser_pure text (Store.shared s)) as (r & made & Hcall & Hr).
    exists r, {| Store.shared := Store.shared s ++ made;
                 Store.locals := Store.locals s |}.
    split; [unfold Store.call_parser; rewrite Hcall; reflexivity|].
    split; [split; [apply prefix_app_r|]; reflexivity|].
    destruct (parse text) as [a|err]; simpl in Hr.
    + destruct r as [v|]; [|contradiction].
      exists v. split; [reflexivity|].
      eapply repr_ast_grows; [|exact Hr].
      intros x o. apply (shared_cell_cell
                           {| Store.shared := Store.shared s ++ made;
                              Store.locals := Store.locals s |}).
    + destruct r as [v|]; [contradiction|]. congruence.
Qed.

Lemma parse_loop (l : nat) (items : list Store.Val)
    (rest : list (string * AstOrString)) :
  forall (i : nat) (s : Store.t),
    Store.locals s !! l = Some (Store.OArray items) ->
    Forall2 (pair_repr l s) (drop i items) rest ->
    exists r s',
      Store.map_from (Store.VLocal l) i (length rest)
        (fun pair =>
           Store.and_then (Store.element pair 0) (fun layerId =>
           Store.and_then (Store.element pair 1) (fun expr =>
           Store.and_then (Store.parsed fromExpression expr) (fun e =>
           Store.alloc (Store.OArray [layerId; e]))))) s
      = (r, s')
      /\ grows s s'
      /\ match map_result
                 (fun p => let* e := parsed parse (snd p) in Ok (fst p, e))
                 rest with
         | Ok ps => exists ys, r = Ok ys
                               /\ Forall2 (parsed_pair_repr s') ys ps
         | Throw err => r = Throw err
         end.
Proof using parser_pure.
  induction rest as [|[layerId e] rest IH]; intros i s Hl Hrepr.
  - exists (Ok []), s. split; [reflexivity|]. split; [apply grows_refl|].
    simpl. exists []. split; [reflexivity | constructor].
  - destruct (drop i items) as [|item ritems'] eqn:Hdrop;
      [inversion Hrepr|].
    apply Forall2_cons_1 in Hrepr. destruct Hrepr as [Hitem Hrest].
    destruct (lookup_of_drop _ _ _ _ Hdrop) as [Hi Hdrop'].
    destruct Hitem as (p & rv & -> & Hp & Hcell & Hrv). simpl in Hcell, Hrv.
    cbn [length Store.map_from map_result fst snd].
    rewrite (and_then_Ok _ _ s s (Store.VLocal p)).
    2:{ unfold Store.element. simpl. rewrite Hl, Hi. reflexivity. }
    destruct (parsed_run s rv e Hrv) as (r1 & s1 & Hrun1 & G1 & Hres1).
    unfold Store.and_then at 1.
    unfold Store.and_then at 1.
    unfold Store.element at 1. simpl Store.cell. rewrite Hcell.
    cbn [lookup list_lookup default from_option id].
    unfold Store.and_then at 1.
    unfold Store.element at 1. simpl Store.cell. rewrite Hcell.
    cbn [lookup list_lookup default from_option id].
    unfold Store.and_then at 1. rewrite Hrun1.
    destruct (parsed parse e) as [a|err]; cbn [bind].
    2:{ subst r1. exists (Throw err), s1.
        split; [reflexivity|]. split; [exact G1 | reflexivity]. }
    destruct Hres1 as (tv & -> & Htv).
    set (y := Store.VLocal (length (Store.locals s1))).
    set (s2 := {| Store.shared := Store.shared s1;
                  Store.locals :=
                    Store.locals s1 ++ [Store.OArray [Store.VStr layerId; tv]] |}).
    assert (G2 : grows s1 s2).
    { split; [reflexivity | apply prefix_app_r; reflexivity]. }
    assert (G : grows s s2) by (eapply grows_trans; eauto).
    destruct (IH (S i) s2) as (r & s' & Hrun & G3 & Hres).
    { eapply prefix_lookup_Some; [exact Hl | apply G]. }
    { rewrite Hdrop'. eapply Forall2_impl; [exact Hrest|].
      intros x z. apply pair_repr_keeps, grows_keeps, G. }
    change (Store.alloc (Store.OArray [Store.VStr layerId; tv]) s1)
      with (@Ok Store.Val y, s2).
    cbv beta iota.
    unfold Store.and_then at 1. rewrite Hrun.
    destruct (map_result _ rest) as [ps|err]; cbn [bind].
    + destruct Hres as (ys & -> & Hys).
      exists (Ok (y :: ys)), s'. split; [reflexivity|].
      split; [eapply grows_trans; eauto|].
      exists (y :: ys). split; [reflexivity|].
      constructor; [|exact Hys].
      apply (parsed_pair_repr_grows s2 s' _ _ G3).
      exists tv. split.
      * unfold y. simpl. rewrite lookup_app_r by lia.
        rewrite Nat.sub_diag. reflexivity.
      * simpl. eapply repr_ast_grows; [|exact Htv]. apply cell_grows, G2.
    + subst r. exists (Throw err), s'. split; [reflexivity|].
      split; [eapply grows_trans; eauto | reflexivity].
Qed.

Lemma firsts_loop (arr : Store.Val) (all : list Store.Val) (s : Store.t)
    (ps : list (string * Ast)) :
  Store.cell s arr = Some (Store.OArray all) ->
  forall (i : nat),
    Forall2 (parsed_pair_repr s) (drop i all) ps ->
    Store.map_from arr i (length ps) (fun pair => Store.element pair 0) s
    = (Ok (map (fun p => Store.VStr (fst p)) ps), s).
Proof using Type.
  intros Harr. induction ps as [|[id a] ps IH]; intros i Hys.
  - reflexivity.
  - destruct (drop i all) as [|y ys'] eqn:Hdrop; [inversion Hys|].
    apply Forall2_cons_1 in Hys. destruct Hys as [Hy Hrest].
    destruct (lookup_of_drop _ _ _ _ Hdrop) as [Hi Hdrop'].
    rewrite <- Hdrop' in Hrest.
    destruct Hy as (tv & Hcell & _). simpl in Hcell.
    cbn [length Store.map_from map fst].
    rewrite (and_then_Ok _ _ s s y).
    2:{ unfold Store.element. rewrite Harr, Hi. reflexivity. }
    rewrite (and_then_Ok _ _ s s (Store.VStr id)).
    2:{ unfold Store.element. rewrite Hcell. reflexivity. }
    rewrite (and_then_Ok _ _ s s _ (IH (S i) Hrest)).
    reflexivity.
Qed.

Lemma seconds_loop (arr : Store.Val) (all : list Store.Val) (s : Store.t)
    (ps : list (string * Ast)) :
  Store.cell s arr = Some (Store.OArray all) ->
  forall (i : nat),
    Forall2 (parsed_pair_repr s) (drop i all) ps ->
    exists tvs,
      Store.map_from arr i (length ps) (fun pair => Store.element pair 1) s
      = (Ok tvs, s)
      /\ Forall2 (fun tv p => Store.repr_ast (Store.cell s) tv (snd p))
           tvs ps.
Proof using Type.
  intros Harr. induction ps as [|[id a] ps IH]; intros i Hys.
  - exists []. split; [reflexivity | constructor].
  - destruct (drop i all) as [|y ys'] eqn:Hdrop; [inversion Hys|].
    apply Forall2_cons_1 in Hys. destruct Hys as [Hy Hrest].
    destruct (lookup_of_drop _ _ _ _ Hdrop) as [Hi Hdrop'].
    rewrite <- Hdrop' in Hrest.
    destruct Hy as (tv & Hcell & Htv). simpl in Hcell, Htv.
    destruct (IH (S i) Hrest) as (tvs & Hrun & Htvs).
    exists (tv :: tvs). split; [|constructor; assumption].
    cbn [length Store.map_from].
    rewrite (and_then_Ok _ _ s s y).
    2:{ unfold Store.element. rewrite Harr, Hi. reflexivity. }
    rewrite (and_then_Ok _ _ s s tv).
    2:{ unfold Store.element. rewrite Hcell. reflexivity. }
    rewrite (and_then_Ok _ _ s s _ Hrun).
    reflexivity.
Qed.

Lemma repr_values_strings (c : Store.Val -> option Store.Obj)
    (ps : list (string * Ast)) :
  Store.repr_values c (map (fun p => Store.VStr (fst p)) ps)
    (map (fun p => ArgString (fst p)) ps).
Proof using Type.
  induction ps; simpl; constructor; assumption.
Qed.

Lemma repr_values_trees (c : Store.Val -> option Store.Obj)
    (tvs : list Store.Val) (ps : list (string * Ast)) :
  Forall2 (fun tv p => Store.repr_ast c tv (snd p)) tvs ps ->
  Store.repr_values c tvs (map (fun p => ArgAst (snd p)) ps).
Proof using Type.
  induction 1; simpl; [constructor|].
  apply Store.repr_values_ast; assumption.
Qed.

(** *** The three helpers *)

Lemma alloc_run (o : Store.Obj) (s : Store.t) :
  exists v s',
    Store.alloc o s = (Ok v, s') /\ grows s s'
    /\ Store.cell s' v = Some o.
Proof using Type.
  exists (Store.VLocal (length (Store.locals s))),
    {| Store.shared := Store.shared s; Store.locals := Store.locals s ++ [o] |}.
  split; [reflexivity|].
  split; [split; [reflexivity | apply prefix_app_r; reflexivity]|].
  simpl. rewrite lookup_app_r by lia. rewrite Nat.sub_diag. reflexivity.
Qed.

Lemma get_own (s : Store.t) (v x : Store.Val) (name : string)
    (fields : list (string * Store.Val)) :
  Store.cell s v = Some (Store.OObject fields) ->
  Store.own name fields = Some x ->
  Store.get v name s = (Ok x, s).
Proof using Type.
  intros Hc Ho. unfold Store.get.
  destruct v; simpl in Hc; try discriminate; simpl; rewrite Hc, Ho;
    reflexivity.
Qed.

Lemma get_absent (s : Store.t) (v : Store.Val) (name : string)
    (fields : list (string * Store.Val)) :
  Store.cell s v = Some (Store.OObject fields) ->
  Store.own name fields = None ->
  inherited_name name = false ->
  Store.get v name s = (Ok Store.VUndefined, s).
Proof using Type.
  intros Hc Ho Hi. unfold Store.get.
  destruct v; simpl in Hc; try discriminate; simpl; rewrite Hc, Ho, Hi;
    reflexivity.
Qed.

Lemma entries_run (v : Store.Val) (s : Store.t) :
  Store.entries v s = (fst (Store.entries v s), s).
Proof using Type.
  unfold Store.entries.
  destruct v; try reflexivity; destruct (Store.cell s _) as [[|]|];
    reflexivity.
Qed.

Lemma entries_same_cell (v : Store.Val) (s s0 : Store.t) :
  Store.cell s v = Store.cell s0 v ->
  fst (Store.entries v s) = fst (Store.entries v s0).
Proof using Type.
  intros H. unfold Store.entries.
  destruct v; try reflexivity; rewrite H;
    destruct (Store.cell s0 _) as [[|]|]; reflexivity.
Qed.

Lemma map_array_run (arr : Store.Val) (callback : Store.Val -> Store.M Store.Val)
    (all : list Store.Val) (s : Store.t) (r : result (list Store.Val))
    (s1 : Store.t) :
  Store.cell s arr = Some (Store.OArray all) ->
  Store.map_from arr 0 (length all) callback s = (r, s1) ->
  match r with
  | Ok ys =>
      exists v s',
        Store.map_array arr callback s = (Ok v, s') /\ grows s1 s'
        /\ Store.cell s' v = Some (Store.OArray ys)
  | Throw e => Store.map_array arr callback s = (Throw e, s1)
  end.
Proof using Type.
  intros Hc Hrun. unfold Store.map_array.
  rewrite (and_then_Ok _ _ s s (length all)).
  2:{ unfold Store.length_of. rewrite Hc. reflexivity. }
  destruct r as [ys|e].
  - destruct (alloc_run (Store.OArray ys) s1) as (v & s' & Ha & G & Hv).
    exists v, s'. rewrite (and_then_Ok _ _ s s1 ys Hrun).
    split; [exact Ha|]. split; assumption.
  - apply and_then_Throw, Hrun.
Qed.

Lemma repr_answer_null (objects : list Store.Obj) (v : Store.Val)
    (e : option AstOrString) :
  Store.repr_answer (Store.shared_cell objects) v e ->
  Store.is_null v = match e with None => true | Some _ => false end.
Proof using Type.
  destruct e as [[a|text]|]; simpl.
  - intros H. inversion H; subst. destruct v; simpl in *; try discriminate;
      reflexivity.
  - intros ->. reflexivity.
  - intros ->. reflexivity.
Qed.

Lemma prependDatasourceExpression_refines (s0 : Store.t)
    (vv : Store.Val) (ve : option AstOrString)
    (datasourceMap datasourceStates : Store.Val) :
  inputs_readable s0 datasourceMap datasourceStates ->
  Store.repr_answer (Store.shared_cell (Store.shared s0)) vv ve ->
  exists r s',
    Store.prependDatasourceExpression getLayers toExpression fromExpression
      vv datasourceMap datasourceStates s0
    = (r, s')
    /\ grows s0 s'
    /\ match fst (Store.entries datasourceMap s0) with
       | Ok es =>
           Store.represents (Store.cell s') r
             (prependDatasourceExpression parse ve
                (map (fun kv =>
                        (fst kv,
                         datasource_of layers_of expression_of (snd kv))) es)
                (states_read s0 datasourceStates (map fst es)))
       | Throw e => r = Throw e
       end.
Proof using getLayers_pure toExpression_pure parser_pure.
  intros Hin Hvv.
  set (l := length (Store.locals s0)).
  set (s1 := {| Store.shared := Store.shared s0;
                Store.locals := Store.locals s0 ++ [Store.OArray []] |}).
  assert (K1 : keeps l s0 s1).
  { split; [reflexivity|]. intros p o _ H. simpl.
    apply lookup_app_l_Some, H. }
  assert (Hl1 : Store.locals s1 !! l = Some (Store.OArray [])).
  { simpl. rewrite lookup_app_r by (unfold l; lia).
    unfold l. rewrite Nat.sub_diag. reflexivity. }
  unfold Store.prependDatasourceExpression.
  rewrite (and_then_Ok (Store.alloc (Store.OArray [])) _ s0 s1
             (Store.VLocal l) eq_refl).
  assert (He : fst (Store.entries datasourceMap s1)
               = fst (Store.entries datasourceMap s0)).
  { apply entries_same_cell, (cell_keeps_readable l); [exact K1 | lia|].
    apply Hin. }
  assert (He1 := entries_run datasourceMap s1). rewrite He in He1.
  destruct (fst (Store.entries datasourceMap s0)) as [es|err].
  2:{ exists (Throw err), s1. split; [apply and_then_Throw, He1|].
      split; [|reflexivity]. apply (keeps_grows l); [lia | exact K1]. }
  rewrite (and_then_Ok _ _ s1 s1 es He1).
  destruct (datasources_loop l s0 datasourceMap datasourceStates
              (states_read s0 datasourceStates (map fst es)) es
              (Nat.le_refl _) Hin s1 nothing_collected [])
    as (r1 & s2 & Hrun1 & K2 & Hres1).
  { intros id Hid. apply states_read_lookup, Hid. }
  { exact K1. }
  { exact Hl1. }
  { constructor. }
  assert (G2 : grows s0 s2).
  { apply (keeps_grows l); [lia|]. eapply keeps_trans; eauto. }
  unfold prependDatasourceExpression, collectDatasourceExpressions.
  destruct (forEach _ (datasource_callback _) nothing_collected)
    as [acc|err]; cbn [bind].
  2:{ subst r1. exists (Throw err), s2.
      split; [apply and_then_Throw, Hrun1|].
      split; [exact G2 | reflexivity]. }
  destruct Hres1 as (-> & items & Hl2 & Hitems).
  rewrite (and_then_Ok _ _ s1 s2 tt Hrun1).
  rewrite (and_then_Ok _ _ s2 s2 (Nat.eqb (length items) 0)).
  2:{ unfold Store.is_empty. simpl. rewrite Hl2. reflexivity. }
  assert (Hlen := Forall2_length _ _ _ Hitems).
  rewrite (repr_answer_null _ _ _ Hvv).
  destruct (datasourceExpressions acc) as [|entry exprs] eqn:Hexprs.
  { destruct items; [|discriminate]. simpl.
    exists (Ok Store.VNull), s2. split; [reflexivity|].
    split; [exact G2 | reflexivity]. }
  destruct items as [|item items']; [discriminate|].
  cbn [length Nat.eqb orb].
  destruct ve as [e|].
  2:{ exists (Ok Store.VNull), s2. split; [reflexivity|].
      split; [exact G2 | reflexivity]. }
  (* the collected expressions are parsed *)
  destruct (parse_loop l (item :: items') (entry :: exprs) 0 s2 Hl2 Hitems)
    as (r3 & s3 & Hrun3 & G3 & Hres3).
  rewrite <- Hlen in Hrun3.
  assert (Hm := map_array_run (Store.VLocal l) _ (item :: items') s2 r3 s3
                  Hl2 Hrun3).
  destruct (map_result _ (entry :: exprs)) as [ps|err]; cbn [bind].
  2:{ subst r3. exists (Throw err), s3.
      split; [apply and_then_Throw, Hm|].
      split; [eapply grows_trans; eauto | reflexivity]. }
  destruct Hres3 as (ys & -> & Hys).
  destruct Hm as (arr & s4 & Hrun4 & G4 & Harr).
  rewrite (and_then_Ok _ _ s2 s4 arr Hrun4).
  assert (Hys4 : Forall2 (parsed_pair_repr s4) ys ps).
  { eapply Forall2_impl; [exact Hys|].
    intros x y. apply parsed_pair_repr_grows, G4. }
  assert (Hlen' := Forall2_length _ _ _ Hys4).
  (* the identifiers *)
  assert (Hf := firsts_loop arr ys s4 ps Harr 0 Hys4).
  rewrite <- Hlen' in Hf.
  assert (Hm5 := map_array_run arr _ ys s4 _ s4 Harr Hf).
  destruct Hm5 as (layerIds & s5 & Hrun5 & G5 & Hids).
  rewrite (and_then_Ok _ _ s4 s5 layerIds Hrun5).
  (* the tables *)
  assert (Hys5 : Forall2 (parsed_pair_repr s5) ys ps).
  { eapply Forall2_impl; [exact Hys4|].
    intros x y. apply parsed_pair_repr_grows, G5. }
  destruct (seconds_loop arr ys s5 ps (cell_grows _ _ G5 _ _ Harr) 0 Hys5)
    as (tvs & Hs & Htvs).
  rewrite <- Hlen' in Hs.
  assert (Hm6 := map_array_run arr _ ys s5 _ s5
                   (cell_grows _ _ G5 _ _ Harr) Hs).
  destruct Hm6 as (tables & s6 & Hrun6 & G6 & Htables).
  rewrite (and_then_Ok _ _ s5 s6 tables Hrun6).
  (* the merge node *)
  destruct (alloc_run
              (Store.OObject [("layerIds", layerIds); ("tables", tables)]) s6)
    as (args & s7 & Hrun7 & G7 & Hargs).
  rewrite (and_then_Ok _ _ s6 s7 args Hrun7).
  destruct (alloc_run
              (Store.OObject [ ("type", Store.VStr "function");
                               ("function", Store.VStr "lens_merge_tables");
                               ("arguments", args) ]) s7)
    as (node & s8 & Hrun8 & G8 & Hnode).
  rewrite (and_then_Ok _ _ s7 s8 node Hrun8).
  (* the expression of the visualization *)
  assert (G08 : grows s0 s8).
  { eapply grows_trans; [exact G2|]. eapply grows_trans; [exact G3|].
    eapply grows_trans; [exact G4|]. eapply grows_trans; [exact G5|].
    eapply grows_trans; [exact G6|]. eapply grows_trans; eauto. }
  assert (Hvv8 : Store.repr_answer (Store.shared_cell (Store.shared s8)) vv
                   (Some e)).
  { eapply repr_answer_grows; [|exact Hvv].
    apply shared_cell_prefix, G08. }
  destruct (parsed_run s8 vv e Hvv8) as (r9 & s9 & Hrun9 & G9 & Hres9).
  destruct (parsed parse e) as [[fs]|err]; cbn [bind].
  2:{ subst r9. exists (Throw err), s9.
      split; [apply and_then_Throw, Hrun9|].
      split; [eapply grows_trans; eauto | reflexivity]. }
  destruct Hres9 as (pv & -> & Hpv).
  rewrite (and_then_Ok _ _ s8 s9 pv Hrun9).
  inversion Hpv as [pv' c citems fs' Hroot Hchain Hfs]; subst.
  rewrite (and_then_Ok _ _ s9 s9 c (get_own s9 pv c "chain" _ Hroot eq_refl)).
  rewrite (and_then_Ok _ _ s9 s9 citems).
  2:{ unfold Store.spread. rewrite Hchain. reflexivity. }
  destruct (alloc_run (Store.OArray (node :: citems)) s9)
    as (ch & s10 & Hrun10 & G10 & Hch).
  rewrite (and_then_Ok _ _ s9 s10 ch Hrun10).
  destruct (alloc_run
              (Store.OObject [ ("type", Store.VStr "expression");
                               ("chain", ch) ]) s10)
    as (root & s11 & Hrun11 & G11 & Hroot11).
  exists (Ok root), s11. split; [exact Hrun11|].
  assert (G911 : grows s9 s11) by (eapply grows_trans; eauto).
  assert (G811 : grows s8 s11) by (eapply grows_trans; eauto).
  assert (G711 : grows s7 s11) by (eapply grows_trans; eauto).
  assert (G611 : grows s6 s11) by (eapply grows_trans; eauto).
  assert (G511 : grows s5 s11) by (eapply grows_trans; eauto).
  split; [eapply grows_trans; eauto|].
  simpl. unfold chain.
  eapply Store.repr_Expression;
    [exact Hroot11 | exact (cell_grows _ _ G11 _ _ Hch) |].
  constructor.
  - unfold lens_merge_tables.
    eapply Store.repr_FunctionAST;
      [eapply cell_grows; [exact G811 | exact Hnode]
      |eapply cell_grows; [exact G711 | exact Hargs] |].
    eapply Store.repr_arguments_cons;
      [eapply cell_grows; [exact G511 | exact Hids]
      |apply repr_values_strings |].
    eapply Store.repr_arguments_cons;
      [eapply cell_grows; [exact G611 | exact Htables]
      | |constructor].
    apply repr_values_trees.
    eapply Forall2_impl; [exact Htvs|].
    intros x y. apply repr_ast_grows, cell_grows, G511.
  - eapply repr_chain_grows; [|exact Hfs]. apply cell_grows, G911.
Qed.

Lemma prependKibanaContext_refines (s : Store.t) (merged : Store.Val)
    (tree : option Ast) (context : Store.Val) :
  Store.represents (Store.cell s) (Ok merged) (Ok tree) ->
  Store.cell s context = Some (Store.OObject []) ->
  exists r s',
    Store.prependKibanaContext fromExpression JSON_stringify merged context s
    = (r, s')
    /\ grows s s'
    /\ Store.represents (Store.cell s') r
         (prependKibanaContext parse (IsAst <$> tree) no_context).
Proof using Type.
  intros Hm Hctx. unfold Store.prependKibanaContext.
  rewrite (and_then_Ok _ _ s s _
             (get_absent s context "timeRange" [] Hctx eq_refl eq_refl)).
  rewrite (and_then_Ok _ _ s s _
             (get_absent s context "query" [] Hctx eq_refl eq_refl)).
  rewrite (and_then_Ok _ _ s s _
             (get_absent s context "filters" [] Hctx eq_refl eq_refl)).
  destruct tree as [[fs]|]; simpl in Hm.
  2:{ subst merged. exists (Ok Store.VNull), s.
      split; [reflexivity|]. split; [apply grows_refl | reflexivity]. }
  inversion Hm as [v c citems fs' Hroot Hchain Hfs]; subst.
  assert (Ht : Store.truthy merged = true).
  { destruct merged; simpl in Hroot; try discriminate; reflexivity. }
  assert (Hp : Store.parsed fromExpression merged s = (Ok merged, s)).
  { destruct merged; simpl in Hroot; try discriminate; reflexivity. }
  rewrite Ht. cbn [negb].
  rewrite (and_then_Ok _ _ s s merged Hp).
  destruct (alloc_run (Store.OObject []) s) as (none & s1 & R1 & G1 & C1).
  rewrite (and_then_Ok _ _ s s1 none R1).
  destruct (alloc_run
              (Store.OObject [ ("type", Store.VStr "function");
                               ("function", Store.VStr "kibana");
                               ("arguments", none) ]) s1)
    as (k1 & s2 & R2 & G2 & C2).
  rewrite (and_then_Ok _ _ s1 s2 k1 R2).
  unfold Store.context_argument. cbn [Store.truthy].
  destruct (alloc_run (Store.OArray []) s2) as (a1 & s3 & R3 & G3 & C3).
  rewrite (and_then_Ok _ _ s2 s3 a1 R3).
  destruct (alloc_run (Store.OArray []) s3) as (a2 & s4 & R4 & G4 & C4).
  rewrite (and_then_Ok _ _ s3 s4 a2 R4).
  destruct (alloc_run (Store.OArray []) s4) as (a3 & s5 & R5 & G5 & C5).
  rewrite (and_then_Ok _ _ s4 s5 a3 R5).
  destruct (alloc_run
              (Store.OObject [ ("timeRange", a1); ("query", a2);
                               ("filters", a3) ]) s5)
    as (args & s6 & R6 & G6 & C6).
  rewrite (and_then_Ok _ _ s5 s6 args R6).
  destruct (alloc_run
              (Store.OObject [ ("type", Store.VStr "function");
                               ("function", Store.VStr "kibana_context");
                               ("arguments", args) ]) s6)
    as (k2 & s7 & R7 & G7 & C7).
  rewrite (and_then_Ok _ _ s6 s7 k2 R7).
  assert (G07 : grows s s7).
  { eapply grows_trans; [exact G1|]. eapply grows_trans; [exact G2|].
    eapply grows_trans; [exact G3|]. eapply grows_trans; [exact G4|].
    eapply grows_trans; [exact G5|]. eapply grows_trans; eauto. }
  rewrite (and_then_Ok _ _ s7 s7 c
             (get_own s7 merged c "chain" _
                (cell_grows _ _ G07 _ _ Hroot) eq_refl)).
  rewrite (and_then_Ok _ _ s7 s7 citems).
  2:{ unfold Store.spread. rewrite (cell_grows _ _ G07 _ _ Hchain).
      reflexivity. }
  destruct (alloc_run (Store.OArray (k1 :: k2 :: citems)) s7)
    as (ch & s8 & R8 & G8 & C8).
  rewrite (and_then_Ok _ _ s7 s8 ch R8).
  destruct (alloc_run
              (Store.OObject [ ("type", Store.VStr "expression");
                               ("chain", ch) ]) s8)
    as (root & s9 & R9 & G9 & C9).
  exists (Ok root), s9. split; [exact R9|].
  assert (G79 : grows s7 s9) by (eapply grows_trans; eauto).
  assert (G69 : grows s6 s9) by (eapply grows_trans; eauto).
  assert (G59 : grows s5 s9) by (eapply grows_trans; eauto).
  assert (G49 : grows s4 s9) by (eapply grows_trans; eauto).
  assert (G39 : grows s3 s9) by (eapply grows_trans; eauto).
  assert (G29 : grows s2 s9) by (eapply grows_trans; eauto).
  assert (G19 : grows s1 s9) by (eapply grows_trans; eauto).
  split; [eapply grows_trans; eauto|].
  simpl.
  eapply Store.repr_Expression;
    [exact C9 | exact (cell_grows _ _ G9 _ _ C8) |].
  constructor; [|constructor].
  - eapply Store.repr_FunctionAST;
      [exact (cell_grows _ _ G29 _ _ C2)
      |exact (cell_grows _ _ G19 _ _ C1) | constructor].
  - eapply Store.repr_FunctionAST;
      [exact (cell_grows _ _ G79 _ _ C7)
      |exact (cell_grows _ _ G69 _ _ C6) |].
    eapply Store.repr_arguments_cons;
      [exact (cell_grows _ _ G39 _ _ C3) | constructor |].
    eapply Store.repr_arguments_cons;
      [exact (cell_grows _ _ G49 _ _ C4) | constructor |].
    eapply Store.repr_arguments_cons;
      [exact (cell_grows _ _ G59 _ _ C5) | constructor | constructor].
  - eapply repr_chain_grows; [|exact Hfs]. apply cell_grows.
    eapply grows_trans; eauto.
Qed.

Lemma readable_grows (s s' : Store.t) (v : Store.Val) :
  grows s s' -> Store.readable s v -> Store.readable s' v.
Proof using Type.
  intros [A B]. apply prefix_length in A, B.
  destruct v; simpl; auto; lia.
Qed.

Lemma inputs_readable_grows (s s' : Store.t)
    (datasourceMap datasourceStates : Store.Val) :
  grows s s' -> inputs_readable s datasourceMap datasourceStates ->
  inputs_readable s' datasourceMap datasourceStates.
Proof using Type.
  intros G (Hm & Hs & Hf).
  split; [eapply readable_grows; eauto|].
  split; [eapply readable_grows; eauto|].
  intros fields Hc.
  rewrite (cell_keeps_readable (length (Store.locals s)) s s'
             datasourceStates (grows_keeps _ _ _ G) (Nat.le_refl _) Hs) in Hc.
  eapply Forall_impl; [apply Hf, Hc|].
  intros kv. apply readable_grows, G.
Qed.

Lemma states_read_ext (s s' : Store.t) (datasourceStates datasourceStates' : Store.Val)
    (ids : list string) :
  (forall id, Store.state_of s datasourceStates id
              = Store.state_of s' datasourceStates' id) ->
  states_read s datasourceStates ids = states_read s' datasourceStates' ids.
Proof using Type.
  intros H. induction ids as [|a ids IH]; simpl; [reflexivity|].
  rewrite H, IH. reflexivity.
Qed.

Lemma buildExpression_refines (s : Store.t)
    (visualization visualizationState datasourceMap datasourceStates
       framePublicAPI : Store.Val) :
  inputs_readable s datasourceMap datasourceStates ->
  exists r s',
    Store.buildExpression getLayers toExpression visualization_toExpression
      fromExpression JSON_stringify visualization visualizationState
      datasourceMap datasourceStates framePublicAPI s
    = (r, s')
    /\ grows s s'
    /\ Store.represents (Store.cell s') r
         (outcome_on_values layers_of expression_of visualization_expression_of parse
            s visualization visualizationState datasourceMap
            datasourceStates framePublicAPI).
Proof using getLayers_pure toExpression_pure visualization_pure parser_pure.
  intros Hin. unfold Store.buildExpression, outcome_on_values, visualization_of.
  destruct (Store.is_null visualization) eqn:Hnull.
  { exists (Ok Store.VNull), s. split; [reflexivity|].
    split; [apply grows_refl|].
    destruct (fst (Store.entries datasourceMap s)); reflexivity. }
  destruct (visualization_pure visualization visualizationState
              framePublicAPI (Store.shared s))
    as (vv & made & Hcall & Hvv).
  set (s1 := {| Store.shared := Store.shared s ++ made;
                Store.locals := Store.locals s |}).
  assert (G1 : grows s s1).
  { split; [apply prefix_app_r|]; reflexivity. }
  assert (Hc : Store.call (visualization_toExpression visualization
                             visualizationState framePublicAPI) s
               = (Ok vv, s1)).
  { unfold Store.call. rewrite Hcall. reflexivity. }
  rewrite (and_then_Ok _ _ s s1 vv Hc).
  assert (Hin1 := inputs_readable_grows s s1 _ _ G1 Hin).
  destruct (prependDatasourceExpression_refines s1 vv _ datasourceMap
              datasourceStates Hin1 Hvv)
    as (r2 & s2 & Hrun2 & G2 & Hres2).
  assert (K1 := grows_keeps (length (Store.locals s)) _ _ G1).
  rewrite (entries_same_cell datasourceMap s1 s) in Hres2.
  2:{ eapply cell_keeps_readable; [exact K1 | lia | apply Hin]. }
  destruct (fst (Store.entries datasourceMap s)) as [es|err].
  2:{ subst r2. exists (Throw err), s2.
      split; [apply and_then_Throw, Hrun2|].
      split; [eapply grows_trans; eauto | reflexivity]. }
  rewrite (states_read_ext s1 s datasourceStates datasourceStates) in Hres2.
  2:{ intros id. eapply state_of_keeps; [exact K1 | lia | exact Hin]. }
  unfold buildExpression. cbn [Visualization.toExpression].
  destruct (prependDatasourceExpression parse _ _ _) as [tree|err];
    cbn [bind].
  2:{ destruct r2 as [v|err']; simpl in Hres2; [contradiction|]. subst err'.
      exists (Throw err), s2.
      split; [apply and_then_Throw, Hrun2|].
      split; [eapply grows_trans; eauto | reflexivity]. }
  destruct r2 as [merged|]; [|destruct tree; contradiction].
  rewrite (and_then_Ok _ _ s1 s2 merged Hrun2).
  destruct (alloc_run (Store.OObject []) s2) as (ctx & s3 & R3 & G3 & C3).
  rewrite (and_then_Ok _ _ s2 s3 ctx R3).
  destruct (prependKibanaContext_refines s3 merged tree ctx)
    as (r & s' & Hrun & G & Hres).
  { eapply represents_grows; [|exact Hres2]. apply cell_grows, G3. }
  { exact C3. }
  exists r, s'. split; [exact Hrun|]. split; [|exact Hres].
  eapply grows_trans; [exact G1|]. eapply grows_trans; [exact G2|].
  eapply grows_trans; eauto.
Qed.

End StoreRefinement.

Lemma repr_ast_functional (s : Store.t) :
  forall v a, Store.repr_ast (Store.cell s) v a ->
  forall a', Store.repr_ast (Store.cell s) v a' -> a = a'.
Proof.
  intros v a H.
  induction H using repr_ast_ind' with
    (P0 := fun vs fs _ =>
             forall fs', Store.repr_chain (Store.cell s) vs fs' -> fs = fs')
    (P1 := fun v f _ =>
             forall f', Store.repr_function (Store.cell s) v f' -> f = f')
    (P2 := fun fields args _ =>
             forall args', Store.repr_arguments (Store.cell s) fields args' ->
                           args = args')
    (P3 := fun vs values _ =>
             forall values', Store.repr_values (Store.cell s) vs values' ->
                             values = values').
  - intros a' H'. inversion H'; subst.
    rewrite e in H. injection H as <-.
    rewrite e0 in H0. injection H0 as <-.
    f_equal. apply IHrepr_ast, H1.
  - intros fs' H'. inversion H'. reflexivity.
  - intros fs' H'. inversion H'; subst. f_equal; auto.
  - intros f' H'. inversion H'; subst.
    rewrite e in H. injection H as <- <-.
    rewrite e0 in H0. injection H0 as <-.
    f_equal. apply IHrepr_ast, H1.
  - intros args' H'. inversion H'. reflexivity.
  - intros args' H'. inversion H'; subst.
    rewrite e in H2. injection H2 as <-.
    f_equal; [f_equal|]; auto.
  - intros values' H'. inversion H'. reflexivity.
  - intros values' H'. inversion H'; subst.
    + f_equal. auto.
    + match goal with
      | [ R : Store.repr_ast _ (Store.VStr _) _ |- _ ] =>
          inversion R; discriminate
      end.
  - intros values' H'. inversion H'; subst.
    + inversion H; discriminate.
    + f_equal; [f_equal|]; auto.
Qed.

Lemma represents_functional (s : Store.t) (r : result Store.Val)
    (x x' : result (option Ast)) :
  Store.represents (Store.cell s) r x ->
  Store.represents (Store.cell s) r x' -> x = x'.
Proof.
  destruct r as [v|e], x as [[a|]|e1], x' as [[a'|]|e2]; simpl;
    try contradiction; try congruence.
  - intros H H'. rewrite (repr_ast_functional s v a H a' H'). reflexivity.
  - intros H ->. inversion H; discriminate.
  - intros -> H. inversion H; discriminate.
Qed.

Lemma outcome_on_values_same_inputs
    (layers_of : Store.Val -> Store.Val -> list string)
    (expression_of : Store.Val -> Store.Val -> string -> option AstOrString)
    (visualization_expression_of :
       Store.Val -> Store.Val -> Store.Val -> option AstOrString)
    (parse : string -> result Ast) (s s' : Store.t)
    (visualization visualizationState datasourceMap datasourceStates
       datasourceMap' datasourceStates' framePublicAPI : Store.Val) :
  same_inputs s s' datasourceMap datasourceStates datasourceMap'
    datasourceStates' ->
  outcome_on_values layers_of expression_of visualization_expression_of parse s
    visualization visualizationState datasourceMap datasourceStates
    framePublicAPI
  = outcome_on_values layers_of expression_of visualization_expression_of parse s'
      visualization visualizationState datasourceMap' datasourceStates'
      framePublicAPI.
Proof.
  intros [He Hs]. unfold outcome_on_values. rewrite He.
  destruct (fst (Store.entries datasourceMap' s')) as [es|err];
    [|reflexivity].
  rewrite (states_read_ext s s' datasourceStates datasourceStates' _ Hs).
  reflexivity.
Qed.

Lemma same_inputs_grows (s s' : Store.t)
    (datasourceMap datasourceStates : Store.Val) :
  grows s s' -> inputs_readable s datasourceMap datasourceStates ->
  same_inputs s s' datasourceMap datasourceStates datasourceMap
    datasourceStates.
Proof.
  intros G Hin.
  assert (K := grows_keeps (length (Store.locals s)) _ _ G).
  split.
  - symmetry. apply entries_same_cell.
    eapply cell_keeps_readable; [exact K | lia | apply Hin].
  - intros id. symmetry.
    eapply state_of_keeps; [exact K | lia | exact Hin].
Qed.

Lemma cell_readable (s : Store.t) (v : Store.Val) (o : Store.Obj) :
  Store.cell s v = Some o -> Store.readable s v.
Proof.
  destruct v; simpl; auto; apply lookup_lt_Some.
Qed.

Lemma inputs_in_readable (s : Store.t)
    (datasourceMap datasourceStates : Store.Val) :
  inputs_in s datasourceMap datasourceStates ->
  inputs_readable s datasourceMap datasourceStates.
Proof.
  intros [[es Hm] (fields & Hs & Hf)].
  split; [eapply cell_readable, Hm|].
  split; [eapply cell_readable, Hs|].
  intros fields' H. rewrite Hs in H. injection H as <-. exact Hf.
Qed.

Lemma inputs_in_grows (s s' : Store.t)
    (datasourceMap datasourceStates : Store.Val) :
  grows s s' -> inputs_in s datasourceMap datasourceStates ->
  inputs_in s' datasourceMap datasourceStates.
Proof.
  intros G [[es Hm] (fields & Hs & Hf)].
  split; [exists es; eapply cell_grows; eauto|].
  exists fields. split; [eapply cell_grows; eauto|].
  eapply Forall_impl; [exact Hf|].
  intros kv. apply readable_grows, G.
Qed.



(** * The properties on the sample inputs *)

Lemma sample_states_cover : states_cover sample_map sample_states.
Proof. repeat constructor; vm_compute; eauto. Qed.

Lemma prependDatasourceExpression_merges_sample :
  prependDatasourceExpression sample_fromExpression (Some (IsString "A"))
    sample_map sample_states
  = Ok (Some (Expression
                (FunctionAST "lens_merge_tables"
                   [ ("layerIds",
                      map ArgString
                        (map fst (spec_pairs sample_map sample_states)));
                     ("tables",
                      map ArgAst
                        [chain_B; Expression [FunctionAST "C" []]]) ]
                   :: chain (Expression [FunctionAST "A" []])))).
Proof.
  apply (prependDatasourceExpression_merges nat sample_fromExpression
           (IsString "A") (Expression [FunctionAST "A" []])
           sample_map sample_states
           [chain_B; Expression [FunctionAST "C" []]]).
  - repeat constructor; vm_compute; eauto.
  - vm_compute. discriminate.
  - vm_compute. repeat constructor.
  - reflexivity.
Defined.

(** The visualization expression is present and [ds1] contributes two
    layer expressions, but [ds2] has no entry in the state map: no tree is
    returned, the read of its state throws.  With every entry present, a
    parser that rejects the text of the visualization leaves no tree
    either. *)
Lemma prependDatasourceExpression_no_merge :
  spec_pairs sample_map ds1_only_states
  = [("L1", IsAst chain_B); ("L4", IsString "C")]
  /\ prependDatasourceExpression sample_fromExpression
       (Some (IsString "A")) sample_map ds1_only_states
     = Throw TypeError
  /\ prependDatasourceExpression strict_fromExpression
       (Some (IsString EmptyString)) sample_map sample_states
     = Throw SyntaxError.
Proof. repeat split; vm_compute; reflexivity. Qed.

Lemma prependDatasourceExpression_all_or_nothing_sample :
  prependDatasourceExpression sample_fromExpression None
    sample_map sample_states
  = Ok None.
Proof.
  apply (proj1 (prependDatasourceExpression_all_or_nothing nat
                  sample_fromExpression None sample_map sample_states)).
  - repeat constructor; vm_compute; eauto.
  - left. reflexivity.
Defined.

(** The visualization expression is absent and the state map has no entry
    for [ds1]: the result is not null, reading the state throws. *)
Lemma prependDatasourceExpression_absent_throws :
  prependDatasourceExpression sample_fromExpression None sample_map no_states
  = Throw TypeError
  /\ prependDatasourceExpression sample_fromExpression None
       sample_map no_states
     <> Ok None.
Proof. split; [vm_compute; reflexivity | vm_compute; discriminate]. Qed.

Lemma prependKibanaContext_spec_sample :
  exists second : ExpressionFunctionAST,
    prependKibanaContext sample_fromExpression (Some (IsString "A"))
      sample_context
    = Ok (Some (Expression
                  [FunctionAST "kibana" []; second; FunctionAST "A" []]))
    /\ function second = "kibana_context"
    /\ arguments second
       = [ ("timeRange",
            spec_context_argument (JObj <$> timeRange sample_context));
           ("query", spec_context_argument (JObj <$> query sample_context));
           ("filters",
            spec_context_argument (JArr <$> filters sample_context)) ].
Proof.
  apply (proj2 (prependKibanaContext_spec sample_fromExpression
                  (Some (IsString "A")) sample_context)
           (IsString "A") (Expression [FunctionAST "A" []])).
  - reflexivity.
  - discriminate.
  - reflexivity.
Defined.

(** The empty text is an expression that is not absent, and the result is
    null, not a tree that starts with the two context nodes. *)
Lemma prependKibanaContext_empty_text_no_tree :
  Some (IsString EmptyString) <> None
  /\ prependKibanaContext sample_fromExpression (Some (IsString EmptyString))
       no_context
     = Ok None.
Proof. split; [discriminate | reflexivity]. Qed.

Lemma buildExpression_spec_sample :
  buildExpression sample_fromExpression (Some sample_visualization) 0
    sample_map sample_states 0
  = let* merged :=
      prependDatasourceExpression sample_fromExpression
        (Visualization.toExpression sample_visualization 0 0)
        sample_map sample_states in
    prependKibanaContext sample_fromExpression (IsAst <$> merged) no_context.
Proof.
  apply (proj1 (proj2 (buildExpression_spec nat nat nat sample_fromExpression
                         (Some sample_visualization) 0
                         sample_map sample_states 0))
           sample_visualization).
  reflexivity.
Defined.

(** The visualization has no expression and the state map has no entry
    for [ds1]: the result is not null, the read of the state throws. *)
Lemma buildExpression_absent_expression_throws :
  Visualization.toExpression silent_visualization 0 0 = None
  /\ buildExpression sample_fromExpression (Some silent_visualization) 0
       sample_map no_states 0
     = Throw TypeError
  /\ buildExpression sample_fromExpression (Some silent_visualization) 0
       sample_map no_states 0
     <> Ok None.
Proof.
  split; [reflexivity|].
  split; [vm_compute; reflexivity | vm_compute; discriminate].
Qed.

Lemma composer_raises_only_parser_errors_sample :
  exists text, strict_fromExpression text = Throw SyntaxError.
Proof.
  apply (proj1 (composer_raises_only_parser_errors nat nat nat
                  strict_fromExpression sample_map sample_states)
           sample_states_cover (Some (IsString EmptyString)) SyntaxError).
  vm_compute. reflexivity.
Defined.

(** The state map has no entry for [ds1]: with a parser that accepts every
    text, [prependDatasourceExpression] throws a [TypeError]. *)
Lemma prependDatasourceExpression_missing_state_throws :
  prependDatasourceExpression sample_fromExpression (Some (IsString "A"))
    sample_map no_states
  = Throw TypeError.
Proof. vm_compute. reflexivity. Qed.

(** [ds0] comes first and has no entry in the state map; [ds1] has one
    and reports the layer [L1]: the run ends with an error at [ds0], and
    there is no collection in which [ds1] was asked for [L1]. *)
Lemma second_datasource_not_asked :
  In ("ds1", sample_datasource) uncovered_map
  /\ is_Some (sample_states !! "ds1")
  /\ In "L1" (Datasource.getLayers sample_datasource 0)
  /\ prependDatasourceExpression sample_fromExpression
       (Some (IsString "A")) uncovered_map sample_states
     = Throw TypeError
  /\ ~ (exists c : Collected,
          collectDatasourceExpressions uncovered_map sample_states = Ok c
          /\ In (ToExpression "ds1" "L1") (calls c)).
Proof.
  split; [right; left; reflexivity|].
  split; [vm_compute; eauto|].
  split; [left; reflexivity|].
  split; [vm_compute; reflexivity|].
  intros (c & Hc & _). vm_compute in Hc. discriminate.
Qed.

Lemma collect_requests_every_layer_sample :
  exists c : Collected,
    collectDatasourceExpressions sample_map sample_states = Ok c
    /\ calls c = spec_calls sample_map sample_states
    /\ datasourceExpressions c = spec_pairs sample_map sample_states.
Proof.
  destruct (collect_requests_every_layer nat sample_fromExpression
              sample_map sample_states)
    as (c & H1 & H2 & _ & H3 & _).
  - repeat constructor; vm_compute; eauto.
  - exists c. auto.
Defined.

Lemma lookup_app_plus {A : Type} (l1 l2 : list A) (k : nat) :
  (l1 ++ l2)%list !! (length l1 + k) = l2 !! k.
Proof.
  rewrite lookup_app_r by lia. f_equal. lia.
Qed.

Lemma lookup_app_length {A : Type} (l1 l2 : list A) :
  (l1 ++ l2)%list !! length l1 = l2 !! 0.
Proof.
  rewrite lookup_app_r by lia. f_equal. lia.
Qed.

Lemma store_getLayers_pure : pure_getLayers store_layers_of store_getLayers.
Proof.
  intros datasource st objects.
  exists (length objects), [Store.OArray [Store.VStr "L1"]].
  split; [reflexivity|]. rewrite lookup_app_length; reflexivity.
Qed.

Lemma store_toExpression_pure :
  pure_toExpression store_expression_of store_toExpression.
Proof.
  intros datasource st layerId objects. exists (Store.VStr "A"), [].
  split; reflexivity.
Qed.

Lemma store_visualization_pure :
  pure_visualization store_visualization_expression_of
    store_visualization_toExpression.
Proof.
  intros visualization st frame objects. exists (Store.VStr "V"), [].
  split; reflexivity.
Qed.

Lemma store_parser_pure : pure_parser store_parse store_fromExpression.
Proof.
  intros text objects. eexists _, _. split; [reflexivity|].
  simpl.
  eapply Store.repr_Expression.
  - simpl. rewrite lookup_app_length; reflexivity.
  - simpl. rewrite lookup_app_plus; reflexivity.
  - constructor; [|constructor].
    eapply Store.repr_FunctionAST.
    + simpl. rewrite lookup_app_plus; reflexivity.
    + simpl. rewrite lookup_app_plus; reflexivity.
    + constructor.
Qed.

Lemma sample_store_inputs :
  inputs_in sample_store (Store.VRef 0) (Store.VRef 1).
Proof.
  split; [eexists; reflexivity|].
  eexists. split; [reflexivity|]. repeat constructor.
Qed.


Lemma empty_text_layer_is_skipped_sample :
  prependDatasourceExpression strict_fromExpression (Some (IsString "A"))
    sample_map sample_states
  = prependDatasourceExpression sample_fromExpression (Some (IsString "A"))
      sample_map sample_states.
Proof.
  apply (proj2 (proj2 (proj2 (empty_text_layer_is_skipped nat
                                sample_fromExpression
                                (Some (IsString "A"))
                                sample_map sample_states)))
           strict_fromExpression).
  - intros [|ch text] H; [congruence | reflexivity].
  - discriminate.
Defined.



(** * Further properties of the helpers *)

Section ComposerFurther.

Variables State VisState Frame : Type.
Variable fromExpression : string -> result Ast.

Lemma forEach_ext {A S : Type} (f g : S -> A -> result S) (l : list A) :
  (forall acc x, In x l -> f acc x = g acc x) ->
  forall acc, forEach l f acc = forEach l g acc.
Proof using Type.
  induction l as [|x l IH]; intros H acc; simpl; [reflexivity|].
  rewrite (H acc x (or_introl eq_refl)).
  destruct (g acc x) as [acc'|err]; simpl; [|reflexivity].
  apply IH. intros a y Hy. apply H. right. exact Hy.
Qed.

Lemma collect_same_states
    (datasourceMap : list (string * Datasource.t State))
    (s1 s2 : gmap string (DatasourceState State)) :
  (forall datasourceId, state <$> s1 !! datasourceId
                        = state <$> s2 !! datasourceId) ->
  collectDatasourceExpressions datasourceMap s1
  = collectDatasourceExpressions datasourceMap s2.
Proof using Type.
  intros H. unfold collectDatasourceExpressions. apply forEach_ext.
  intros acc [datasourceId datasource] _. simpl.
  specialize (H datasourceId).
  destruct (s1 !! datasourceId) as [e1|], (s2 !! datasourceId) as [e2|];
    simpl in H; try discriminate; [|reflexivity].
  inversion H as [Hs]. rewrite Hs. reflexivity.
Qed.

(** X1: [isLoading] is never read.  Two state maps that hold the same
    [state] under every data-source identifier give the same collected
    entries and calls, and the same result of
    [prependDatasourceExpression] and of [buildExpression], errors
    included. *)
Theorem isLoading_is_ignored
    (visualization : option (Visualization.t VisState Frame))
    (visualizationState : VisState) (framePublicAPI : Frame)
    (vis : option AstOrString)
    (datasourceMap : list (string * Datasource.t State))
    (s1 s2 : gmap string (DatasourceState State)) :
  (forall datasourceId, state <$> s1 !! datasourceId
                        = state <$> s2 !! datasourceId) ->
  collectDatasourceExpressions datasourceMap s1
  = collectDatasourceExpressions datasourceMap s2
  /\ prependDatasourceExpression fromExpression vis datasourceMap s1
     = prependDatasourceExpression fromExpression vis datasourceMap s2
  /\ buildExpression fromExpression visualization visualizationState
       datasourceMap s1 framePublicAPI
     = buildExpression fromExpression visualization visualizationState
         datasourceMap s2 framePublicAPI.
Proof.
  intros H. assert (Hc := collect_same_states datasourceMap s1 s2 H).
  split; [exact Hc|].
  assert (Hp : forall v,
             prependDatasourceExpression fromExpression v datasourceMap s1
             = prependDatasourceExpression fromExpression v datasourceMap s2).
  { intros v. unfold prependDatasourceExpression. rewrite Hc. reflexivity. }
  split; [apply Hp|].
  unfold buildExpression. destruct visualization; [|reflexivity].
  rewrite Hp. reflexivity.
Qed.

Lemma spec_layer_pairs_trees (datasource : Datasource.t State) (st : State)
    (layerId : string) (e : AstOrString) :
  reports_trees datasource ->
  In (layerId, e) (spec_layer_pairs datasource st) ->
  exists t, e = IsAst t.
Proof using Type.
  intros Ht Hin. unfold spec_layer_pairs in Hin.
  apply list_elem_of_In, list_elem_of_omap in Hin.
  destruct Hin as (l & _ & Hl). unfold spec_layer_pair in Hl.
  destruct (Datasource.toExpression datasource st l) as [[t|text]|] eqn:He;
    try discriminate.
  - simpl in Hl. inversion Hl; subst. eauto.
  - exfalso. exact (Ht st l text He).
Qed.

Lemma spec_pairs_trees
    (datasourceMap : list (string * Datasource.t State))
    (datasourceStates : gmap string (DatasourceState State)) :
  Forall (fun entry => reports_trees (snd entry)) datasourceMap ->
  Forall (fun p => exists t, snd p = IsAst t)
    (spec_pairs datasourceMap datasourceStates).
Proof using Type.
  induction 1 as [|[datasourceId datasource] rest Ht _ IH]; simpl;
    [constructor|].
  apply Forall_app. split; [|exact IH].
  destruct (datasourceStates !! datasourceId) as [e|]; [|constructor].
  apply Forall_forall. intros [layerId x] Hin. simpl.
  eapply spec_layer_pairs_trees; [exact Ht|].
  apply list_elem_of_In. exact Hin.
Qed.

Lemma map_result_trees (parser : string -> result Ast)
    (pairs : list (string * AstOrString)) :
  Forall (fun p => exists t, snd p = IsAst t) pairs ->
  map_result (fun p => let* e := parsed parser (snd p) in Ok (fst p, e)) pairs
  = Ok (tree_pairs pairs).
Proof using Type.
  induction 1 as [|[layerId e] pairs [t Ht] _ IH]; [reflexivity|].
  simpl in Ht. subst e. simpl. rewrite IH. reflexivity.
Qed.

(** X2: trees are passed through, never parsed.  When every data source
    of the map has its state and reports trees only, and the visualization
    expression is a tree, the result is the merge node over the reported
    trees themselves followed by the visualization's chain (or null when
    nothing was collected), whatever the parser would do on any text. *)
Theorem trees_are_not_parsed
    (a : Ast)
    (datasourceMap : list (string * Datasource.t State))
    (datasourceStates : gmap string (DatasourceState State)) :
  states_cover datasourceMap datasourceStates ->
  Forall (fun entry => reports_trees (snd entry)) datasourceMap ->
  prependDatasourceExpression fromExpression (Some (IsAst a))
    datasourceMap datasourceStates
  = Ok match spec_pairs datasourceMap datasourceStates with
       | [] => None
       | pairs =>
           Some (Expression (lens_merge_tables (tree_pairs pairs) :: chain a))
       end
  /\ map fst (tree_pairs (spec_pairs datasourceMap datasourceStates))
     = map fst (spec_pairs datasourceMap datasourceStates)
  /\ map (fun p => IsAst (snd p))
       (tree_pairs (spec_pairs datasourceMap datasourceStates))
     = map snd (spec_pairs datasourceMap datasourceStates).
Proof.
  intros Hc Ht.
  assert (Hall := spec_pairs_trees _ datasourceStates Ht).
  split.
  - unfold prependDatasourceExpression.
    rewrite (collect_cover _ _ _ Hc). cbn [bind datasourceExpressions].
    destruct (spec_pairs datasourceMap datasourceStates) as [|p ps];
      [reflexivity|].
    rewrite (map_result_trees fromExpression _ Hall). reflexivity.
  - induction Hall as [|[layerId e] pairs [t Hx] _ [IH1 IH2]]; [auto|].
    simpl in Hx. subst e. simpl. rewrite IH1, IH2. auto.
Qed.

Lemma prependKibanaContext_tree (parser : string -> result Ast) (a : Ast)
    (ctx : Context) :
  prependKibanaContext parser (Some (IsAst a)) ctx
  = Ok (Some (Expression (kibana :: kibana_context ctx :: chain a))).
Proof using Type. reflexivity. Qed.

Lemma buildExpression_of_merge
    (vis : Visualization.t VisState Frame) (visualizationState : VisState)
    (datasourceMap : list (string * Datasource.t State))
    (datasourceStates : gmap string (DatasourceState State))
    (framePublicAPI : Frame) :
  buildExpression fromExpression (Some vis) visualizationState
    datasourceMap datasourceStates framePublicAPI
  = match prependDatasourceExpression fromExpression
            (Visualization.toExpression vis visualizationState framePublicAPI)
            datasourceMap datasourceStates with
    | Ok (Some merged) =>
        Ok (Some (Expression
                    (kibana :: empty_kibana_context :: chain merged)))
    | Ok None => Ok None
    | Throw err => Throw err
    end.
Proof.
  unfold buildExpression.
  destruct (prependDatasourceExpression _ _ _ _) as [[merged|]|err];
    reflexivity.
Qed.

(** X3: the context step of [buildExpression] adds no failure and no
    absence: the result is a tree, null or an error exactly as the merge
    step is.  A tree that is returned has the chain [kibana],
    [kibana_context] with three empty arguments, [lens_merge_tables], then
    the chain of the visualization's expression: three nodes more than
    that chain. *)
Theorem buildExpression_shape
    (vis : Visualization.t VisState Frame) (visualizationState : VisState)
    (datasourceMap : list (string * Datasource.t State))
    (datasourceStates : gmap string (DatasourceState State))
    (framePublicAPI : Frame) :
  buildExpression fromExpression (Some vis) visualizationState
    datasourceMap datasourceStates framePublicAPI
  = match prependDatasourceExpression fromExpression
            (Visualization.toExpression vis visualizationState framePublicAPI)
            datasourceMap datasourceStates with
    | Ok (Some merged) =>
        Ok (Some (Expression
                    (kibana :: empty_kibana_context :: chain merged)))
    | Ok None => Ok None
    | Throw err => Throw err
    end
  /\ (forall t : Ast,
        buildExpression fromExpression (Some vis) visualizationState
          datasourceMap datasourceStates framePublicAPI
        = Ok (Some t) ->
        exists (v : AstOrString) (pv : Ast) (merge : ExpressionFunctionAST),
          Visualization.toExpression vis visualizationState framePublicAPI
          = Some v
          /\ parsed fromExpression v = Ok pv
          /\ function merge = "lens_merge_tables"
          /\ t = Expression
                   (FunctionAST "kibana" [] :: empty_kibana_context
                      :: merge :: chain pv)
          /\ length (chain t) = 3 + length (chain pv)).
Proof.
  split; [apply buildExpression_of_merge|].
  intros t Ht. rewrite buildExpression_of_merge in Ht.
  destruct (prependDatasourceExpression _ _ _ _) as [[merged|]|err] eqn:Hm;
    try discriminate.
  inversion Ht; subst t.
  destruct (prependDatasourceExpression_Some _ _ _ _ _ _ Hm)
    as (v & pv & trees & Hv & Hpv & _ & _ & ->).
  exists v, pv, (lens_merge_tables
                   (combine
                      (map fst (spec_pairs datasourceMap datasourceStates))
                      trees)).
  repeat split; auto.
Qed.

(** X4: attaching a context to a result of [buildExpression] replaces
    nothing: the parser is not consulted, and the new pair of context nodes
    comes before the pair [buildExpression] put there, whose arguments stay
    empty. *)
Theorem context_is_stacked
    (vis : Visualization.t VisState Frame) (visualizationState : VisState)
    (datasourceMap : list (string * Datasource.t State))
    (datasourceStates : gmap string (DatasourceState State))
    (framePublicAPI : Frame) (t : Ast) :
  buildExpression fromExpression (Some vis) visualizationState
    datasourceMap datasourceStates framePublicAPI
  = Ok (Some t) ->
  exists rest : list ExpressionFunctionAST,
    t = Expression (kibana :: empty_kibana_context :: rest)
    /\ (forall (anyParser : string -> result Ast) (ctx : Context),
          prependKibanaContext anyParser (Some (IsAst t)) ctx
          = Ok (Some (Expression
                        (kibana :: kibana_context ctx
                           :: kibana :: empty_kibana_context :: rest)))).
Proof.
  intros Ht. rewrite buildExpression_of_merge in Ht.
  destruct (prependDatasourceExpression _ _ _ _) as [[merged|]|err];
    try discriminate.
  inversion Ht; subst t. exists (chain merged). split; reflexivity.
Qed.

End ComposerFurther.

(** * The alerting UI plugin *)

(** X5: [setup] registers the management section exactly when [start]
    registers the routes: with neither capability both do nothing, and
    otherwise the section's url is [#] followed by [BASE_PATH], the prefix
    of the one route pattern that [start] registers. *)
Theorem section_registered_iff_routes
    (translate : string -> string -> string) (BASE_PATH : string)
    (capabilities : AlertingPlugin.Capabilities) :
  (AlertingPlugin.setup translate BASE_PATH capabilities = []
   <-> AlertingPlugin.start BASE_PATH capabilities = [])
  /\ (AlertingPlugin.setup translate BASE_PATH capabilities = []
      <-> AlertingPlugin.actions_show capabilities = false
          /\ AlertingPlugin.alerting_show capabilities = false)
  /\ (AlertingPlugin.setup translate BASE_PATH capabilities <> [] ->
      omap AlertingPlugin.section_url
        (AlertingPlugin.setup translate BASE_PATH capabilities)
      = [String "#" BASE_PATH]
      /\ omap AlertingPlugin.route_pattern
           (AlertingPlugin.start BASE_PATH capabilities)
         = [BASE_PATH ++ AlertingPlugin.route_suffix]).
Proof.
  destruct capabilities as [[] []]; unfold AlertingPlugin.setup,
    AlertingPlugin.start; simpl;
    (split; [split; intros H; (reflexivity || discriminate)|]);
    (split; [split; [intros H; (discriminate || auto)
                    | intros [H1 H2]; (discriminate || reflexivity)]|]);
    intros H; try (split; reflexivity); congruence.
Qed.

(** * The alerting UI: requests *)

Lemma promise_all_resolved {A : Type} (outcomes : list (outcome A)) :
  (exists values, promise_all outcomes = Resolved values)
  <-> Forall (fun o => o <> Rejected) outcomes.
Proof.
  induction outcomes as [|[a|] rest IH]; simpl.
  - split; [constructor | eauto].
  - split.
    + intros [values H]. constructor; [discriminate|].
      apply IH. destruct (promise_all rest); [eauto | discriminate].
    + intros H. inversion H as [|? ? _ Hrest]; subst.
      apply IH in Hrest. destruct Hrest as [values ->]. eauto.
  - split.
    + intros [values H]. discriminate.
    + intros H. inversion H as [|? ? Hx _]; subst. congruence.
Qed.

Lemma deleted_resolved (outcomes : list (outcome unit)) :
  Api.deleted outcomes = Resolved tt
  <-> Forall (fun o => o <> Rejected) outcomes.
Proof.
  rewrite <- promise_all_resolved. unfold Api.deleted.
  destruct (promise_all outcomes) as [values|]; split; intros H;
    try reflexivity; try discriminate; eauto.
  destruct H as [values H]. discriminate.
Qed.


(** X7: [loadAlerts] asks [_find] of the alert API, with the page size as
    [per_page]; for a zero-based index in the safe range of integers it
    asks for the page after it, so for page one at least when the index is
    not negative.  It names [description] as the search field exactly when
    a search text is given and is not empty, and passes the search text on
    as it is, the empty text included. *)
Theorem loadAlerts_query
    (BASE_ALERT_API_PATH : string) (page : Pagination.t)
    (searchText : option string) :
  exists query : list (string * QueryValue),
    Api.loadAlerts BASE_ALERT_API_PATH page searchText
    = Get (BASE_ALERT_API_PATH ++ "/_find") (Some query)
    /\ (safe_integer (Pagination.index page) = true ->
        Api.query_value "page" query = QNumber (Pagination.index page + 1)
        /\ ((0 <= Pagination.index page)%Z ->
            (1 <= Pagination.index page + 1)%Z))
    /\ Api.query_value "per_page" query = QNumber (Pagination.size page)
    /\ (Api.query_value "search_fields" query = QString "description"
        <-> exists text, searchText = Some text /\ text <> EmptyString)
    /\ (Api.query_value "search_fields" query = QUndefined
        <-> searchText = None \/ searchText = Some EmptyString)
    /\ Api.query_value "search" query
       = match searchText with
         | Some text => QString text
         | None => QUndefined
         end.
Proof.
  eexists. split; [reflexivity|]. simpl.
  split; [intros _; split; [reflexivity | lia]|].
  split; [reflexivity|].
  destruct searchText as [[|c text]|]; simpl.
  - split; [|split; [|reflexivity]].
    + split; [discriminate | intros (t & Ht & Hne); congruence].
    + split; auto.
  - split; [|split; [|reflexivity]].
    + split; [intros _; eexists; split; [reflexivity | discriminate]
             | reflexivity].
    + split; [discriminate | intros [H | H]; discriminate].
  - split; [|split; [|reflexivity]].
    + split; [discriminate | intros (t & Ht & _); discriminate].
    + split; auto.
Qed.

(** * The alerting UI: the list of alerts *)

Lemma fold_index_lookup (alertTypes : list AlertType.t) (id : string) :
  forall index : gmap string AlertType.t,
    fold_left
      (fun index alertType => <[AlertType.id alertType := alertType]> index)
      alertTypes index !! id
    = match AlertsList.last_with_id id alertTypes with
      | Some alertType => Some alertType
      | None => index !! id
      end.
Proof.
  induction alertTypes as [|t rest IH]; intros index; simpl; [reflexivity|].
  rewrite IH.
  destruct (AlertsList.last_with_id id rest) as [later|]; [reflexivity|].
  destruct (String.eqb (AlertType.id t) id) eqn:E.
  - apply String.eqb_eq in E. rewrite <- E. apply lookup_insert_eq.
  - apply String.eqb_neq in E. apply lookup_insert_ne. exact E.
Qed.

Lemma last_with_id_Some (id : string) (alertTypes : list AlertType.t)
    (t : AlertType.t) :
  AlertsList.last_with_id id alertTypes = Some t ->
  In t alertTypes /\ AlertType.id t = id.
Proof.
  induction alertTypes as [|x rest IH]; simpl; [discriminate|].
  destruct (AlertsList.last_with_id id rest) as [later|].
  - intros H. inversion H; subst. destruct (IH eq_refl). auto.
  - destruct (String.eqb (AlertType.id x) id) eqn:E; [|discriminate].
    intros H. inversion H; subst. apply String.eqb_eq in E. auto.
Qed.

Lemma last_with_id_None (id : string) (alertTypes : list AlertType.t) :
  AlertsList.last_with_id id alertTypes = None ->
  forall t, In t alertTypes -> AlertType.id t <> id.
Proof.
  induction alertTypes as [|x rest IH]; simpl; [intros _ t []|].
  destruct (AlertsList.last_with_id id rest) as [later|]; [discriminate|].
  destruct (String.eqb (AlertType.id x) id) eqn:E; [discriminate|].
  intros _ t [<- | Ht]; [apply String.eqb_neq, E | apply IH; auto].
Qed.

Lemma last_with_id_NoDup (alertTypes : list AlertType.t) (t : AlertType.t) :
  NoDup (map AlertType.id alertTypes) ->
  In t alertTypes ->
  AlertsList.last_with_id (AlertType.id t) alertTypes = Some t.
Proof.
  induction alertTypes as [|x rest IH]; intros Hnd Hin; [destruct Hin|].
  simpl in Hnd. apply NoDup_cons in Hnd. destruct Hnd as [Hx Hnd].
  simpl. destruct Hin as [-> | Hin].
  - destruct (AlertsList.last_with_id (AlertType.id t) rest) as [later|]
      eqn:E.
    + apply last_with_id_Some in E. destruct E as [Hlater Hid].
      exfalso. apply Hx. rewrite <- Hid.
      apply list_elem_of_In, in_map, Hlater.
    + rewrite String.eqb_refl. reflexivity.
  - rewrite (IH Hnd Hin). reflexivity.
Qed.

Lemma build_index_last (alertTypes : list AlertType.t) (id : string) :
  AlertsList.build_index alertTypes !! id
  = AlertsList.last_with_id id alertTypes.
Proof.
  unfold AlertsList.build_index. rewrite fold_index_lookup.
  destruct (AlertsList.last_with_id id alertTypes); [reflexivity|].
  apply lookup_empty.
Qed.

(** X8: when no alert type of a response has for identifier the name of
    an inherited property, the index built from the response holds, under
    an identifier that is no such name, the last alert type of the
    response with that identifier, and nothing under an identifier no
    alert type has; so what is found is an alert type of the response with
    that identifier, and with distinct identifiers every alert type is
    found under its own. *)
Theorem build_index_lookup (alertTypes : list AlertType.t) (id : string) :
  Forall (fun t => inherited_name (AlertType.id t) = false) alertTypes ->
  (inherited_name id = false ->
   AlertsList.build_index alertTypes !! id
   = AlertsList.last_with_id id alertTypes
   /\ (forall t, AlertsList.build_index alertTypes !! id = Some t ->
                 In t alertTypes /\ AlertType.id t = id)
   /\ (AlertsList.build_index alertTypes !! id = None <->
       forall t, In t alertTypes -> AlertType.id t <> id))
  /\ (NoDup (map AlertType.id alertTypes) ->
      forall t, In t alertTypes ->
                AlertsList.build_index alertTypes !! AlertType.id t = Some t).
Proof.
  intros _. split.
  - intros _. split; [apply build_index_last|].
    split; [intros t; rewrite build_index_last; apply last_with_id_Some|].
    rewrite build_index_last. split; [apply last_with_id_None|].
    intros H. destruct (AlertsList.last_with_id id alertTypes) as [t|] eqn:E;
      [|reflexivity].
    apply last_with_id_Some in E. destruct E as [Hin Hid].
    exfalso. exact (H t Hin Hid).
  - intros Hnd t Hin. rewrite build_index_last.
    apply last_with_id_NoDup; assumption.
Qed.

(** X9: when no identifier of an alert type of the response, and no type
    identifier of an alert, is the name of an inherited property, the
    effect that fills the table, once the alert types are indexed, sets one
    row for each alert, in order, that keeps the alert and shows the name
    of the last alert type of the response with the alert's type
    identifier, or the identifier itself when the response has none; while
    the index is undefined the effect sets nothing. *)
Theorem table_rows (alertTypes : list AlertType.t) (alerts : list Alert.t) :
  Forall (fun t => inherited_name (AlertType.id t) = false) alertTypes ->
  Forall (fun a => inherited_name (Alert.alertTypeId a) = false) alerts ->
  (exists rows : list AlertsList.Data,
     AlertsList.data_effect alerts
       (Some (AlertsList.build_index alertTypes))
     = [AlertsList.SetData rows]
     /\ map AlertsList.alert rows = alerts
     /\ length rows = length alerts
     /\ (forall (i : nat) (a : Alert.t),
           alerts !! i = Some a ->
           exists row,
             rows !! i = Some row
             /\ AlertsList.alert row = a
             /\ AlertsList.alertType row
                = match AlertsList.last_with_id (Alert.alertTypeId a)
                          alertTypes with
                  | Some t => AlertType.name t
                  | None => Alert.alertTypeId a
                  end))
  /\ (forall st : AlertsList.State,
        AlertsList.run (AlertsList.data_effect alerts None) st = st).
Proof.
  intros _ _. split; [|reflexivity].
  eexists. split; [reflexivity|].
  split; [rewrite map_map; apply map_id|].
  split; [apply length_map|].
  intros i a Hi. eexists. rewrite list_lookup_fmap, Hi.
  split; [reflexivity|]. split; [reflexivity|].
  unfold AlertsList.data_row. simpl. rewrite build_index_last. reflexivity.
Qed.

(** X10: [loadAlertsData] makes the one request of [loadAlerts] and ends
    with [isLoadingAlerts] false whatever the outcome.  When the request
    is resolved, the alerts and the total are those of the response and no
    toast is added; when it is rejected, the alerts and the total stay as
    they were and one toast is added.  Nothing else of the state
    changes. *)
Theorem loadAlertsData_outcome
    (translate : string -> string -> string) (BASE_ALERT_API_PATH : string)
    (page : Pagination.t) (searchText : option string)
    (response : outcome LoadAlertsResponse.t) (st : AlertsList.State) :
  let st' :=
    AlertsList.run
      (AlertsList.loadAlertsData translate BASE_ALERT_API_PATH
         page searchText response) st in
  AlertsList.isLoadingAlerts st' = false
  /\ AlertsList.requests st'
     = (AlertsList.requests st
         ++ [Api.loadAlerts BASE_ALERT_API_PATH page searchText])%list
  /\ match response with
     | Resolved r =>
         AlertsList.alerts st' = LoadAlertsResponse.data r
         /\ AlertsList.totalItemCount st' = LoadAlertsResponse.total r
         /\ AlertsList.toasts st' = AlertsList.toasts st
     | Rejected =>
         AlertsList.alerts st' = AlertsList.alerts st
         /\ AlertsList.totalItemCount st' = AlertsList.totalItemCount st
         /\ AlertsList.toasts st'
            = (AlertsList.toasts st
                ++ [AlertsList.unableToLoadAlerts translate])%list
     end
  /\ AlertsList.alertTypesIndex st' = AlertsList.alertTypesIndex st
  /\ AlertsList.data st' = AlertsList.data st
  /\ AlertsList.isLoadingAlertTypes st' = AlertsList.isLoadingAlertTypes st
  /\ AlertsList.isDeletingActions st' = AlertsList.isDeletingActions st.
Proof.
  destruct response as [r|]; simpl; repeat split.
Qed.

(** X11: the effect that loads the alert types ends with
    [isLoadingAlertTypes] false whatever the outcome.  When the request is
    resolved the index is the one built from the response; when it is
    rejected one toast is added and the index stays as it was, so that,
    from an undefined index, the effect that fills the table still sets
    nothing, whatever alerts are loaded. *)
Theorem alertTypes_effect_outcome
    (translate : string -> string -> string) (BASE_ALERT_API_PATH : string)
    (response : outcome (list AlertType.t)) (alerts : list Alert.t)
    (st : AlertsList.State) :
  let st' :=
    AlertsList.run
      (AlertsList.alertTypes_effect translate BASE_ALERT_API_PATH response)
      st in
  AlertsList.isLoadingAlertTypes st' = false
  /\ AlertsList.requests st'
     = (AlertsList.requests st ++ [Api.loadAlertTypes BASE_ALERT_API_PATH])%list
  /\ match response with
     | Resolved alertTypes =>
         AlertsList.alertTypesIndex st'
         = Some (AlertsList.build_index alertTypes)
         /\ AlertsList.toasts st' = AlertsList.toasts st
     | Rejected =>
         AlertsList.alertTypesIndex st' = AlertsList.alertTypesIndex st
         /\ AlertsList.toasts st'
            = (AlertsList.toasts st
                ++ [AlertsList.unableToLoadAlertTypes translate])%list
         /\ (AlertsList.alertTypesIndex st = None ->
             AlertsList.run
               (AlertsList.data_effect alerts
                  (AlertsList.alertTypesIndex st')) st'
             = st')
     end
  /\ AlertsList.alerts st' = AlertsList.alerts st
  /\ AlertsList.data st' = AlertsList.data st.
Proof.
  destruct response as [alertTypes|]; simpl; repeat split.
  intros ->. reflexivity.
Qed.

Lemma run_app (a b : list AlertsList.Effect) (st : AlertsList.State) :
  AlertsList.run (a ++ b) st = AlertsList.run b (AlertsList.run a st).
Proof. unfold AlertsList.run. apply fold_left_app. Qed.

Lemma run_requests (reqs : list Request) :
  forall st : AlertsList.State,
    AlertsList.run (map AlertsList.Http reqs) st
    = {| AlertsList.alertTypesIndex := AlertsList.alertTypesIndex st;
         AlertsList.alerts := AlertsList.alerts st;
         AlertsList.data := AlertsList.data st;
         AlertsList.isLoadingAlertTypes := AlertsList.isLoadingAlertTypes st;
         AlertsList.isLoadingAlerts := AlertsList.isLoadingAlerts st;
         AlertsList.isDeletingActions := AlertsList.isDeletingActions st;
         AlertsList.totalItemCount := AlertsList.totalItemCount st;
         AlertsList.toasts := AlertsList.toasts st;
         AlertsList.requests := (AlertsList.requests st ++ reqs)%list |}.
Proof.
  induction reqs as [|r reqs IH]; intros st.
  - destruct st. simpl. rewrite app_nil_r. reflexivity.
  - change (AlertsList.run (map AlertsList.Http (r :: reqs)) st)
      with (AlertsList.run (map AlertsList.Http reqs)
              (AlertsList.apply st (AlertsList.Http r))).
    rewrite IH. simpl. rewrite <- app_assoc. reflexivity.
Qed.

Lemma deletions_resolved (deletion : nat -> outcome unit) (n : nat) :
  Api.deleted (map deletion (seq 0 n)) = Resolved tt
  <-> forall i, i < n -> deletion i <> Rejected.
Proof.
  rewrite deleted_resolved, Forall_forall. split.
  - intros H i Hi. apply H. apply list_elem_of_In, in_map, in_seq. lia.
  - intros H o Ho. apply list_elem_of_In, in_map_iff in Ho.
    destruct Ho as (i & <- & Hi). apply in_seq in Hi. apply H. lia.
Qed.

(** X12: [deleteItems] raises [isDeletingActions] first and lowers it
    last.  It makes one [DELETE] request for each item, in order, and then,
    whether they succeed or not, exactly one request for the page of
    alerts; it leaves both [isDeletingActions] and [isLoadingAlerts] false.
    It adds the toast of a failed deletion exactly when some request of
    deletion is rejected, before the toast of a failed reload if there is
    one; the alerts and the total are those of the reload when it is
    resolved and stay as they were when it is not. *)
Theorem deleteItems_outcome
    (translate : string -> string -> string)
    (BASE_ACTION_API_PATH BASE_ALERT_API_PATH : string)
    (items : list AlertsList.Data) (page : Pagination.t)
    (searchText : option string) (deletion : nat -> outcome unit)
    (reload : outcome LoadAlertsResponse.t) (st : AlertsList.State) :
  let trace :=
    AlertsList.deleteItems translate BASE_ACTION_API_PATH BASE_ALERT_API_PATH
      items page searchText deletion reload in
  let st' := AlertsList.run trace st in
  let ids := map (fun item => Alert.id (AlertsList.alert item)) items in
  let failed :=
    match Api.deleted (map deletion (seq 0 (length items))) with
    | Resolved _ => []
    | Rejected => [AlertsList.failedToDeleteAlerts translate]
    end in
  hd_error trace = Some (AlertsList.SetIsDeletingActions true)
  /\ last trace = Some (AlertsList.SetIsDeletingActions false)
  /\ AlertsList.isDeletingActions st' = false
  /\ AlertsList.isLoadingAlerts st' = false
  /\ AlertsList.requests st'
     = (AlertsList.requests st
          ++ Api.deleteAlerts BASE_ACTION_API_PATH ids
          ++ [Api.loadAlerts BASE_ALERT_API_PATH page searchText])%list
  /\ length (List.filter AlertsList.is_Get trace) = 1
  /\ (Api.deleted (map deletion (seq 0 (length items))) = Resolved tt
      <-> forall i, i < length items -> deletion i <> Rejected)
  /\ match reload with
     | Resolved r =>
         AlertsList.alerts st' = LoadAlertsResponse.data r
         /\ AlertsList.totalItemCount st' = LoadAlertsResponse.total r
         /\ AlertsList.toasts st' = (AlertsList.toasts st ++ failed)%list
     | Rejected =>
         AlertsList.alerts st' = AlertsList.alerts st
         /\ AlertsList.totalItemCount st' = AlertsList.totalItemCount st
         /\ AlertsList.toasts st'
            = (AlertsList.toasts st ++ failed
                 ++ [AlertsList.unableToLoadAlerts translate])%list
     end.
Proof.
  intros trace st' ids failed.
  assert (Hget : forall reqs : list string,
             List.filter AlertsList.is_Get
               (map AlertsList.Http
                  (Api.deleteAlerts BASE_ACTION_API_PATH reqs)) = []).
  { induction reqs as [|r reqs IH]; [reflexivity | exact IH]. }
  split; [reflexivity|].
  split.
  { subst trace. unfold AlertsList.deleteItems.
    rewrite !app_assoc. apply last_snoc. }
  subst st' trace failed. unfold AlertsList.deleteItems.
  rewrite length_map.
  fold ids.
  rewrite !run_app, run_requests, !List.filter_app, Hget.
  split; [|split; [|split; [|split; [|split;
    [apply deletions_resolved|]]]]];
    destruct (Api.deleted (map deletion (seq 0 (length items)))) as [[]|];
    destruct reload as [r|]; simpl;
    rewrite <- ?app_assoc, ?app_nil_r; try reflexivity; repeat split.
Qed.

(** * The further properties on the sample inputs *)

Lemma sample_states_same_state (datasourceId : string) :
  state <$> sample_states !! datasourceId
  = state <$> sample_states_loading !! datasourceId.
Proof.
  unfold sample_states, sample_states_loading.
  destruct (decide (datasourceId = "ds1")) as [-> | H1];
    [rewrite !lookup_insert_eq; reflexivity|].
  rewrite !(lookup_insert_ne _ "ds1") by congruence.
  destruct (decide (datasourceId = "ds2")) as [-> | H2];
    [rewrite !lookup_insert_eq; reflexivity|].
  rewrite !(lookup_insert_ne _ "ds2") by congruence.
  reflexivity.
Qed.

Lemma isLoading_is_ignored_sample :
  prependDatasourceExpression sample_fromExpression (Some (IsString "A"))
    sample_map sample_states
  = prependDatasourceExpression sample_fromExpression (Some (IsString "A"))
      sample_map sample_states_loading.
Proof.
  apply (isLoading_is_ignored nat nat nat sample_fromExpression
           (Some sample_visualization) 0 0 (Some (IsString "A"))
           sample_map sample_states sample_states_loading).
  exact sample_states_same_state.
Defined.

Lemma tree_map_reports_trees :
  Forall (fun entry => reports_trees (snd entry)) tree_map.
Proof. repeat constructor. intros st layerId text. discriminate. Qed.

Lemma trees_are_not_parsed_sample :
  prependDatasourceExpression strict_fromExpression (Some (IsAst chain_B))
    tree_map sample_states
  = Ok (Some (Expression
                (lens_merge_tables
                   [ ("T1", Expression [FunctionAST "T1" []]);
                     ("T2", Expression [FunctionAST "T2" []]) ]
                   :: chain chain_B))).
Proof.
  apply (proj1 (trees_are_not_parsed nat strict_fromExpression chain_B
                  tree_map sample_states
                  ltac:(repeat constructor; vm_compute; eauto)
                  tree_map_reports_trees)).
Defined.

Lemma buildExpression_sample :
  buildExpression sample_fromExpression (Some sample_visualization) 0
    sample_map sample_states 0
  = Ok (Some sample_built).
Proof. vm_compute. reflexivity. Qed.

Lemma buildExpression_shape_sample :
  exists (v : AstOrString) (pv : Ast) (merge : ExpressionFunctionAST),
    Visualization.toExpression sample_visualization 0 0 = Some v
    /\ parsed sample_fromExpression v = Ok pv
    /\ function merge = "lens_merge_tables"
    /\ sample_built
       = Expression
           (FunctionAST "kibana" [] :: empty_kibana_context
              :: merge :: chain pv)
    /\ length (chain sample_built) = 3 + length (chain pv).
Proof.
  apply (proj2 (buildExpression_shape nat nat nat sample_fromExpression
                  sample_visualization 0 sample_map sample_states 0)).
  exact buildExpression_sample.
Defined.

Lemma context_is_stacked_sample :
  exists rest : list ExpressionFunctionAST,
    sample_built = Expression (kibana :: empty_kibana_context :: rest)
    /\ (forall (anyParser : string -> result Ast) (ctx : Context),
          prependKibanaContext anyParser (Some (IsAst sample_built)) ctx
          = Ok (Some (Expression
                        (kibana :: kibana_context ctx
                           :: kibana :: empty_kibana_context :: rest)))).
Proof.
  apply (context_is_stacked nat nat nat sample_fromExpression
           sample_visualization 0 sample_map sample_states 0).
  exact buildExpression_sample.
Defined.

Lemma section_registered_iff_routes_sample :
  omap AlertingPlugin.section_url
    (AlertingPlugin.setup sample_translate "/management/kibana/alerting"
       {| AlertingPlugin.actions_show := false;
          AlertingPlugin.alerting_show := true |})
  = ["#/management/kibana/alerting"]
  /\ omap AlertingPlugin.route_pattern
       (AlertingPlugin.start "/management/kibana/alerting"
          {| AlertingPlugin.actions_show := false;
             AlertingPlugin.alerting_show := true |})
     = ["/management/kibana/alerting"
          ++ AlertingPlugin.route_suffix].
Proof.
  apply (proj2 (proj2 (section_registered_iff_routes sample_translate
                         "/management/kibana/alerting"
                         {| AlertingPlugin.actions_show := false;
                            AlertingPlugin.alerting_show := true |}))).
  simpl. discriminate.
Defined.


Lemma loadAlerts_query_sample :
  exists query : list (string * QueryValue),
    Api.loadAlerts "/api/alert" first_page (Some EmptyString)
    = Get ("/api/alert" ++ "/_find") (Some query)
    /\ Api.query_value "page" query = QNumber 1
    /\ Api.query_value "search_fields" query = QUndefined
    /\ Api.query_value "search" query = QString EmptyString.
Proof.
  destruct (loadAlerts_query "/api/alert" first_page (Some EmptyString))
    as (query & H1 & H2 & _ & _ & H3 & H4).
  exists query. split; [exact H1|].
  split; [apply (proj1 (H2 eq_refl))|].
  split; [apply H3; right; reflexivity | exact H4].
Defined.

Lemma sample_types_distinct :
  NoDup (map AlertType.id [threshold_type; uptime_type]).
Proof.
  simpl. apply NoDup_cons. split.
  - intros H. apply list_elem_of_In in H. simpl in H.
    destruct H as [H | []]. discriminate.
  - apply NoDup_singleton.
Qed.

Lemma build_index_lookup_sample :
  AlertsList.build_index
    [threshold_type; uptime_type; renamed_threshold_type] !! "threshold"
  = Some renamed_threshold_type
  /\ AlertsList.build_index [threshold_type; uptime_type] !! "uptime"
     = Some uptime_type.
Proof.
  split.
  - apply (proj1 (build_index_lookup
                    [threshold_type; uptime_type; renamed_threshold_type]
                    "threshold"
                    ltac:(repeat constructor))
             eq_refl).
  - apply (proj2 (build_index_lookup [threshold_type; uptime_type] "uptime"
                    ltac:(repeat constructor))
             sample_types_distinct uptime_type).
    right. left. reflexivity.
Defined.

Lemma table_rows_sample :
  exists row : AlertsList.Data,
    AlertsList.alert row = sample_alert "a2" "unknown"
    /\ AlertsList.alertType row = "unknown".
Proof.
  destruct (proj1 (table_rows [threshold_type; uptime_type] sample_alerts
                     ltac:(repeat constructor) ltac:(repeat constructor)))
    as (rows & _ & _ & _ & H).
  destruct (H 1 (sample_alert "a2" "unknown") eq_refl)
    as (row & _ & Ha & Ht).
  exists row. split; [exact Ha | exact Ht].
Defined.

Lemma alertTypes_effect_outcome_sample :
  AlertsList.run
    (AlertsList.data_effect sample_alerts
       (AlertsList.alertTypesIndex
          (AlertsList.run
             (AlertsList.alertTypes_effect sample_translate "/api/alert"
                Rejected)
             AlertsList.initial)))
    (AlertsList.run
       (AlertsList.alertTypes_effect sample_translate "/api/alert" Rejected)
       AlertsList.initial)
  = AlertsList.run
      (AlertsList.alertTypes_effect sample_translate "/api/alert" Rejected)
      AlertsList.initial.
Proof.
  destruct (alertTypes_effect_outcome sample_translate "/api/alert"
              Rejected sample_alerts AlertsList.initial)
    as (_ & _ & (_ & _ & H) & _).
  apply H. reflexivity.
Defined.

Lemma deleteItems_outcome_sample :
  Api.deleted (map second_fails (seq 0 (length sample_rows))) <> Resolved tt.
Proof.
  destruct (deleteItems_outcome sample_translate "/api/action" "/api/alert"
              sample_rows first_page None second_fails Rejected
              AlertsList.initial)
    as (_ & _ & _ & _ & _ & _ & H & _).
  intros Hd. apply (proj1 H Hd 1); [simpl; lia | reflexivity].
Defined.
